(** * Trustap SDK: dispatch core and webhook state tables

    A shallow embedding of the SDK's operation-dispatch core
    ([core.ts]: path templates, request-option normalisation, security-map
    lookup, the authentication middleware and the operation-id proxy) and of
    the two webhook state tables ([state-machine.ts], [webhooks/state.ts]),
    followed by the properties established about them.

    Conventions of the embedding.
    - A JavaScript string is a [string] holding the octets of its UTF-8
      form (and, for a surrogate outside a pair, the three octets the same
      scheme gives its code point).  The program cuts and joins strings
      next to ASCII characters only, where octets and code units agree;
      the host functions that look at characters ([btoa], [Headers.set],
      [encodeURIComponent], [toUpperCase], [trim]) read them off the
      octets.
    - A plain object or [Map] used as a dictionary is a [gmap string _];
      an object whose key order or shape matters is an association list.
    - [null] results are [None]; thrown values are the [Throw] case of
      [result]; mutable closure state is passed explicitly. *)

From stdpp Require Import base option list strings gmap.
From stdpp Require Import pretty.
From Stdlib Require Import Ascii.

Open Scope string_scope.
Open Scope list_scope.

Set Warnings "-register-all".

(** ** Host-language helpers *)

Module JS.

(** *** Thrown values and fallible computations *)

(** The message of an error raised by the host (by [toISOString],
    [encodeURIComponent], [Headers.set]) is the host's own; the texts used
    here are those of V8 and Node, and no property depends on them. *)
Inductive exn :=
| TypeError (message : string)
| RangeError (message : string)
| URIError (message : string)
| Error (message : string)
| DOMException (name : string)
| Rejection (reason : string).

Inductive result (A : Type) :=
| Ok (a : A)
| Throw (e : exn).
Arguments Ok {A} a.
Arguments Throw {A} e.

#[global] Instance result_ret : MRet result := @Ok.
#[global] Instance result_bind : MBind result := λ A B f r,
  match r with Ok a => f a | Throw e => Throw e end.
#[global] Instance result_fmap : FMap result := λ A B f r,
  match r with Ok a => Ok (f a) | Throw e => Throw e end.

(** *** Strings *)

(** [Array.prototype.includes] on an array of strings. *)
Definition includes (xs : list string) (x : string) : bool :=
  existsb (String.eqb x) xs.

Definition startsWith (s pre : string) : bool := String.prefix pre s.

(** [s.slice(n)] for [0 <= n]. *)
Definition sliceFrom (s : string) (n : nat) : string :=
  String.substring n (String.length s - n) s.

(** [s.slice(0, n)] for [0 <= n]. *)
Definition sliceTo (s : string) (n : nat) : string :=
  String.substring 0 (Nat.min n (String.length s)) s.

Definition endsWith (s suf : string) : bool :=
  (String.length suf <=? String.length s)%nat
  && String.eqb (sliceFrom s (String.length s - String.length suf)) suf.

Definition isUpper (c : ascii) : bool :=
  (65 <=? nat_of_ascii c)%nat && (nat_of_ascii c <=? 90)%nat.
Definition isLower (c : ascii) : bool :=
  (97 <=? nat_of_ascii c)%nat && (nat_of_ascii c <=? 122)%nat.
Definition isDigit (c : ascii) : bool :=
  (48 <=? nat_of_ascii c)%nat && (nat_of_ascii c <=? 57)%nat.

Definition upperChar (c : ascii) : ascii :=
  if isLower c then ascii_of_nat (nat_of_ascii c - 32) else c.
Definition lowerChar (c : ascii) : ascii :=
  if isUpper c then ascii_of_nat (nat_of_ascii c + 32) else c.

Fixpoint mapChars (f : ascii → ascii) (s : string) : string :=
  match s with
  | "" => ""
  | String c s' => String (f c) (mapChars f s')
  end.

Fixpoint allChars (p : ascii → bool) (s : string) : bool :=
  match s with
  | "" => true
  | String c s' => p c && allChars p s'
  end.

(** Lower-casing of the ASCII letters alone: the byte-lowercase of the
    Fetch standard, and what matching an ASCII pattern under [/i] amounts
    to (a character outside ASCII never matches an ASCII one there). *)
Definition asciiLowerCase : string → string := mapChars lowerChar.

(** **** Octets and code units *)

Definition octets (s : string) : list nat :=
  nat_of_ascii <$> String.list_ascii_of_string s.

Definition ofOctets (l : list nat) : string :=
  String.string_of_list_ascii (ascii_of_nat <$> l).

Definition isAsciiChar (c : ascii) : bool := (nat_of_ascii c <? 128)%nat.

(** The second and later octets of a character: [10xxxxxx]. *)
Definition isContinuation (c : ascii) : bool :=
  (128 <=? nat_of_ascii c)%nat && (nat_of_ascii c <? 192)%nat.

(** The first two octets of a surrogate, U+D800 to U+DFFF: [ED], then
    [A0] to [BF].  The octet [ED] only ever begins a character. *)
Definition isSurrogateHead (c d : ascii) : bool :=
  (nat_of_ascii c =? 237)%nat && (160 <=? nat_of_ascii d)%nat
  && (nat_of_ascii d <? 192)%nat.

(** Whether the string has a surrogate outside a pair: the negation of
    [String.prototype.isWellFormed]. *)
Fixpoint hasLoneSurrogate (s : string) : bool :=
  match s with
  | "" => false
  | String c s' =>
      match s' with
      | String d _ => isSurrogateHead c d || hasLoneSurrogate s'
      | "" => false
      end
  end.

(** U+FFFD, the replacement character. *)
Definition replacementCharacter : string := ofOctets [239; 191; 189].

(** [String.prototype.toWellFormed]: every surrogate outside a pair
    becomes U+FFFD.  The encoders to UTF-8 ([TextEncoder], [Buffer.from])
    begin with it. *)
Fixpoint toWellFormed (s : string) : string :=
  match s with
  | "" => ""
  | String c s' =>
      match s' with
      | String d (String _ rest) =>
          if isSurrogateHead c d
          then replacementCharacter +:+ toWellFormed rest
          else String c (toWellFormed s')
      | _ => String c (toWellFormed s')
      end
  end.

(** The string as a byte string, one byte per code unit, when no code
    unit is above U+00FF: what the conversion of an argument to
    [ByteString] and [btoa] accept.  Characters up to U+007F are one
    octet, those from U+0080 to U+00FF the two octets [C2] or [C3] and a
    continuation. *)
Fixpoint latin1 (s : string) : option (list nat) :=
  match s with
  | "" => Some []
  | String c s' =>
      let n := nat_of_ascii c in
      if (n <? 128)%nat then cons n <$> latin1 s'
      else if (n =? 194)%nat || (n =? 195)%nat then
        match s' with
        | String d rest =>
            if isContinuation d
            then cons ((n - 192) * 64 + (nat_of_ascii d - 128))%nat
                   <$> latin1 rest
            else None
        | "" => None
        end
      else None
  end.

(** The three octets of a code point from U+0800 to U+FFFF. *)
Definition threeOctets (x : N) : string :=
  String (ascii_of_N (224 + x / 4096))
    (String (ascii_of_N (128 + (x / 64) mod 64))
       (String (ascii_of_N (128 + x mod 64)) "")).

(** The two surrogates of the code point above U+FFFF that the four
    octets [a b c d] stand for. *)
Definition surrogatePair (a b c d : ascii) : list string :=
  let cp := ((N_of_ascii a - 240) * 262144 + (N_of_ascii b - 128) * 4096
             + (N_of_ascii c - 128) * 64 + (N_of_ascii d - 128))%N in
  let v := (cp - 65536)%N in
  [threeOctets (55296 + v / 1024); threeOctets (56320 + v mod 1024)].

(** The UTF-16 code units of the string, each as the string of that one
    unit: [s[0]], [s[1]], ... *)
Fixpoint units (s : string) : list string :=
  match s with
  | "" => []
  | String a s1 =>
      if (nat_of_ascii a <? 194)%nat then String a "" :: units s1
      else
        match s1 with
        | "" => [String a ""]
        | String b s2 =>
            if (nat_of_ascii a <? 224)%nat
            then String a (String b "") :: units s2
            else
              match s2 with
              | "" => String a "" :: units s1
              | String c s3 =>
                  if (nat_of_ascii a <? 240)%nat
                  then String a (String b (String c "")) :: units s3
                  else
                    match s3 with
                    | "" => String a "" :: units s1
                    | String d s4 => surrogatePair a b c d ++ units s4
                    end
              end
        end
  end.

(** **** Case mapping *)

(** The characters outside ASCII that [String.prototype.toUpperCase]
    changes, with what it makes of them (Unicode 14, the unconditional
    mappings of SpecialCasing included). *)
Definition upperCaseTable : list (string * string) :=
  [ ("µ", "Μ"); ("ß", "SS"); ("à", "À"); ("á", "Á"); ("â", "Â"); ("ã", "Ã");
    ("ä", "Ä"); ("å", "Å"); ("æ", "Æ"); ("ç", "Ç"); ("è", "È"); ("é", "É");
    ("ê", "Ê"); ("ë", "Ë"); ("ì", "Ì"); ("í", "Í"); ("î", "Î"); ("ï", "Ï");
    ("ð", "Ð"); ("ñ", "Ñ"); ("ò", "Ò"); ("ó", "Ó"); ("ô", "Ô"); ("õ", "Õ");
    ("ö", "Ö"); ("ø", "Ø"); ("ù", "Ù"); ("ú", "Ú"); ("û", "Û"); ("ü", "Ü");
    ("ý", "Ý"); ("þ", "Þ"); ("ÿ", "Ÿ"); ("ā", "Ā"); ("ă", "Ă"); ("ą", "Ą");
    ("ć", "Ć"); ("ĉ", "Ĉ"); ("ċ", "Ċ"); ("č", "Č"); ("ď", "Ď"); ("đ", "Đ");
    ("ē", "Ē"); ("ĕ", "Ĕ"); ("ė", "Ė"); ("ę", "Ę"); ("ě", "Ě"); ("ĝ", "Ĝ");
    ("ğ", "Ğ"); ("ġ", "Ġ"); ("ģ", "Ģ"); ("ĥ", "Ĥ"); ("ħ", "Ħ"); ("ĩ", "Ĩ");
    ("ī", "Ī"); ("ĭ", "Ĭ"); ("į", "Į"); ("ı", "I"); ("ĳ", "Ĳ"); ("ĵ", "Ĵ");
    ("ķ", "Ķ"); ("ĺ", "Ĺ"); ("ļ", "Ļ"); ("ľ", "Ľ"); ("ŀ", "Ŀ"); ("ł", "Ł");
    ("ń", "Ń"); ("ņ", "Ņ"); ("ň", "Ň"); ("ŉ", "ʼN"); ("ŋ", "Ŋ"); ("ō", "Ō");
    ("ŏ", "Ŏ"); ("ő", "Ő"); ("œ", "Œ"); ("ŕ", "Ŕ"); ("ŗ", "Ŗ"); ("ř", "Ř");
    ("ś", "Ś"); ("ŝ", "Ŝ"); ("ş", "Ş"); ("š", "Š"); ("ţ", "Ţ"); ("ť", "Ť");
    ("ŧ", "Ŧ"); ("ũ", "Ũ"); ("ū", "Ū"); ("ŭ", "Ŭ"); ("ů", "Ů"); ("ű", "Ű");
    ("ų", "Ų"); ("ŵ", "Ŵ"); ("ŷ", "Ŷ"); ("ź", "Ź"); ("ż", "Ż"); ("ž", "Ž");
    ("ſ", "S"); ("ƀ", "Ƀ"); ("ƃ", "Ƃ"); ("ƅ", "Ƅ"); ("ƈ", "Ƈ"); ("ƌ", "Ƌ");
    ("ƒ", "Ƒ"); ("ƕ", "Ƕ"); ("ƙ", "Ƙ"); ("ƚ", "Ƚ"); ("ƞ", "Ƞ"); ("ơ", "Ơ");
    ("ƣ", "Ƣ"); ("ƥ", "Ƥ"); ("ƨ", "Ƨ"); ("ƭ", "Ƭ"); ("ư", "Ư"); ("ƴ", "Ƴ");
    ("ƶ", "Ƶ"); ("ƹ", "Ƹ"); ("ƽ", "Ƽ"); ("ƿ", "Ƿ"); ("ǅ", "Ǆ"); ("ǆ", "Ǆ");
    ("ǈ", "Ǉ"); ("ǉ", "Ǉ"); ("ǋ", "Ǌ"); ("ǌ", "Ǌ"); ("ǎ", "Ǎ"); ("ǐ", "Ǐ");
    ("ǒ", "Ǒ"); ("ǔ", "Ǔ"); ("ǖ", "Ǖ"); ("ǘ", "Ǘ"); ("ǚ", "Ǚ"); ("ǜ", "Ǜ");
    ("ǝ", "Ǝ"); ("ǟ", "Ǟ"); ("ǡ", "Ǡ"); ("ǣ", "Ǣ"); ("ǥ", "Ǥ"); ("ǧ", "Ǧ");
    ("ǩ", "Ǩ"); ("ǫ", "Ǫ"); ("ǭ", "Ǭ"); ("ǯ", "Ǯ"); ("ǰ", "J̌"); ("ǲ", "Ǳ");
    ("ǳ", "Ǳ"); ("ǵ", "Ǵ"); ("ǹ", "Ǹ"); ("ǻ", "Ǻ"); ("ǽ", "Ǽ"); ("ǿ", "Ǿ");
    ("ȁ", "Ȁ"); ("ȃ", "Ȃ"); ("ȅ", "Ȅ"); ("ȇ", "Ȇ"); ("ȉ", "Ȉ"); ("ȋ", "Ȋ");
    ("ȍ", "Ȍ"); ("ȏ", "Ȏ"); ("ȑ", "Ȑ"); ("ȓ", "Ȓ"); ("ȕ", "Ȕ"); ("ȗ", "Ȗ");
    ("ș", "Ș"); ("ț", "Ț"); ("ȝ", "Ȝ"); ("ȟ", "Ȟ"); ("ȣ", "Ȣ"); ("ȥ", "Ȥ");
    ("ȧ", "Ȧ"); ("ȩ", "Ȩ"); ("ȫ", "Ȫ"); ("ȭ", "Ȭ"); ("ȯ", "Ȯ"); ("ȱ", "Ȱ");
    ("ȳ", "Ȳ"); ("ȼ", "Ȼ"); ("ȿ", "Ȿ"); ("ɀ", "Ɀ"); ("ɂ", "Ɂ"); ("ɇ", "Ɇ");
    ("ɉ", "Ɉ"); ("ɋ", "Ɋ"); ("ɍ", "Ɍ"); ("ɏ", "Ɏ"); ("ɐ", "Ɐ"); ("ɑ", "Ɑ");
    ("ɒ", "Ɒ"); ("ɓ", "Ɓ"); ("ɔ", "Ɔ"); ("ɖ", "Ɖ"); ("ɗ", "Ɗ"); ("ə", "Ə");
    ("ɛ", "Ɛ"); ("ɜ", "Ɜ"); ("ɠ", "Ɠ"); ("ɡ", "Ɡ"); ("ɣ", "Ɣ"); ("ɥ", "Ɥ");
    ("ɦ", "Ɦ"); ("ɨ", "Ɨ"); ("ɩ", "Ɩ"); ("ɪ", "Ɪ"); ("ɫ", "Ɫ"); ("ɬ", "Ɬ");
    ("ɯ", "Ɯ"); ("ɱ", "Ɱ"); ("ɲ", "Ɲ"); ("ɵ", "Ɵ"); ("ɽ", "Ɽ"); ("ʀ", "Ʀ");
    ("ʂ", "Ʂ"); ("ʃ", "Ʃ"); ("ʇ", "Ʇ"); ("ʈ", "Ʈ"); ("ʉ", "Ʉ"); ("ʊ", "Ʊ");
    ("ʋ", "Ʋ"); ("ʌ", "Ʌ"); ("ʒ", "Ʒ"); ("ʝ", "Ʝ"); ("ʞ", "Ʞ"); ("ͅ", "Ι");
    ("ͱ", "Ͱ"); ("ͳ", "Ͳ"); ("ͷ", "Ͷ"); ("ͻ", "Ͻ"); ("ͼ", "Ͼ"); ("ͽ", "Ͽ");
    ("ΐ", "Ϊ́"); ("ά", "Ά"); ("έ", "Έ"); ("ή", "Ή"); ("ί", "Ί"); ("ΰ", "Ϋ́");
    ("α", "Α"); ("β", "Β"); ("γ", "Γ"); ("δ", "Δ"); ("ε", "Ε"); ("ζ", "Ζ");
    ("η", "Η"); ("θ", "Θ"); ("ι", "Ι"); ("κ", "Κ"); ("λ", "Λ"); ("μ", "Μ");
    ("ν", "Ν"); ("ξ", "Ξ"); ("ο", "Ο"); ("π", "Π"); ("ρ", "Ρ"); ("ς", "Σ");
    ("σ", "Σ"); ("τ", "Τ"); ("υ", "Υ"); ("φ", "Φ"); ("χ", "Χ"); ("ψ", "Ψ");
    ("ω", "Ω"); ("ϊ", "Ϊ"); ("ϋ", "Ϋ"); ("ό", "Ό"); ("ύ", "Ύ"); ("ώ", "Ώ");
    ("ϐ", "Β"); ("ϑ", "Θ"); ("ϕ", "Φ"); ("ϖ", "Π"); ("ϗ", "Ϗ"); ("ϙ", "Ϙ");
    ("ϛ", "Ϛ"); ("ϝ", "Ϝ"); ("ϟ", "Ϟ"); ("ϡ", "Ϡ"); ("ϣ", "Ϣ"); ("ϥ", "Ϥ");
    ("ϧ", "Ϧ"); ("ϩ", "Ϩ"); ("ϫ", "Ϫ"); ("ϭ", "Ϭ"); ("ϯ", "Ϯ"); ("ϰ", "Κ");
    ("ϱ", "Ρ"); ("ϲ", "Ϲ"); ("ϳ", "Ϳ"); ("ϵ", "Ε"); ("ϸ", "Ϸ"); ("ϻ", "Ϻ");
    ("а", "А"); ("б", "Б"); ("в", "В"); ("г", "Г"); ("д", "Д"); ("е", "Е");
    ("ж", "Ж"); ("з", "З"); ("и", "И"); ("й", "Й"); ("к", "К"); ("л", "Л");
    ("м", "М"); ("н", "Н"); ("о", "О"); ("п", "П"); ("р", "Р"); ("с", "С");
    ("т", "Т"); ("у", "У"); ("ф", "Ф"); ("х", "Х"); ("ц", "Ц"); ("ч", "Ч");
    ("ш", "Ш"); ("щ", "Щ"); ("ъ", "Ъ"); ("ы", "Ы"); ("ь", "Ь"); ("э", "Э");
    ("ю", "Ю"); ("я", "Я"); ("ѐ", "Ѐ"); ("ё", "Ё"); ("ђ", "Ђ"); ("ѓ", "Ѓ");
    ("є", "Є"); ("ѕ", "Ѕ"); ("і", "І"); ("ї", "Ї"); ("ј", "Ј"); ("љ", "Љ");
    ("њ", "Њ"); ("ћ", "Ћ"); ("ќ", "Ќ"); ("ѝ", "Ѝ"); ("ў", "Ў"); ("џ", "Џ");
    ("ѡ", "Ѡ"); ("ѣ", "Ѣ"); ("ѥ", "Ѥ"); ("ѧ", "Ѧ"); ("ѩ", "Ѩ"); ("ѫ", "Ѫ");
    ("ѭ", "Ѭ"); ("ѯ", "Ѯ"); ("ѱ", "Ѱ"); ("ѳ", "Ѳ"); ("ѵ", "Ѵ"); ("ѷ", "Ѷ");
    ("ѹ", "Ѹ"); ("ѻ", "Ѻ"); ("ѽ", "Ѽ"); ("ѿ", "Ѿ"); ("ҁ", "Ҁ"); ("ҋ", "Ҋ");
    ("ҍ", "Ҍ"); ("ҏ", "Ҏ"); ("ґ", "Ґ"); ("ғ", "Ғ"); ("ҕ", "Ҕ"); ("җ", "Җ");
    ("ҙ", "Ҙ"); ("қ", "Қ"); ("ҝ", "Ҝ"); ("ҟ", "Ҟ"); ("ҡ", "Ҡ"); ("ң", "Ң");
    ("ҥ", "Ҥ"); ("ҧ", "Ҧ"); ("ҩ", "Ҩ"); ("ҫ", "Ҫ"); ("ҭ", "Ҭ"); ("ү", "Ү");
    ("ұ", "Ұ"); ("ҳ", "Ҳ"); ("ҵ", "Ҵ"); ("ҷ", "Ҷ"); ("ҹ", "Ҹ"); ("һ", "Һ");
    ("ҽ", "Ҽ"); ("ҿ", "Ҿ"); ("ӂ", "Ӂ"); ("ӄ", "Ӄ"); ("ӆ", "Ӆ"); ("ӈ", "Ӈ");
    ("ӊ", "Ӊ"); ("ӌ", "Ӌ"); ("ӎ", "Ӎ"); ("ӏ", "Ӏ"); ("ӑ", "Ӑ"); ("ӓ", "Ӓ");
    ("ӕ", "Ӕ"); ("ӗ", "Ӗ"); ("ә", "Ә"); ("ӛ", "Ӛ"); ("ӝ", "Ӝ"); ("ӟ", "Ӟ");
    ("ӡ", "Ӡ"); ("ӣ", "Ӣ"); ("ӥ", "Ӥ"); ("ӧ", "Ӧ"); ("ө", "Ө"); ("ӫ", "Ӫ");
    ("ӭ", "Ӭ"); ("ӯ", "Ӯ"); ("ӱ", "Ӱ"); ("ӳ", "Ӳ"); ("ӵ", "Ӵ"); ("ӷ", "Ӷ");
    ("ӹ", "Ӹ"); ("ӻ", "Ӻ"); ("ӽ", "Ӽ"); ("ӿ", "Ӿ"); ("ԁ", "Ԁ"); ("ԃ", "Ԃ");
    ("ԅ", "Ԅ"); ("ԇ", "Ԇ"); ("ԉ", "Ԉ"); ("ԋ", "Ԋ"); ("ԍ", "Ԍ"); ("ԏ", "Ԏ");
    ("ԑ", "Ԑ"); ("ԓ", "Ԓ"); ("ԕ", "Ԕ"); ("ԗ", "Ԗ"); ("ԙ", "Ԙ"); ("ԛ", "Ԛ");
    ("ԝ", "Ԝ"); ("ԟ", "Ԟ"); ("ԡ", "Ԡ"); ("ԣ", "Ԣ"); ("ԥ", "Ԥ"); ("ԧ", "Ԧ");
    ("ԩ", "Ԩ"); ("ԫ", "Ԫ"); ("ԭ", "Ԭ"); ("ԯ", "Ԯ"); ("ա", "Ա"); ("բ", "Բ");
    ("գ", "Գ"); ("դ", "Դ"); ("ե", "Ե"); ("զ", "Զ"); ("է", "Է"); ("ը", "Ը");
    ("թ", "Թ"); ("ժ", "Ժ"); ("ի", "Ի"); ("լ", "Լ"); ("խ", "Խ"); ("ծ", "Ծ");
    ("կ", "Կ"); ("հ", "Հ"); ("ձ", "Ձ"); ("ղ", "Ղ"); ("ճ", "Ճ"); ("մ", "Մ");
    ("յ", "Յ"); ("ն", "Ն"); ("շ", "Շ"); ("ո", "Ո"); ("չ", "Չ"); ("պ", "Պ");
    ("ջ", "Ջ"); ("ռ", "Ռ"); ("ս", "Ս"); ("վ", "Վ"); ("տ", "Տ"); ("ր", "Ր");
    ("ց", "Ց"); ("ւ", "Ւ"); ("փ", "Փ"); ("ք", "Ք"); ("օ", "Օ"); ("ֆ", "Ֆ");
    ("և", "ԵՒ"); ("ა", "Ა"); ("ბ", "Ბ"); ("გ", "Გ"); ("დ", "Დ"); ("ე", "Ე");
    ("ვ", "Ვ"); ("ზ", "Ზ"); ("თ", "Თ"); ("ი", "Ი"); ("კ", "Კ"); ("ლ", "Ლ");
    ("მ", "Მ"); ("ნ", "Ნ"); ("ო", "Ო"); ("პ", "Პ"); ("ჟ", "Ჟ"); ("რ", "Რ");
    ("ს", "Ს"); ("ტ", "Ტ"); ("უ", "Უ"); ("ფ", "Ფ"); ("ქ", "Ქ"); ("ღ", "Ღ");
    ("ყ", "Ყ"); ("შ", "Შ"); ("ჩ", "Ჩ"); ("ც", "Ც"); ("ძ", "Ძ"); ("წ", "Წ");
    ("ჭ", "Ჭ"); ("ხ", "Ხ"); ("ჯ", "Ჯ"); ("ჰ", "Ჰ"); ("ჱ", "Ჱ"); ("ჲ", "Ჲ");
    ("ჳ", "Ჳ"); ("ჴ", "Ჴ"); ("ჵ", "Ჵ"); ("ჶ", "Ჶ"); ("ჷ", "Ჷ"); ("ჸ", "Ჸ");
    ("ჹ", "Ჹ"); ("ჺ", "Ჺ"); ("ჽ", "Ჽ"); ("ჾ", "Ჾ"); ("ჿ", "Ჿ"); ("ᏸ", "Ᏸ");
    ("ᏹ", "Ᏹ"); ("ᏺ", "Ᏺ"); ("ᏻ", "Ᏻ"); ("ᏼ", "Ᏼ"); ("ᏽ", "Ᏽ"); ("ᲀ", "В");
    ("ᲁ", "Д"); ("ᲂ", "О"); ("ᲃ", "С"); ("ᲄ", "Т"); ("ᲅ", "Т"); ("ᲆ", "Ъ");
    ("ᲇ", "Ѣ"); ("ᲈ", "Ꙋ"); ("ᵹ", "Ᵹ"); ("ᵽ", "Ᵽ"); ("ᶎ", "Ᶎ"); ("ḁ", "Ḁ");
    ("ḃ", "Ḃ"); ("ḅ", "Ḅ"); ("ḇ", "Ḇ"); ("ḉ", "Ḉ"); ("ḋ", "Ḋ"); ("ḍ", "Ḍ");
    ("ḏ", "Ḏ"); ("ḑ", "Ḑ"); ("ḓ", "Ḓ"); ("ḕ", "Ḕ"); ("ḗ", "Ḗ"); ("ḙ", "Ḙ");
    ("ḛ", "Ḛ"); ("ḝ", "Ḝ"); ("ḟ", "Ḟ"); ("ḡ", "Ḡ"); ("ḣ", "Ḣ"); ("ḥ", "Ḥ");
    ("ḧ", "Ḧ"); ("ḩ", "Ḩ"); ("ḫ", "Ḫ"); ("ḭ", "Ḭ"); ("ḯ", "Ḯ"); ("ḱ", "Ḱ");
    ("ḳ", "Ḳ"); ("ḵ", "Ḵ"); ("ḷ", "Ḷ"); ("ḹ", "Ḹ"); ("ḻ", "Ḻ"); ("ḽ", "Ḽ");
    ("ḿ", "Ḿ"); ("ṁ", "Ṁ"); ("ṃ", "Ṃ"); ("ṅ", "Ṅ"); ("ṇ", "Ṇ"); ("ṉ", "Ṉ");
    ("ṋ", "Ṋ"); ("ṍ", "Ṍ"); ("ṏ", "Ṏ"); ("ṑ", "Ṑ"); ("ṓ", "Ṓ"); ("ṕ", "Ṕ");
    ("ṗ", "Ṗ"); ("ṙ", "Ṙ"); ("ṛ", "Ṛ"); ("ṝ", "Ṝ"); ("ṟ", "Ṟ"); ("ṡ", "Ṡ");
    ("ṣ", "Ṣ"); ("ṥ", "Ṥ"); ("ṧ", "Ṧ"); ("ṩ", "Ṩ"); ("ṫ", "Ṫ"); ("ṭ", "Ṭ");
    ("ṯ", "Ṯ"); ("ṱ", "Ṱ"); ("ṳ", "Ṳ"); ("ṵ", "Ṵ"); ("ṷ", "Ṷ"); ("ṹ", "Ṹ");
    ("ṻ", "Ṻ"); ("ṽ", "Ṽ"); ("ṿ", "Ṿ"); ("ẁ", "Ẁ"); ("ẃ", "Ẃ"); ("ẅ", "Ẅ");
    ("ẇ", "Ẇ"); ("ẉ", "Ẉ"); ("ẋ", "Ẋ"); ("ẍ", "Ẍ"); ("ẏ", "Ẏ"); ("ẑ", "Ẑ");
    ("ẓ", "Ẓ"); ("ẕ", "Ẕ"); ("ẖ", "H̱"); ("ẗ", "T̈"); ("ẘ", "W̊"); ("ẙ", "Y̊");
    ("ẚ", "Aʾ"); ("ẛ", "Ṡ"); ("ạ", "Ạ"); ("ả", "Ả"); ("ấ", "Ấ"); ("ầ", "Ầ");
    ("ẩ", "Ẩ"); ("ẫ", "Ẫ"); ("ậ", "Ậ"); ("ắ", "Ắ"); ("ằ", "Ằ"); ("ẳ", "Ẳ");
    ("ẵ", "Ẵ"); ("ặ", "Ặ"); ("ẹ", "Ẹ"); ("ẻ", "Ẻ"); ("ẽ", "Ẽ"); ("ế", "Ế");
    ("ề", "Ề"); ("ể", "Ể"); ("ễ", "Ễ"); ("ệ", "Ệ"); ("ỉ", "Ỉ"); ("ị", "Ị");
    ("ọ", "Ọ"); ("ỏ", "Ỏ"); ("ố", "Ố"); ("ồ", "Ồ"); ("ổ", "Ổ"); ("ỗ", "Ỗ");
    ("ộ", "Ộ"); ("ớ", "Ớ"); ("ờ", "Ờ"); ("ở", "Ở"); ("ỡ", "Ỡ"); ("ợ", "Ợ");
    ("ụ", "Ụ"); ("ủ", "Ủ"); ("ứ", "Ứ"); ("ừ", "Ừ"); ("ử", "Ử"); ("ữ", "Ữ");
    ("ự", "Ự"); ("ỳ", "Ỳ"); ("ỵ", "Ỵ"); ("ỷ", "Ỷ"); ("ỹ", "Ỹ"); ("ỻ", "Ỻ");
    ("ỽ", "Ỽ"); ("ỿ", "Ỿ"); ("ἀ", "Ἀ"); ("ἁ", "Ἁ"); ("ἂ", "Ἂ"); ("ἃ", "Ἃ");
    ("ἄ", "Ἄ"); ("ἅ", "Ἅ"); ("ἆ", "Ἆ"); ("ἇ", "Ἇ"); ("ἐ", "Ἐ"); ("ἑ", "Ἑ");
    ("ἒ", "Ἒ"); ("ἓ", "Ἓ"); ("ἔ", "Ἔ"); ("ἕ", "Ἕ"); ("ἠ", "Ἠ"); ("ἡ", "Ἡ");
    ("ἢ", "Ἢ"); ("ἣ", "Ἣ"); ("ἤ", "Ἤ"); ("ἥ", "Ἥ"); ("ἦ", "Ἦ"); ("ἧ", "Ἧ");
    ("ἰ", "Ἰ"); ("ἱ", "Ἱ"); ("ἲ", "Ἲ"); ("ἳ", "Ἳ"); ("ἴ", "Ἴ"); ("ἵ", "Ἵ");
    ("ἶ", "Ἶ"); ("ἷ", "Ἷ"); ("ὀ", "Ὀ"); ("ὁ", "Ὁ"); ("ὂ", "Ὂ"); ("ὃ", "Ὃ");
    ("ὄ", "Ὄ"); ("ὅ", "Ὅ"); ("ὐ", "Υ̓"); ("ὑ", "Ὑ"); ("ὒ", "Υ̓̀");
    ("ὓ", "Ὓ"); ("ὔ", "Υ̓́"); ("ὕ", "Ὕ"); ("ὖ", "Υ̓͂"); ("ὗ", "Ὗ");
    ("ὠ", "Ὠ"); ("ὡ", "Ὡ"); ("ὢ", "Ὢ"); ("ὣ", "Ὣ"); ("ὤ", "Ὤ"); ("ὥ", "Ὥ");
    ("ὦ", "Ὦ"); ("ὧ", "Ὧ"); ("ὰ", "Ὰ"); ("ά", "Ά"); ("ὲ", "Ὲ"); ("έ", "Έ");
    ("ὴ", "Ὴ"); ("ή", "Ή"); ("ὶ", "Ὶ"); ("ί", "Ί"); ("ὸ", "Ὸ"); ("ό", "Ό");
    ("ὺ", "Ὺ"); ("ύ", "Ύ"); ("ὼ", "Ὼ"); ("ώ", "Ώ"); ("ᾀ", "ἈΙ");
    ("ᾁ", "ἉΙ"); ("ᾂ", "ἊΙ"); ("ᾃ", "ἋΙ"); ("ᾄ", "ἌΙ"); ("ᾅ", "ἍΙ");
    ("ᾆ", "ἎΙ"); ("ᾇ", "ἏΙ"); ("ᾈ", "ἈΙ"); ("ᾉ", "ἉΙ"); ("ᾊ", "ἊΙ");
    ("ᾋ", "ἋΙ"); ("ᾌ", "ἌΙ"); ("ᾍ", "ἍΙ"); ("ᾎ", "ἎΙ"); ("ᾏ", "ἏΙ");
    ("ᾐ", "ἨΙ"); ("ᾑ", "ἩΙ"); ("ᾒ", "ἪΙ"); ("ᾓ", "ἫΙ"); ("ᾔ", "ἬΙ");
    ("ᾕ", "ἭΙ"); ("ᾖ", "ἮΙ"); ("ᾗ", "ἯΙ"); ("ᾘ", "ἨΙ"); ("ᾙ", "ἩΙ");
    ("ᾚ", "ἪΙ"); ("ᾛ", "ἫΙ"); ("ᾜ", "ἬΙ"); ("ᾝ", "ἭΙ"); ("ᾞ", "ἮΙ");
    ("ᾟ", "ἯΙ"); ("ᾠ", "ὨΙ"); ("ᾡ", "ὩΙ"); ("ᾢ", "ὪΙ"); ("ᾣ", "ὫΙ");
    ("ᾤ", "ὬΙ"); ("ᾥ", "ὭΙ"); ("ᾦ", "ὮΙ"); ("ᾧ", "ὯΙ"); ("ᾨ", "ὨΙ");
    ("ᾩ", "ὩΙ"); ("ᾪ", "ὪΙ"); ("ᾫ", "ὫΙ"); ("ᾬ", "ὬΙ"); ("ᾭ", "ὭΙ");
    ("ᾮ", "ὮΙ"); ("ᾯ", "ὯΙ"); ("ᾰ", "Ᾰ"); ("ᾱ", "Ᾱ"); ("ᾲ", "ᾺΙ");
    ("ᾳ", "ΑΙ"); ("ᾴ", "ΆΙ"); ("ᾶ", "Α͂"); ("ᾷ", "Α͂Ι"); ("ᾼ", "ΑΙ");
    ("ι", "Ι"); ("ῂ", "ῊΙ"); ("ῃ", "ΗΙ"); ("ῄ", "ΉΙ"); ("ῆ", "Η͂");
    ("ῇ", "Η͂Ι"); ("ῌ", "ΗΙ"); ("ῐ", "Ῐ"); ("ῑ", "Ῑ"); ("ῒ", "Ϊ̀");
    ("ΐ", "Ϊ́"); ("ῖ", "Ι͂"); ("ῗ", "Ϊ͂"); ("ῠ", "Ῠ"); ("ῡ", "Ῡ");
    ("ῢ", "Ϋ̀"); ("ΰ", "Ϋ́"); ("ῤ", "Ρ̓"); ("ῥ", "Ῥ"); ("ῦ", "Υ͂");
    ("ῧ", "Ϋ͂"); ("ῲ", "ῺΙ"); ("ῳ", "ΩΙ"); ("ῴ", "ΏΙ"); ("ῶ", "Ω͂");
    ("ῷ", "Ω͂Ι"); ("ῼ", "ΩΙ"); ("ⅎ", "Ⅎ"); ("ⅰ", "Ⅰ"); ("ⅱ", "Ⅱ");
    ("ⅲ", "Ⅲ"); ("ⅳ", "Ⅳ"); ("ⅴ", "Ⅴ"); ("ⅵ", "Ⅵ"); ("ⅶ", "Ⅶ"); ("ⅷ", "Ⅷ");
    ("ⅸ", "Ⅸ"); ("ⅹ", "Ⅹ"); ("ⅺ", "Ⅺ"); ("ⅻ", "Ⅻ"); ("ⅼ", "Ⅼ"); ("ⅽ", "Ⅽ");
    ("ⅾ", "Ⅾ"); ("ⅿ", "Ⅿ"); ("ↄ", "Ↄ"); ("ⓐ", "Ⓐ"); ("ⓑ", "Ⓑ"); ("ⓒ", "Ⓒ");
    ("ⓓ", "Ⓓ"); ("ⓔ", "Ⓔ"); ("ⓕ", "Ⓕ"); ("ⓖ", "Ⓖ"); ("ⓗ", "Ⓗ"); ("ⓘ", "Ⓘ");
    ("ⓙ", "Ⓙ"); ("ⓚ", "Ⓚ"); ("ⓛ", "Ⓛ"); ("ⓜ", "Ⓜ"); ("ⓝ", "Ⓝ"); ("ⓞ", "Ⓞ");
    ("ⓟ", "Ⓟ"); ("ⓠ", "Ⓠ"); ("ⓡ", "Ⓡ"); ("ⓢ", "Ⓢ"); ("ⓣ", "Ⓣ"); ("ⓤ", "Ⓤ");
    ("ⓥ", "Ⓥ"); ("ⓦ", "Ⓦ"); ("ⓧ", "Ⓧ"); ("ⓨ", "Ⓨ"); ("ⓩ", "Ⓩ"); ("ⰰ", "Ⰰ");
    ("ⰱ", "Ⰱ"); ("ⰲ", "Ⰲ"); ("ⰳ", "Ⰳ"); ("ⰴ", "Ⰴ"); ("ⰵ", "Ⰵ"); ("ⰶ", "Ⰶ");
    ("ⰷ", "Ⰷ"); ("ⰸ", "Ⰸ"); ("ⰹ", "Ⰹ"); ("ⰺ", "Ⰺ"); ("ⰻ", "Ⰻ"); ("ⰼ", "Ⰼ");
    ("ⰽ", "Ⰽ"); ("ⰾ", "Ⰾ"); ("ⰿ", "Ⰿ"); ("ⱀ", "Ⱀ"); ("ⱁ", "Ⱁ"); ("ⱂ", "Ⱂ");
    ("ⱃ", "Ⱃ"); ("ⱄ", "Ⱄ"); ("ⱅ", "Ⱅ"); ("ⱆ", "Ⱆ"); ("ⱇ", "Ⱇ"); ("ⱈ", "Ⱈ");
    ("ⱉ", "Ⱉ"); ("ⱊ", "Ⱊ"); ("ⱋ", "Ⱋ"); ("ⱌ", "Ⱌ"); ("ⱍ", "Ⱍ"); ("ⱎ", "Ⱎ");
    ("ⱏ", "Ⱏ"); ("ⱐ", "Ⱐ"); ("ⱑ", "Ⱑ"); ("ⱒ", "Ⱒ"); ("ⱓ", "Ⱓ"); ("ⱔ", "Ⱔ");
    ("ⱕ", "Ⱕ"); ("ⱖ", "Ⱖ"); ("ⱗ", "Ⱗ"); ("ⱘ", "Ⱘ"); ("ⱙ", "Ⱙ"); ("ⱚ", "Ⱚ");
    ("ⱛ", "Ⱛ"); ("ⱜ", "Ⱜ"); ("ⱝ", "Ⱝ"); ("ⱞ", "Ⱞ"); ("ⱟ", "Ⱟ"); ("ⱡ", "Ⱡ");
    ("ⱥ", "Ⱥ"); ("ⱦ", "Ⱦ"); ("ⱨ", "Ⱨ"); ("ⱪ", "Ⱪ"); ("ⱬ", "Ⱬ"); ("ⱳ", "Ⱳ");
    ("ⱶ", "Ⱶ"); ("ⲁ", "Ⲁ"); ("ⲃ", "Ⲃ"); ("ⲅ", "Ⲅ"); ("ⲇ", "Ⲇ"); ("ⲉ", "Ⲉ");
    ("ⲋ", "Ⲋ"); ("ⲍ", "Ⲍ"); ("ⲏ", "Ⲏ"); ("ⲑ", "Ⲑ"); ("ⲓ", "Ⲓ"); ("ⲕ", "Ⲕ");
    ("ⲗ", "Ⲗ"); ("ⲙ", "Ⲙ"); ("ⲛ", "Ⲛ"); ("ⲝ", "Ⲝ"); ("ⲟ", "Ⲟ"); ("ⲡ", "Ⲡ");
    ("ⲣ", "Ⲣ"); ("ⲥ", "Ⲥ"); ("ⲧ", "Ⲧ"); ("ⲩ", "Ⲩ"); ("ⲫ", "Ⲫ"); ("ⲭ", "Ⲭ");
    ("ⲯ", "Ⲯ"); ("ⲱ", "Ⲱ"); ("ⲳ", "Ⲳ"); ("ⲵ", "Ⲵ"); ("ⲷ", "Ⲷ"); ("ⲹ", "Ⲹ");
    ("ⲻ", "Ⲻ"); ("ⲽ", "Ⲽ"); ("ⲿ", "Ⲿ"); ("ⳁ", "Ⳁ"); ("ⳃ", "Ⳃ"); ("ⳅ", "Ⳅ");
    ("ⳇ", "Ⳇ"); ("ⳉ", "Ⳉ"); ("ⳋ", "Ⳋ"); ("ⳍ", "Ⳍ"); ("ⳏ", "Ⳏ"); ("ⳑ", "Ⳑ");
    ("ⳓ", "Ⳓ"); ("ⳕ", "Ⳕ"); ("ⳗ", "Ⳗ"); ("ⳙ", "Ⳙ"); ("ⳛ", "Ⳛ"); ("ⳝ", "Ⳝ");
    ("ⳟ", "Ⳟ"); ("ⳡ", "Ⳡ"); ("ⳣ", "Ⳣ"); ("ⳬ", "Ⳬ"); ("ⳮ", "Ⳮ"); ("ⳳ", "Ⳳ");
    ("ⴀ", "Ⴀ"); ("ⴁ", "Ⴁ"); ("ⴂ", "Ⴂ"); ("ⴃ", "Ⴃ"); ("ⴄ", "Ⴄ"); ("ⴅ", "Ⴅ");
    ("ⴆ", "Ⴆ"); ("ⴇ", "Ⴇ"); ("ⴈ", "Ⴈ"); ("ⴉ", "Ⴉ"); ("ⴊ", "Ⴊ"); ("ⴋ", "Ⴋ");
    ("ⴌ", "Ⴌ"); ("ⴍ", "Ⴍ"); ("ⴎ", "Ⴎ"); ("ⴏ", "Ⴏ"); ("ⴐ", "Ⴐ"); ("ⴑ", "Ⴑ");
    ("ⴒ", "Ⴒ"); ("ⴓ", "Ⴓ"); ("ⴔ", "Ⴔ"); ("ⴕ", "Ⴕ"); ("ⴖ", "Ⴖ"); ("ⴗ", "Ⴗ");
    ("ⴘ", "Ⴘ"); ("ⴙ", "Ⴙ"); ("ⴚ", "Ⴚ"); ("ⴛ", "Ⴛ"); ("ⴜ", "Ⴜ"); ("ⴝ", "Ⴝ");
    ("ⴞ", "Ⴞ"); ("ⴟ", "Ⴟ"); ("ⴠ", "Ⴠ"); ("ⴡ", "Ⴡ"); ("ⴢ", "Ⴢ"); ("ⴣ", "Ⴣ");
    ("ⴤ", "Ⴤ"); ("ⴥ", "Ⴥ"); ("ⴧ", "Ⴧ"); ("ⴭ", "Ⴭ"); ("ꙁ", "Ꙁ"); ("ꙃ", "Ꙃ");
    ("ꙅ", "Ꙅ"); ("ꙇ", "Ꙇ"); ("ꙉ", "Ꙉ"); ("ꙋ", "Ꙋ"); ("ꙍ", "Ꙍ"); ("ꙏ", "Ꙏ");
    ("ꙑ", "Ꙑ"); ("ꙓ", "Ꙓ"); ("ꙕ", "Ꙕ"); ("ꙗ", "Ꙗ"); ("ꙙ", "Ꙙ"); ("ꙛ", "Ꙛ");
    ("ꙝ", "Ꙝ"); ("ꙟ", "Ꙟ"); ("ꙡ", "Ꙡ"); ("ꙣ", "Ꙣ"); ("ꙥ", "Ꙥ"); ("ꙧ", "Ꙧ");
    ("ꙩ", "Ꙩ"); ("ꙫ", "Ꙫ"); ("ꙭ", "Ꙭ"); ("ꚁ", "Ꚁ"); ("ꚃ", "Ꚃ"); ("ꚅ", "Ꚅ");
    ("ꚇ", "Ꚇ"); ("ꚉ", "Ꚉ"); ("ꚋ", "Ꚋ"); ("ꚍ", "Ꚍ"); ("ꚏ", "Ꚏ"); ("ꚑ", "Ꚑ");
    ("ꚓ", "Ꚓ"); ("ꚕ", "Ꚕ"); ("ꚗ", "Ꚗ"); ("ꚙ", "Ꚙ"); ("ꚛ", "Ꚛ"); ("ꜣ", "Ꜣ");
    ("ꜥ", "Ꜥ"); ("ꜧ", "Ꜧ"); ("ꜩ", "Ꜩ"); ("ꜫ", "Ꜫ"); ("ꜭ", "Ꜭ"); ("ꜯ", "Ꜯ");
    ("ꜳ", "Ꜳ"); ("ꜵ", "Ꜵ"); ("ꜷ", "Ꜷ"); ("ꜹ", "Ꜹ"); ("ꜻ", "Ꜻ"); ("ꜽ", "Ꜽ");
    ("ꜿ", "Ꜿ"); ("ꝁ", "Ꝁ"); ("ꝃ", "Ꝃ"); ("ꝅ", "Ꝅ"); ("ꝇ", "Ꝇ"); ("ꝉ", "Ꝉ");
    ("ꝋ", "Ꝋ"); ("ꝍ", "Ꝍ"); ("ꝏ", "Ꝏ"); ("ꝑ", "Ꝑ"); ("ꝓ", "Ꝓ"); ("ꝕ", "Ꝕ");
    ("ꝗ", "Ꝗ"); ("ꝙ", "Ꝙ"); ("ꝛ", "Ꝛ"); ("ꝝ", "Ꝝ"); ("ꝟ", "Ꝟ"); ("ꝡ", "Ꝡ");
    ("ꝣ", "Ꝣ"); ("ꝥ", "Ꝥ"); ("ꝧ", "Ꝧ"); ("ꝩ", "Ꝩ"); ("ꝫ", "Ꝫ"); ("ꝭ", "Ꝭ");
    ("ꝯ", "Ꝯ"); ("ꝺ", "Ꝺ"); ("ꝼ", "Ꝼ"); ("ꝿ", "Ꝿ"); ("ꞁ", "Ꞁ"); ("ꞃ", "Ꞃ");
    ("ꞅ", "Ꞅ"); ("ꞇ", "Ꞇ"); ("ꞌ", "Ꞌ"); ("ꞑ", "Ꞑ"); ("ꞓ", "Ꞓ"); ("ꞔ", "Ꞔ");
    ("ꞗ", "Ꞗ"); ("ꞙ", "Ꞙ"); ("ꞛ", "Ꞛ"); ("ꞝ", "Ꞝ"); ("ꞟ", "Ꞟ"); ("ꞡ", "Ꞡ");
    ("ꞣ", "Ꞣ"); ("ꞥ", "Ꞥ"); ("ꞧ", "Ꞧ"); ("ꞩ", "Ꞩ"); ("ꞵ", "Ꞵ"); ("ꞷ", "Ꞷ");
    ("ꞹ", "Ꞹ"); ("ꞻ", "Ꞻ"); ("ꞽ", "Ꞽ"); ("ꞿ", "Ꞿ"); ("ꟁ", "Ꟁ"); ("ꟃ", "Ꟃ");
    ("ꟈ", "Ꟈ"); ("ꟊ", "Ꟊ"); ("ꟑ", "Ꟑ"); ("ꟗ", "Ꟗ"); ("ꟙ", "Ꟙ"); ("ꟶ", "Ꟶ");
    ("ꭓ", "Ꭓ"); ("ꭰ", "Ꭰ"); ("ꭱ", "Ꭱ"); ("ꭲ", "Ꭲ"); ("ꭳ", "Ꭳ"); ("ꭴ", "Ꭴ");
    ("ꭵ", "Ꭵ"); ("ꭶ", "Ꭶ"); ("ꭷ", "Ꭷ"); ("ꭸ", "Ꭸ"); ("ꭹ", "Ꭹ"); ("ꭺ", "Ꭺ");
    ("ꭻ", "Ꭻ"); ("ꭼ", "Ꭼ"); ("ꭽ", "Ꭽ"); ("ꭾ", "Ꭾ"); ("ꭿ", "Ꭿ"); ("ꮀ", "Ꮀ");
    ("ꮁ", "Ꮁ"); ("ꮂ", "Ꮂ"); ("ꮃ", "Ꮃ"); ("ꮄ", "Ꮄ"); ("ꮅ", "Ꮅ"); ("ꮆ", "Ꮆ");
    ("ꮇ", "Ꮇ"); ("ꮈ", "Ꮈ"); ("ꮉ", "Ꮉ"); ("ꮊ", "Ꮊ"); ("ꮋ", "Ꮋ"); ("ꮌ", "Ꮌ");
    ("ꮍ", "Ꮍ"); ("ꮎ", "Ꮎ"); ("ꮏ", "Ꮏ"); ("ꮐ", "Ꮐ"); ("ꮑ", "Ꮑ"); ("ꮒ", "Ꮒ");
    ("ꮓ", "Ꮓ"); ("ꮔ", "Ꮔ"); ("ꮕ", "Ꮕ"); ("ꮖ", "Ꮖ"); ("ꮗ", "Ꮗ"); ("ꮘ", "Ꮘ");
    ("ꮙ", "Ꮙ"); ("ꮚ", "Ꮚ"); ("ꮛ", "Ꮛ"); ("ꮜ", "Ꮜ"); ("ꮝ", "Ꮝ"); ("ꮞ", "Ꮞ");
    ("ꮟ", "Ꮟ"); ("ꮠ", "Ꮠ"); ("ꮡ", "Ꮡ"); ("ꮢ", "Ꮢ"); ("ꮣ", "Ꮣ"); ("ꮤ", "Ꮤ");
    ("ꮥ", "Ꮥ"); ("ꮦ", "Ꮦ"); ("ꮧ", "Ꮧ"); ("ꮨ", "Ꮨ"); ("ꮩ", "Ꮩ"); ("ꮪ", "Ꮪ");
    ("ꮫ", "Ꮫ"); ("ꮬ", "Ꮬ"); ("ꮭ", "Ꮭ"); ("ꮮ", "Ꮮ"); ("ꮯ", "Ꮯ"); ("ꮰ", "Ꮰ");
    ("ꮱ", "Ꮱ"); ("ꮲ", "Ꮲ"); ("ꮳ", "Ꮳ"); ("ꮴ", "Ꮴ"); ("ꮵ", "Ꮵ"); ("ꮶ", "Ꮶ");
    ("ꮷ", "Ꮷ"); ("ꮸ", "Ꮸ"); ("ꮹ", "Ꮹ"); ("ꮺ", "Ꮺ"); ("ꮻ", "Ꮻ"); ("ꮼ", "Ꮼ");
    ("ꮽ", "Ꮽ"); ("ꮾ", "Ꮾ"); ("ꮿ", "Ꮿ"); ("ﬀ", "FF"); ("ﬁ", "FI"); ("ﬂ", "FL");
    ("ﬃ", "FFI"); ("ﬄ", "FFL"); ("ﬅ", "ST"); ("ﬆ", "ST"); ("ﬓ", "ՄՆ"); ("ﬔ", "ՄԵ");
    ("ﬕ", "ՄԻ"); ("ﬖ", "ՎՆ"); ("ﬗ", "ՄԽ"); ("ａ", "Ａ"); ("ｂ", "Ｂ");
    ("ｃ", "Ｃ"); ("ｄ", "Ｄ"); ("ｅ", "Ｅ"); ("ｆ", "Ｆ"); ("ｇ", "Ｇ"); ("ｈ", "Ｈ");
    ("ｉ", "Ｉ"); ("ｊ", "Ｊ"); ("ｋ", "Ｋ"); ("ｌ", "Ｌ"); ("ｍ", "Ｍ"); ("ｎ", "Ｎ");
    ("ｏ", "Ｏ"); ("ｐ", "Ｐ"); ("ｑ", "Ｑ"); ("ｒ", "Ｒ"); ("ｓ", "Ｓ"); ("ｔ", "Ｔ");
    ("ｕ", "Ｕ"); ("ｖ", "Ｖ"); ("ｗ", "Ｗ"); ("ｘ", "Ｘ"); ("ｙ", "Ｙ"); ("ｚ", "Ｚ");
    ("𐐨", "𐐀"); ("𐐩", "𐐁"); ("𐐪", "𐐂"); ("𐐫", "𐐃"); ("𐐬", "𐐄");
    ("𐐭", "𐐅"); ("𐐮", "𐐆"); ("𐐯", "𐐇"); ("𐐰", "𐐈"); ("𐐱", "𐐉");
    ("𐐲", "𐐊"); ("𐐳", "𐐋"); ("𐐴", "𐐌"); ("𐐵", "𐐍"); ("𐐶", "𐐎");
    ("𐐷", "𐐏"); ("𐐸", "𐐐"); ("𐐹", "𐐑"); ("𐐺", "𐐒"); ("𐐻", "𐐓");
    ("𐐼", "𐐔"); ("𐐽", "𐐕"); ("𐐾", "𐐖"); ("𐐿", "𐐗"); ("𐑀", "𐐘");
    ("𐑁", "𐐙"); ("𐑂", "𐐚"); ("𐑃", "𐐛"); ("𐑄", "𐐜"); ("𐑅", "𐐝");
    ("𐑆", "𐐞"); ("𐑇", "𐐟"); ("𐑈", "𐐠"); ("𐑉", "𐐡"); ("𐑊", "𐐢");
    ("𐑋", "𐐣"); ("𐑌", "𐐤"); ("𐑍", "𐐥"); ("𐑎", "𐐦"); ("𐑏", "𐐧");
    ("𐓘", "𐒰"); ("𐓙", "𐒱"); ("𐓚", "𐒲"); ("𐓛", "𐒳"); ("𐓜", "𐒴");
    ("𐓝", "𐒵"); ("𐓞", "𐒶"); ("𐓟", "𐒷"); ("𐓠", "𐒸"); ("𐓡", "𐒹");
    ("𐓢", "𐒺"); ("𐓣", "𐒻"); ("𐓤", "𐒼"); ("𐓥", "𐒽"); ("𐓦", "𐒾");
    ("𐓧", "𐒿"); ("𐓨", "𐓀"); ("𐓩", "𐓁"); ("𐓪", "𐓂"); ("𐓫", "𐓃");
    ("𐓬", "𐓄"); ("𐓭", "𐓅"); ("𐓮", "𐓆"); ("𐓯", "𐓇"); ("𐓰", "𐓈");
    ("𐓱", "𐓉"); ("𐓲", "𐓊"); ("𐓳", "𐓋"); ("𐓴", "𐓌"); ("𐓵", "𐓍");
    ("𐓶", "𐓎"); ("𐓷", "𐓏"); ("𐓸", "𐓐"); ("𐓹", "𐓑"); ("𐓺", "𐓒");
    ("𐓻", "𐓓"); ("𐖗", "𐕰"); ("𐖘", "𐕱"); ("𐖙", "𐕲"); ("𐖚", "𐕳");
    ("𐖛", "𐕴"); ("𐖜", "𐕵"); ("𐖝", "𐕶"); ("𐖞", "𐕷"); ("𐖟", "𐕸");
    ("𐖠", "𐕹"); ("𐖡", "𐕺"); ("𐖣", "𐕼"); ("𐖤", "𐕽"); ("𐖥", "𐕾");
    ("𐖦", "𐕿"); ("𐖧", "𐖀"); ("𐖨", "𐖁"); ("𐖩", "𐖂"); ("𐖪", "𐖃");
    ("𐖫", "𐖄"); ("𐖬", "𐖅"); ("𐖭", "𐖆"); ("𐖮", "𐖇"); ("𐖯", "𐖈");
    ("𐖰", "𐖉"); ("𐖱", "𐖊"); ("𐖳", "𐖌"); ("𐖴", "𐖍"); ("𐖵", "𐖎");
    ("𐖶", "𐖏"); ("𐖷", "𐖐"); ("𐖸", "𐖑"); ("𐖹", "𐖒"); ("𐖻", "𐖔");
    ("𐖼", "𐖕"); ("𐳀", "𐲀"); ("𐳁", "𐲁"); ("𐳂", "𐲂"); ("𐳃", "𐲃");
    ("𐳄", "𐲄"); ("𐳅", "𐲅"); ("𐳆", "𐲆"); ("𐳇", "𐲇"); ("𐳈", "𐲈");
    ("𐳉", "𐲉"); ("𐳊", "𐲊"); ("𐳋", "𐲋"); ("𐳌", "𐲌"); ("𐳍", "𐲍");
    ("𐳎", "𐲎"); ("𐳏", "𐲏"); ("𐳐", "𐲐"); ("𐳑", "𐲑"); ("𐳒", "𐲒");
    ("𐳓", "𐲓"); ("𐳔", "𐲔"); ("𐳕", "𐲕"); ("𐳖", "𐲖"); ("𐳗", "𐲗");
    ("𐳘", "𐲘"); ("𐳙", "𐲙"); ("𐳚", "𐲚"); ("𐳛", "𐲛"); ("𐳜", "𐲜");
    ("𐳝", "𐲝"); ("𐳞", "𐲞"); ("𐳟", "𐲟"); ("𐳠", "𐲠"); ("𐳡", "𐲡");
    ("𐳢", "𐲢"); ("𐳣", "𐲣"); ("𐳤", "𐲤"); ("𐳥", "𐲥"); ("𐳦", "𐲦");
    ("𐳧", "𐲧"); ("𐳨", "𐲨"); ("𐳩", "𐲩"); ("𐳪", "𐲪"); ("𐳫", "𐲫");
    ("𐳬", "𐲬"); ("𐳭", "𐲭"); ("𐳮", "𐲮"); ("𐳯", "𐲯"); ("𐳰", "𐲰");
    ("𐳱", "𐲱"); ("𐳲", "𐲲"); ("𑣀", "𑢠"); ("𑣁", "𑢡"); ("𑣂", "𑢢");
    ("𑣃", "𑢣"); ("𑣄", "𑢤"); ("𑣅", "𑢥"); ("𑣆", "𑢦"); ("𑣇", "𑢧");
    ("𑣈", "𑢨"); ("𑣉", "𑢩"); ("𑣊", "𑢪"); ("𑣋", "𑢫"); ("𑣌", "𑢬");
    ("𑣍", "𑢭"); ("𑣎", "𑢮"); ("𑣏", "𑢯"); ("𑣐", "𑢰"); ("𑣑", "𑢱");
    ("𑣒", "𑢲"); ("𑣓", "𑢳"); ("𑣔", "𑢴"); ("𑣕", "𑢵"); ("𑣖", "𑢶");
    ("𑣗", "𑢷"); ("𑣘", "𑢸"); ("𑣙", "𑢹"); ("𑣚", "𑢺"); ("𑣛", "𑢻");
    ("𑣜", "𑢼"); ("𑣝", "𑢽"); ("𑣞", "𑢾"); ("𑣟", "𑢿"); ("𖹠", "𖹀");
    ("𖹡", "𖹁"); ("𖹢", "𖹂"); ("𖹣", "𖹃"); ("𖹤", "𖹄"); ("𖹥", "𖹅");
    ("𖹦", "𖹆"); ("𖹧", "𖹇"); ("𖹨", "𖹈"); ("𖹩", "𖹉"); ("𖹪", "𖹊");
    ("𖹫", "𖹋"); ("𖹬", "𖹌"); ("𖹭", "𖹍"); ("𖹮", "𖹎"); ("𖹯", "𖹏");
    ("𖹰", "𖹐"); ("𖹱", "𖹑"); ("𖹲", "𖹒"); ("𖹳", "𖹓"); ("𖹴", "𖹔");
    ("𖹵", "𖹕"); ("𖹶", "𖹖"); ("𖹷", "𖹗"); ("𖹸", "𖹘"); ("𖹹", "𖹙");
    ("𖹺", "𖹚"); ("𖹻", "𖹛"); ("𖹼", "𖹜"); ("𖹽", "𖹝"); ("𖹾", "𖹞");
    ("𖹿", "𖹟"); ("𞤢", "𞤀"); ("𞤣", "𞤁"); ("𞤤", "𞤂"); ("𞤥", "𞤃");
    ("𞤦", "𞤄"); ("𞤧", "𞤅"); ("𞤨", "𞤆"); ("𞤩", "𞤇"); ("𞤪", "𞤈");
    ("𞤫", "𞤉"); ("𞤬", "𞤊"); ("𞤭", "𞤋"); ("𞤮", "𞤌"); ("𞤯", "𞤍");
    ("𞤰", "𞤎"); ("𞤱", "𞤏"); ("𞤲", "𞤐"); ("𞤳", "𞤑"); ("𞤴", "𞤒");
    ("𞤵", "𞤓"); ("𞤶", "𞤔"); ("𞤷", "𞤕"); ("𞤸", "𞤖"); ("𞤹", "𞤗");
    ("𞤺", "𞤘"); ("𞤻", "𞤙"); ("𞤼", "𞤚"); ("𞤽", "𞤛"); ("𞤾", "𞤜");
    ("𞤿", "𞤝"); ("𞥀", "𞤞"); ("𞥁", "𞤟"); ("𞥂", "𞤠"); ("𞥃", "𞤡") ].

(** The entry of the table for the character at the head of [s]. *)
Definition upperAt (s : string) : option (string * string) :=
  find (λ kv, String.prefix kv.1 s) upperCaseTable.

(** [skip] counts the octets still to pass over of a character already
    mapped. *)
Fixpoint upperFrom (skip : nat) (s : string) : string :=
  match s with
  | "" => ""
  | String c s' =>
      match skip with
      | S skip' => upperFrom skip' s'
      | 0 =>
          if isAsciiChar c then String (upperChar c) (upperFrom 0 s')
          else
            match upperAt s with
            | Some (k, v) => v +:+ upperFrom (String.length k - 1) s'
            | None => String c (upperFrom 0 s')
            end
      end
  end.

(** [String.prototype.toUpperCase]. *)
Definition toUpperCase (s : string) : string := upperFrom 0 s.

(** **** Trimming *)

(** White space and line terminators of one octet: U+0009 to U+000D and
    U+0020. *)
Definition isSpace (c : ascii) : bool :=
  let n := nat_of_ascii c in
  (n =? 32)%nat || ((9 <=? n)%nat && (n <=? 13)%nat).

(** Of two octets: U+00A0. *)
Definition isSpace2 (c d : ascii) : bool :=
  (nat_of_ascii c =? 194)%nat && (nat_of_ascii d =? 160)%nat.

(** Of three octets: U+1680, U+2000 to U+200A, U+2028, U+2029, U+202F,
    U+205F, U+3000 and U+FEFF. *)
Definition isSpace3 (c d e : ascii) : bool :=
  let '(c, d, e) := (nat_of_ascii c, nat_of_ascii d, nat_of_ascii e) in
  ((c =? 225) && (d =? 154) && (e =? 128)
   || (c =? 226) && (d =? 128)
      && (((128 <=? e) && (e <=? 138)) || (e =? 168) || (e =? 169)
          || (e =? 175))
   || (c =? 226) && (d =? 129) && (e =? 159)
   || (c =? 227) && (d =? 128) && (e =? 128)
   || (c =? 239) && (d =? 187) && (e =? 191))%nat.

(** Drops the white space at the head; [is2] and [is3] recognise the
    characters of two and three octets, read in the direction of the
    scan. *)
Fixpoint dropSpaces (is2 : ascii → ascii → bool)
    (is3 : ascii → ascii → ascii → bool) (s : string) : string :=
  match s with
  | "" => ""
  | String c s1 =>
      if isSpace c then dropSpaces is2 is3 s1
      else
        match s1 with
        | "" => s
        | String d s2 =>
            if is2 c d then dropSpaces is2 is3 s2
            else
              match s2 with
              | "" => s
              | String e s3 =>
                  if is3 c d e then dropSpaces is2 is3 s3 else s
              end
        end
  end.

Definition trimStart (s : string) : string := dropSpaces isSpace2 isSpace3 s.

Definition trimEnd (s : string) : string :=
  String.rev (dropSpaces (λ d c, isSpace2 c d) (λ e d c, isSpace3 c d e)
                (String.rev s)).

(** [String.prototype.trim]. *)
Definition trim (s : string) : string := trimEnd (trimStart s).

(** [s] between double quotes. *)
Definition quoted (s : string) : string :=
  String (ascii_of_nat 34) (s +:+ String (ascii_of_nat 34) "").

(** *** Numbers *)

(** A number is [NaN], an infinity, or a signed decimal
    [significand * 10 ^ exponent]: every double is one, by its shortest
    decimal form.  The two zeros are the decimals of significand 0. *)
Inductive number :=
| NaN
| Infinity (negative : bool)
| Finite (negative : bool) (significand : N) (exponent : Z).

Bind Scope Z_scope with number.

Definition Number_ofZ (z : Z) : number := Finite (z <? 0)%Z (Z.abs_N z) 0.
Coercion Number_ofZ : Z >-> number.

(** The significand without its trailing zeros. *)
Fixpoint stripZeros (fuel : nat) (m : N) (e : Z) : N * Z :=
  match fuel with
  | 0 => (m, e)
  | S fuel =>
      if (m mod 10 =? 0)%N then stripZeros fuel (m / 10)%N (e + 1)%Z
      else (m, e)
  end.

Fixpoint zeros (k : nat) : string :=
  match k with
  | 0 => ""
  | S k => String "0" (zeros k)
  end.

(** [Number::toString] in radix 10, that is [String(x)]: with [k] the
    number of digits and [n] the position of the decimal point, the plain
    numeral while [-6 < n <= 21], the exponent form beyond. *)
Definition Number_toString (x : number) : string :=
  match x with
  | NaN => "NaN"
  | Infinity negative => if negative then "-Infinity" else "Infinity"
  | Finite negative m e =>
      if (m =? 0)%N then "0"
      else
        let '(s, e) := stripZeros (N.to_nat (N.size m)) m e in
        let digits : string := pretty s in
        let k := Z.of_nat (String.length digits) in
        let n := (k + e)%Z in
        let exponent : string :=
          (if (0 <=? n - 1)%Z then "+" else "-") +:+ pretty (Z.abs_N (n - 1)) in
        let body :=
          if (k <=? n)%Z && (n <=? 21)%Z
          then digits +:+ zeros (Z.to_nat (n - k))
          else if (0 <? n)%Z && (n <=? 21)%Z
          then sliceTo digits (Z.to_nat n) +:+ "."
               +:+ sliceFrom digits (Z.to_nat n)
          else if (-6 <? n)%Z && (n <=? 0)%Z
          then "0." +:+ zeros (Z.to_nat (- n)) +:+ digits
          else if (k =? 1)%Z
          then digits +:+ "e" +:+ exponent
          else sliceTo digits 1 +:+ "." +:+ sliceFrom digits 1
               +:+ "e" +:+ exponent in
        (if negative then "-" else "") +:+ body
  end.

(** *** Values *)

(** The values that reach the SDK as request options and path
    parameters (arrays and functions are left out).  A [Date] is kept as
    the outcome of its [toISOString()]: the timestamp string, or nothing
    for an invalid date, on which the method raises.  An object carries
    its own enumerable properties in insertion order and, when its
    [toString] is not [Object.prototype.toString], what that method
    returns. *)
Inductive value :=
| VUndefined
| VNull
| VBool (b : bool)
| VNumber (x : number)
| VBigInt (n : Z)
| VString (s : string)
| VSymbol (description : string)
| VDate (iso : option string)
| VObject (customToString : option string) (props : list (string * value)).

Definition typeof (v : value) : string :=
  match v with
  | VUndefined => "undefined"
  | VNull => "object"
  | VBool _ => "boolean"
  | VNumber _ => "number"
  | VBigInt _ => "bigint"
  | VString _ => "string"
  | VSymbol _ => "symbol"
  | VDate _ => "object"
  | VObject _ _ => "object"
  end.

Definition truthy (v : value) : bool :=
  match v with
  | VUndefined | VNull => false
  | VBool b => b
  | VNumber NaN => false
  | VNumber (Infinity _) => true
  | VNumber (Finite _ m _) => negb (m =? 0)%N
  | VBigInt n => negb (n =? 0)%Z
  | VString s => negb (String.eqb s "")
  | _ => true
  end.

Definition isUndefined (v : value) : bool :=
  match v with VUndefined => true | _ => false end.
Definition isNull (v : value) : bool :=
  match v with VNull => true | _ => false end.

(** Association-list objects. *)
Fixpoint assoc (props : list (string * value)) (key : string) : option value :=
  match props with
  | [] => None
  | (k, v) :: rest => if String.eqb k key then Some v else assoc rest key
  end.

Definition without (key : string) (props : list (string * value))
  : list (string * value) :=
  filter (λ kv, kv.1 ≠ key) props.

(** [obj[key] = v] on a plain object: overwrite in place, else append. *)
Fixpoint assign (props : list (string * value)) (key : string) (v : value)
  : list (string * value) :=
  match props with
  | [] => [(key, v)]
  | (k, w) :: rest =>
      if String.eqb k key then (k, v) :: rest else (k, w) :: assign rest key v
  end.

(** The code units of a string as its index properties. *)
Fixpoint indexProps (i : nat) (us : list string) : list (string * value) :=
  match us with
  | [] => []
  | u :: us' => (pretty i, VString u) :: indexProps (S i) us'
  end.

(** Own properties of a value ([Object.prototype.hasOwnProperty.call]
    boxes a primitive first). *)
Definition ownProps (v : value) : list (string * value) :=
  match v with
  | VObject _ props => props
  | VString s =>
      indexProps 0 (units s)
      ++ [("length", VNumber (Z.of_nat (length (units s))))]
  | _ => []
  end.

(** Own enumerable properties: what [{...v}] copies. *)
Definition spread (v : value) : list (string * value) :=
  match v with
  | VObject _ props => props
  | VString s => indexProps 0 (units s)
  | _ => []
  end.

Definition hasOwnProperty (v : value) (key : string) : bool :=
  bool_decide (is_Some (assoc (ownProps v) key)).

(** [v[key]] for the keys these programs read (none of which lives on a
    built-in prototype). *)
Definition getProp (v : value) (key : string) : value :=
  default VUndefined (assoc (ownProps v) key).

(** *** URI encoding *)

Definition isUriUnreserved (c : ascii) : bool :=
  isUpper c || isLower c || isDigit c
  || bool_decide (c ∈ ["-"; "_"; "."; "!"; "~"; "*"; "'"; "("; ")"]%char).

Definition hexDigit (n : nat) : ascii :=
  if (n <? 10)%nat then ascii_of_nat (48 + n) else ascii_of_nat (55 + n).

(** Every octet that is not an unreserved character becomes [%XX]. *)
Fixpoint percentEncode (s : string) : string :=
  match s with
  | "" => ""
  | String c s' =>
      if isUriUnreserved c then String c (percentEncode s')
      else
        let n := nat_of_ascii c in
        String "%" (String (hexDigit (n / 16)) (String (hexDigit (n mod 16))
          (percentEncode s')))
  end.

(** [encodeURIComponent]: a surrogate outside a pair has no UTF-8 form,
    and the function raises on it. *)
Definition encodeURIComponent (s : string) : result string :=
  if hasLoneSurrogate s then Throw (URIError "URI malformed")
  else Ok (percentEncode s).

(** *** Base64 *)

Definition base64Alphabet : string :=
  "ABCDEFGHIJKLMNOPQRSTUVWXYZabcdefghijklmnopqrstuvwxyz0123456789+/".

Definition base64Char (n : nat) : ascii :=
  default "?"%char (String.get n base64Alphabet).

Fixpoint base64Octets (bytes : list nat) : string :=
  match bytes with
  | [] => ""
  | [a] =>
      String (base64Char (a / 4)) (String (base64Char ((a mod 4) * 16)) "==")
  | [a; b] =>
      String (base64Char (a / 4))
        (String (base64Char ((a mod 4) * 16 + b / 16))
          (String (base64Char ((b mod 16) * 4)) "="))
  | a :: b :: c :: rest =>
      String (base64Char (a / 4))
        (String (base64Char ((a mod 4) * 16 + b / 16))
          (String (base64Char ((b mod 16) * 4 + c / 64))
            (String (base64Char (c mod 64)) (base64Octets rest))))
  end.

(** [btoa(s)]: the Base64 text of the code units as bytes; it raises an
    [InvalidCharacterError] when one of them is above U+00FF. *)
Definition btoa (s : string) : result string :=
  match latin1 s with
  | Some bytes => Ok (base64Octets bytes)
  | None => Throw (DOMException "InvalidCharacterError")
  end.

(** [Buffer.from(s).toString("base64")]: the Base64 text of the UTF-8
    octets. *)
Definition Buffer_base64 (s : string) : string :=
  base64Octets (octets (toWellFormed s)).

End JS.

(** ** [state-machine.ts]: the stand-alone online state machine *)

Module StateMachine.

Inductive TrustapTransactionState :=
| created
| joined
| rejected
| paid
| cancelled
| cancelled_with_payment
| payment_refunded
| tracked
| delivered
| complained
| complaint_period_ended
| funds_released.

(** The string each state is at run time. *)
Definition state_name (s : TrustapTransactionState) : string :=
  match s with
  | created => "created"
  | joined => "joined"
  | rejected => "rejected"
  | paid => "paid"
  | cancelled => "cancelled"
  | cancelled_with_payment => "cancelled_with_payment"
  | payment_refunded => "payment_refunded"
  | tracked => "tracked"
  | delivered => "delivered"
  | complained => "complained"
  | complaint_period_ended => "complaint_period_ended"
  | funds_released => "funds_released"
  end.

Definition trustapWebhookEventCodes : list string :=
  [ "basic_tx.joined";
    "basic_tx.rejected";
    "basic_tx.cancelled";
    "basic_tx.claimed";
    "basic_tx.listing_transaction_accepted";
    "basic_tx.listing_transaction_rejected";
    "basic_tx.payment_failed";
    "basic_tx.paid";
    "basic_tx.payment_refunded";
    "basic_tx.payment_review_flagged";
    "basic_tx.payment_review_finished";
    "basic_tx.tracking_details_submission_deadline_extended";
    "basic_tx.tracked";
    "basic_tx.delivered";
    "basic_tx.complained";
    "basic_tx.complaint_period_ended";
    "basic_tx.funds_released";
    "basic_tx.funds_refunded" ].

Definition eventStateMap : gmap string TrustapTransactionState :=
  list_to_map
    [ ("basic_tx.joined", joined);
      ("basic_tx.rejected", rejected);
      ("basic_tx.cancelled", cancelled);
      ("basic_tx.claimed", created);
      ("basic_tx.listing_transaction_accepted", joined);
      ("basic_tx.listing_transaction_rejected", rejected);
      ("basic_tx.payment_failed", created);
      ("basic_tx.paid", paid);
      ("basic_tx.payment_refunded", payment_refunded);
      ("basic_tx.payment_review_flagged", paid);
      ("basic_tx.payment_review_finished", paid);
      ("basic_tx.tracking_details_submission_deadline_extended", tracked);
      ("basic_tx.tracked", tracked);
      ("basic_tx.delivered", delivered);
      ("basic_tx.complained", complained);
      ("basic_tx.complaint_period_ended", complaint_period_ended);
      ("basic_tx.funds_released", funds_released);
      ("basic_tx.funds_refunded", payment_refunded) ].

(** [eventStateMap[eventType] ?? null] behind the [includes] guard. *)
Definition mapWebhookToTrustapState (eventType : string)
  : option TrustapTransactionState :=
  if negb (JS.includes trustapWebhookEventCodes eventType) then None
  else eventStateMap !! eventType.

End StateMachine.

(** ** [webhooks/state.ts]: the online half of the two-variant module *)

Module WebhooksState.

Inductive TrustapOnlineTransactionState :=
| created
| joined
| rejected
| paid
| cancelled
| cancelled_with_payment
| payment_refunded
| tracked
| delivered
| complained
| complaint_period_ended
| funds_released.

Definition state_name (s : TrustapOnlineTransactionState) : string :=
  match s with
  | created => "created"
  | joined => "joined"
  | rejected => "rejected"
  | paid => "paid"
  | cancelled => "cancelled"
  | cancelled_with_payment => "cancelled_with_payment"
  | payment_refunded => "payment_refunded"
  | tracked => "tracked"
  | delivered => "delivered"
  | complained => "complained"
  | complaint_period_ended => "complaint_period_ended"
  | funds_released => "funds_released"
  end.

Definition onlineWebhookEventCodes : list string :=
  [ "basic_tx.joined";
    "basic_tx.rejected";
    "basic_tx.cancelled";
    "basic_tx.claimed";
    "basic_tx.listing_transaction_accepted";
    "basic_tx.listing_transaction_rejected";
    "basic_tx.payment_failed";
    "basic_tx.paid";
    "basic_tx.payment_refunded";
    "basic_tx.payment_review_flagged";
    "basic_tx.payment_review_finished";
    "basic_tx.tracking_details_submission_deadline_extended";
    "basic_tx.tracked";
    "basic_tx.delivered";
    "basic_tx.complained";
    "basic_tx.complaint_period_ended";
    "basic_tx.funds_released";
    "basic_tx.funds_refunded" ].

Definition eventStateMap : gmap string TrustapOnlineTransactionState :=
  list_to_map
    [ ("basic_tx.joined", joined);
      ("basic_tx.rejected", rejected);
      ("basic_tx.cancelled", cancelled);
      ("basic_tx.claimed", created);
      ("basic_tx.listing_transaction_accepted", joined);
      ("basic_tx.listing_transaction_rejected", rejected);
      ("basic_tx.payment_failed", created);
      ("basic_tx.paid", paid);
      ("basic_tx.payment_refunded", payment_refunded);
      ("basic_tx.payment_review_flagged", paid);
      ("basic_tx.payment_review_finished", paid);
      ("basic_tx.tracking_details_submission_deadline_extended", tracked);
      ("basic_tx.tracked", tracked);
      ("basic_tx.delivered", delivered);
      ("basic_tx.complained", complained);
      ("basic_tx.complaint_period_ended", complaint_period_ended);
      ("basic_tx.funds_released", funds_released);
      ("basic_tx.funds_refunded", payment_refunded) ].

Definition mapWebhookToOnlineState (eventType : string)
  : option TrustapOnlineTransactionState :=
  if negb (JS.includes onlineWebhookEventCodes eventType) then None
  else eventStateMap !! eventType.

(** The adjacency table, keyed by state. *)
Definition onlineStateTransitions (s : TrustapOnlineTransactionState)
  : list TrustapOnlineTransactionState :=
  match s with
  | created => [joined; cancelled]
  | joined => [cancelled; paid]
  | rejected => []
  | paid => [tracked; cancelled_with_payment]
  | cancelled => []
  | cancelled_with_payment => [payment_refunded]
  | payment_refunded => []
  | tracked => [delivered]
  | delivered => [funds_released; complained; complaint_period_ended]
  | complained => [funds_released; payment_refunded]
  | complaint_period_ended => [funds_released]
  | funds_released => []
  end.

(** [onlineStateTransitions[from].includes(to)], on the strings the
    states are. *)
Definition isValidOnlineTransition (from to : TrustapOnlineTransactionState)
  : bool :=
  JS.includes (state_name <$> onlineStateTransitions from) (state_name to).

End WebhooksState.

(** ** [webhooks/state.ts]: the face-to-face half *)

Module F2FState.

Inductive TrustapF2FTransactionState :=
| created
| joined
| rejected
| deposit_paid
| cancelled
| deposit_accepted
| remainder_skipped
| cancelled_with_deposit
| deposit_refunded
| buyer_handover_confirmed
| seller_handover_confirmed
| complained
| funds_released
| complaint_period_ended.

Definition state_name (s : TrustapF2FTransactionState) : string :=
  match s with
  | created => "created"
  | joined => "joined"
  | rejected => "rejected"
  | deposit_paid => "deposit_paid"
  | cancelled => "cancelled"
  | deposit_accepted => "deposit_accepted"
  | remainder_skipped => "remainder_skipped"
  | cancelled_with_deposit => "cancelled_with_deposit"
  | deposit_refunded => "deposit_refunded"
  | buyer_handover_confirmed => "buyer_handover_confirmed"
  | seller_handover_confirmed => "seller_handover_confirmed"
  | complained => "complained"
  | funds_released => "funds_released"
  | complaint_period_ended => "complaint_period_ended"
  end.

Definition f2fStateTransitions (s : TrustapF2FTransactionState)
  : list TrustapF2FTransactionState :=
  match s with
  | created => [joined; rejected; cancelled]
  | joined => [cancelled; deposit_paid]
  | rejected => []
  | deposit_paid =>
      [deposit_accepted; cancelled_with_deposit; remainder_skipped]
  | cancelled => []
  | deposit_accepted => [remainder_skipped; cancelled_with_deposit]
  | remainder_skipped =>
      [buyer_handover_confirmed; seller_handover_confirmed; complained]
  | cancelled_with_deposit => [deposit_refunded]
  | deposit_refunded => []
  | buyer_handover_confirmed => [complained; complaint_period_ended]
  | seller_handover_confirmed =>
      [complained; complaint_period_ended; funds_released]
  | complained => [funds_released]
  | funds_released => []
  | complaint_period_ended => [funds_released]
  end.

Definition isValidF2FTransition (from to : TrustapF2FTransactionState) : bool :=
  JS.includes (state_name <$> f2fStateTransitions from) (state_name to).

Definition f2fWebhookEventCodes : list string :=
  [ "p2p_tx.joined";
    "p2p_tx.rejected";
    "p2p_tx.cancelled";
    "p2p_tx.claimed";
    "p2p_tx.deposit_payment_failed";
    "p2p_tx.deposit_paid";
    "p2p_tx.deposit_review_flagged";
    "p2p_tx.deposit_review_finished";
    "p2p_tx.deposit_refunded";
    "p2p_tx.deposit_accepted";
    "p2p_tx.priced";
    "p2p_tx.remainder_skipped";
    "p2p_tx.remainder_paid";
    "p2p_tx.remainder_review_flagged";
    "p2p_tx.remainder_review_finished";
    "p2p_tx.buyer_handover_confirmed";
    "p2p_tx.seller_handover_confirmed";
    "p2p_tx.complained";
    "p2p_tx.funds_released";
    "p2p_tx.funds_refunded" ].

Definition eventStateMap : gmap string TrustapF2FTransactionState :=
  list_to_map
    [ ("p2p_tx.joined", joined);
      ("p2p_tx.rejected", rejected);
      ("p2p_tx.cancelled", cancelled);
      ("p2p_tx.claimed", created);
      ("p2p_tx.deposit_payment_failed", joined);
      ("p2p_tx.deposit_paid", deposit_paid);
      ("p2p_tx.deposit_review_flagged", deposit_paid);
      ("p2p_tx.deposit_review_finished", deposit_paid);
      ("p2p_tx.deposit_refunded", deposit_refunded);
      ("p2p_tx.deposit_accepted", deposit_accepted);
      ("p2p_tx.priced", deposit_accepted);
      ("p2p_tx.remainder_skipped", remainder_skipped);
      ("p2p_tx.remainder_paid", remainder_skipped);
      ("p2p_tx.remainder_review_flagged", remainder_skipped);
      ("p2p_tx.remainder_review_finished", remainder_skipped);
      ("p2p_tx.buyer_handover_confirmed", buyer_handover_confirmed);
      ("p2p_tx.seller_handover_confirmed", seller_handover_confirmed);
      ("p2p_tx.complained", complained);
      ("p2p_tx.funds_released", funds_released);
      ("p2p_tx.funds_refunded", deposit_refunded) ].

Definition mapWebhookToF2FState (eventType : string)
  : option TrustapF2FTransactionState :=
  if negb (JS.includes f2fWebhookEventCodes eventType) then None
  else eventStateMap !! eventType.

End F2FState.

(** ** [webhook-schemas.ts]: the event envelopes of the validator *)

Module WebhookSchemas.

(** The [target_preview] schemas, by name. *)
Inductive TargetPreviewSchema :=
| joinedTargetPreviewSchema
| cancelledTargetPreviewSchema
| rejectedTargetPreviewSchema
| claimedTargetPreviewSchema
| paidTargetPreviewSchema
| trackedTargetPreviewSchema
| deliveredTargetPreviewSchema
| complainedTargetPreviewSchema
| complaintPeriodEndedTargetPreviewSchema
| fundsReleasedTargetPreviewSchema
| paymentRefundedTargetPreviewSchema.

Inductive MetadataSchema :=
| emptyMetadataSchema
| paymentFailedMetadataSchema.

(** What [createEventSchema] fixes about an envelope: the literal of
    [code], and the schemas of [target_preview] and [metadata]. *)
Record EventSchema := {
  code : string;
  target_preview : TargetPreviewSchema;
  metadata : MetadataSchema;
}.

Definition createEventSchema (code : string)
    (targetPreviewSchema : TargetPreviewSchema)
    (metadataSchema : option MetadataSchema) : EventSchema :=
  {| code := code; target_preview := targetPreviewSchema;
     metadata := default emptyMetadataSchema metadataSchema |}.

(** The members of the discriminated union, in order. *)
Definition trustapWebhookEventSchema : list EventSchema :=
  [ createEventSchema "basic_tx.joined" joinedTargetPreviewSchema None;
    createEventSchema "basic_tx.rejected" rejectedTargetPreviewSchema None;
    createEventSchema "basic_tx.cancelled" cancelledTargetPreviewSchema None;
    createEventSchema "basic_tx.claimed" claimedTargetPreviewSchema None;
    createEventSchema "basic_tx.listing_transaction_accepted"
      joinedTargetPreviewSchema None;
    createEventSchema "basic_tx.listing_transaction_rejected"
      rejectedTargetPreviewSchema None;
    createEventSchema "basic_tx.payment_failed" joinedTargetPreviewSchema
      (Some paymentFailedMetadataSchema);
    createEventSchema "basic_tx.paid" paidTargetPreviewSchema None;
    createEventSchema "basic_tx.payment_refunded"
      paymentRefundedTargetPreviewSchema None;
    createEventSchema "basic_tx.payment_review_flagged"
      paidTargetPreviewSchema None;
    createEventSchema "basic_tx.payment_review_finished"
      paidTargetPreviewSchema None;
    createEventSchema "basic_tx.tracking_details_submission_deadline_extended"
      paidTargetPreviewSchema None;
    createEventSchema "basic_tx.tracked" trackedTargetPreviewSchema None;
    createEventSchema "basic_tx.delivered" deliveredTargetPreviewSchema None;
    createEventSchema "basic_tx.complained" complainedTargetPreviewSchema None;
    createEventSchema "basic_tx.complaint_period_ended"
      complaintPeriodEndedTargetPreviewSchema None;
    createEventSchema "basic_tx.funds_released"
      fundsReleasedTargetPreviewSchema None;
    createEventSchema "basic_tx.funds_refunded"
      paymentRefundedTargetPreviewSchema None ].

(** The member of the union that the discriminator [code] selects. *)
Definition schemaFor (eventCode : string) : option EventSchema :=
  find (λ schema, String.eqb (code schema) eventCode) trustapWebhookEventSchema.

End WebhookSchemas.

(** ** [core.ts]: the operation-dispatch core *)

Module Core.
Import JS.

Inductive HttpMethod := GET | POST | PUT | PATCH | DELETE | HEAD | OPTIONS.

(** *** Base paths *)

(** The [while] loop of [removeTrailingSlash]: the final value of [end]. *)
Fixpoint trailingSlashEnd (value : string) (end_ : nat) : nat :=
  match end_ with
  | 0 => 0
  | S e =>
      if bool_decide (String.get e value = Some "/"%char)
      then trailingSlashEnd value e
      else end_
  end.

Definition removeTrailingSlash (value : string) : string :=
  sliceTo value (trailingSlashEnd value (String.length value)).

Definition normalizeBasePath (basePath : option string) : string :=
  match basePath with
  | None => ""
  | Some basePath =>
      if String.eqb basePath "" then ""
      else
        let trimmed := trim basePath in
        if String.eqb trimmed "" || String.eqb trimmed "/" then ""
        else
          let withLeadingSlash :=
            if startsWith trimmed "/" then trimmed else "/" +:+ trimmed in
          removeTrailingSlash withLeadingSlash
  end.

(** [s.replaceAll(/\/+/g, "/")]. *)
Fixpoint collapseSlashes (s : string) : string :=
  match s with
  | "" => ""
  | String c s' =>
      if Ascii.eqb c "/" && startsWith s' "/" then collapseSlashes s'
      else String c (collapseSlashes s')
  end.

Definition joinPaths (basePath path : string) : string :=
  let sanitizedBase := normalizeBasePath (Some basePath) in
  let hasLeadingSlash := startsWith path "/" in
  let relative := if hasLeadingSlash then sliceFrom path 1 else path in
  if String.eqb sanitizedBase "" then
    if hasLeadingSlash then path else "/" +:+ relative
  else if String.eqb relative "" then sanitizedBase
  else collapseSlashes (sanitizedBase +:+ "/" +:+ relative).

(** *** Path templates *)

Definition stringOf (v : value) : string :=
  match v with
  | VString s => s
  | VNumber x => Number_toString x
  | VBigInt n => pretty n
  | VBool true => "true"
  | VBool false => "false"
  | _ => ""
  end.

Definition toPathParamSegment (key : string) (v : value) : result string :=
  match v with
  | VString _ | VNumber _ | VBool _ | VBigInt _ => Ok (stringOf v)
  | VDate (Some iso) => Ok iso
  | VDate None => Throw (RangeError "Invalid time value")
  | VObject (Some str) _ => Ok str
  | _ =>
      Throw (TypeError ("Unsupported path parameter " +:+ quoted key
                        +:+ " of type " +:+ typeof v))
  end.

Definition isBrace (c : ascii) : bool := Ascii.eqb c "{" || Ascii.eqb c "}".

(** The longest brace-free prefix of [s], and what follows it. *)
Fixpoint spanName (s : string) : string * string :=
  match s with
  | "" => ("", "")
  | String c s' =>
      if isBrace c then ("", s)
      else let '(name, rest) := spanName s' in (String c name, rest)
  end.

(** A match of [\{([^{}]+)\}] that starts at the first character of
    [s]: the captured name and the text after the match. *)
Definition matchParamAt (s : string) : option (string * string) :=
  match s with
  | String c s' =>
      if Ascii.eqb c "{" then
        match spanName s' with
        | (String n name, String d rest) =>
            if Ascii.eqb d "}" then Some (String n name, rest) else None
        | _ => None
        end
      else None
  | "" => None
  end.

(** [[...path.matchAll(/\{([^{}]+)\}/g)].map(m => m[1])]: the captured
    names of the successive leftmost matches.  [fuel] bounds the number
    of search steps; the length of the text is always enough. *)
Fixpoint matchAllFrom (fuel : nat) (s : string) : list string :=
  match fuel, s with
  | S fuel, String c s' =>
      match matchParamAt s with
      | Some (name, rest) => name :: matchAllFrom fuel rest
      | None => matchAllFrom fuel s'
      end
  | _, _ => []
  end.

Definition matchAllParams (path : string) : list string :=
  matchAllFrom (String.length path) path.

(** [path.split(/\{[^{}]+\}/)]: the text between the matches; [lit] is
    the text read since the last match. *)
Fixpoint splitFrom (fuel : nat) (s lit : string) : list string :=
  match fuel, s with
  | S fuel, String c s' =>
      match matchParamAt s with
      | Some (_, rest) => lit :: splitFrom fuel rest ""
      | None => splitFrom fuel s' (lit +:+ String c "")
      end
  | _, _ => [lit +:+ s]
  end.

Definition splitParams (path : string) : list string :=
  splitFrom (String.length path) path "".

Definition placeholder (key : string) : string := "{" +:+ key +:+ "}".

(** The body of the [for ... of paramKeys.entries()] loop, from index [i]
    on, with [acc] the [result] built so far. *)
Fixpoint applyParamsLoop (parts : list string) (pathParams : value)
    (i : nat) (keys : list string) (acc : string) : result string :=
  match keys with
  | [] => Ok acc
  | key :: keys' =>
      segment ←
        (if negb (String.eqb key "") && hasOwnProperty pathParams key then
           let rawValue := getProp pathParams key in
           if negb (isUndefined rawValue) && negb (isNull rawValue)
           then toPathParamSegment key rawValue ≫= encodeURIComponent
           else Ok (placeholder key)
         else Ok (placeholder key));
      applyParamsLoop parts pathParams (S i) keys'
        (acc +:+ segment +:+ nth (S i) parts "")
  end.

(** [compilePathTemplate(path)] returns [applyParams]; its argument is
    [params?.path], whatever the caller put there. *)
Definition compilePathTemplate (path : string) : value → result string :=
  let paramMatches := matchAllParams path in
  if (length paramMatches =? 0)%nat then λ _, Ok path
  else
    let paramKeys := paramMatches in
    let parts := splitParams path in
    λ pathParams,
      if negb (truthy pathParams) then Ok path
      else applyParamsLoop parts pathParams 0 paramKeys (nth 0 parts "").

(** *** Request options *)

Definition deprecationWarning : string :=
  "[Trustap SDK] Deprecation warning: Using { query: ... } is deprecated. "
  +:+ "Please use { params: { query: ... } } instead. "
  +:+ "Legacy format will be removed in a future major version.".

(** The normalised options and the lines passed to [console.warn] (the
    console is taken to have one). *)
Definition normalizeRequestOptions (options : value) : value * list string :=
  if negb (truthy options) || negb (String.eqb (typeof options) "object")
  then (options, [])
  else
    let original := options in
    let params :=
      let p := getProp original "params" in
      if truthy p && String.eqb (typeof p) "object"
      then Some (spread p) else None in
    if hasOwnProperty original "query" then
      let query := getProp original "query" in
      let rest := without "query" (spread original) in
      let nextParams := default [] params in
      let nextParams :=
        if isUndefined (default VUndefined (assoc nextParams "query"))
        then assign nextParams "query" query
        else nextParams in
      (VObject None (assign rest "params" (VObject None nextParams)),
       [deprecationWarning])
    else
      match params with
      | Some params =>
          (VObject None (assign (spread original) "params"
                           (VObject None params)), [])
      | None => (options, [])
      end.

Definition getParams (options : value) : option value :=
  if negb (truthy options) || negb (String.eqb (typeof options) "object")
  then None
  else
    let params := getProp options "params" in
    if negb (truthy params) || negb (String.eqb (typeof params) "object")
    then None
    else Some params.

(** *** Security map *)

(** [/^\/api\/v\d+/i]: the text after the match, when there is one. *)
Fixpoint dropDigits (s : string) : string :=
  match s with
  | String c s' => if isDigit c then dropDigits s' else s
  | "" => ""
  end.

Definition apiVersionPrefix (s : string) : option string :=
  if String.eqb (asciiLowerCase (sliceTo s 6)) "/api/v" then
    match sliceFrom s 6 with
    | String d rest => if isDigit d then Some (dropDigits rest) else None
    | "" => None
    end
  else None.

Definition orSlash (s : string) : string :=
  if String.eqb s "" then "/" else s.

Definition stripBasePath (pathname basePath : string) : string :=
  let normalized :=
    if negb (String.eqb basePath "") && startsWith pathname basePath
    then orSlash (sliceFrom pathname (String.length basePath))
    else
      match apiVersionPrefix pathname with
      | Some rest => orSlash rest
      | None => pathname
      end in
  let normalized :=
    if negb (startsWith normalized "/") then "/" +:+ normalized
    else normalized in
  if String.eqb normalized "" then "/" else normalized.

(** A compiled pattern: [regex] is [RegExp.prototype.test] of the
    (flag-less, hence stateless) expression built from the template.
    [methods] is read with the method names the middleware passes, which
    are upper-cased and so never name a member of [Object.prototype]. *)
Record PathPattern := {
  regex : string → bool;
  methods : gmap string (list string);
}.

Record CompiledSecurityMap := {
  exact : gmap string (gmap string (list string));
  patterns : list PathPattern;
}.

(** The [for ... of compiled.patterns] loop. *)
Fixpoint scanPatterns (ps : list PathPattern) (pathname method : string)
  : list string :=
  match ps with
  | [] => []
  | p :: ps' =>
      if regex p pathname then
        match methods p !! method with
        | Some match_ => match_
        | None => scanPatterns ps' pathname method
        end
      else scanPatterns ps' pathname method
  end.

Definition resolveSecuritySchemes (compiled : CompiledSecurityMap)
    (pathname method : string) : list string :=
  match exact compiled !! pathname with
  | Some exactMethods =>
      match exactMethods !! method with
      | Some schemes => schemes
      | None => scanPatterns (patterns compiled) pathname method
      end
  | None => scanPatterns (patterns compiled) pathname method
  end.

(** [createSafePathRegex]: the character screen, then the host's
    [RegExp] constructor, which either refuses the pattern or gives the
    [test] of the expression. *)
Definition isWordChar (c : ascii) : bool :=
  isUpper c || isLower c || isDigit c || Ascii.eqb c "_".

Definition isSafePatternChar (c : ascii) : bool :=
  isWordChar c
  || bool_decide (c ∈ ["-"; "."; "/"; "^"; "["; "]"; "$"; "+"; "*"; "?";
                       "("; ")"; "{"; "}"; "|"; "092"]%char).

Definition createSafePathRegex (newRegExp : string → result (string → bool))
    (pattern : string) : result (string → bool) :=
  if negb (negb (String.eqb pattern "") && allChars isSafePatternChar pattern)
  then Throw (Error ("Invalid pattern for path regex: " +:+ pattern))
  else newRegExp pattern.

(** The longest prefix of word characters, and what follows it. *)
Fixpoint spanWord (s : string) : string * string :=
  match s with
  | "" => ("", "")
  | String c s' =>
      if isWordChar c
      then let '(w, rest) := spanWord s' in (String c w, rest)
      else ("", s)
  end.

(** A match of [\{[a-z_]\w*\}] (case-insensitive) at the head of [s]:
    the text after it. *)
Definition matchIdentAt (s : string) : option string :=
  match s with
  | String c (String i s') =>
      if Ascii.eqb c "{" && (isUpper i || isLower i || Ascii.eqb i "_") then
        match spanWord s' with
        | (_, String d rest) => if Ascii.eqb d "}" then Some rest else None
        | _ => None
        end
      else None
  | _ => None
  end.

(** The loop that builds [regexPath]: every [{identifier}] becomes
    [[^/]+], the text between is copied. *)
Fixpoint rewriteParams (fuel : nat) (path : string) : string :=
  match fuel, path with
  | S fuel, String c path' =>
      match matchIdentAt path with
      | Some rest => "[^/]+" +:+ rewriteParams fuel rest
      | None => String c (rewriteParams fuel path')
      end
  | _, _ => path
  end.

(** One turn of [for (const path of Object.keys(securityMap))]. *)
Definition compileEntry (newRegExp : string → result (string → bool))
    (acc : CompiledSecurityMap) (entry : string * gmap string (list string))
  : result CompiledSecurityMap :=
  let '(path, methods) := entry in
  if bool_decide (is_Some (String.index 0 "{" path)) then
    let regexPath := rewriteParams (String.length path) path in
    let regexPattern := "^" +:+ regexPath +:+ "$" in
    re ← createSafePathRegex newRegExp regexPattern;
    Ok {| exact := exact acc;
          patterns := patterns acc ++ [{| regex := re; methods := methods |}] |}
  else
    let methodMap := default ∅ (exact acc !! path) in
    Ok {| exact := <[path := methods ∪ methodMap]> (exact acc);
          patterns := patterns acc |}.

Fixpoint compileEntries (newRegExp : string → result (string → bool))
    (acc : CompiledSecurityMap)
    (entries : list (string * gmap string (list string)))
  : result CompiledSecurityMap :=
  match entries with
  | [] => Ok acc
  | entry :: rest =>
      acc' ← compileEntry newRegExp acc entry;
      compileEntries newRegExp acc' rest
  end.

(** [compileSecurityMap], over the entries of the map in key order. *)
Definition compileSecurityMap (newRegExp : string → result (string → bool))
    (securityMap : option (list (string * gmap string (list string))))
  : result CompiledSecurityMap :=
  match securityMap with
  | None => Ok {| exact := ∅; patterns := [] |}
  | Some entries => compileEntries newRegExp {| exact := ∅; patterns := [] |} entries
  end.

(** The expressions [compileSecurityMap] builds from templates whose
    literal text has no regex metacharacter, [^(c|[^/]+)...$]: [None]
    stands for one [[^/]+], [Some c] for the character [c]. *)
Fixpoint segmentsMatch (toks : list (option ascii)) (s : string) {struct s}
  : bool :=
  match toks, s with
  | [], "" => true
  | Some c :: toks', String d s' => Ascii.eqb c d && segmentsMatch toks' s'
  | None :: toks', String d s' =>
      negb (Ascii.eqb d "/")
      && (segmentsMatch toks' s' || segmentsMatch toks s')
  | _, _ => false
  end.

Fixpoint parseSegments (fuel : nat) (body : string)
  : option (list (option ascii)) :=
  match fuel, body with
  | _, "$" => Some []
  | S fuel, String c body' =>
      if startsWith body "[^/]+"
      then cons None <$> parseSegments fuel (sliceFrom body 5)
      else if isWordChar c || Ascii.eqb c "/" || Ascii.eqb c "-"
      then cons (Some c) <$> parseSegments fuel body'
      else None
  | _, _ => None
  end.

(** The [RegExp] constructor on that family of expressions; it refuses
    the others, of which the host accepts many. *)
Definition segmentRegExp (pattern : string) : result (string → bool) :=
  match pattern with
  | String c body =>
      if Ascii.eqb c "^" then
        match parseSegments (String.length body) body with
        | Some toks => Ok (segmentsMatch toks)
        | None => Throw (Error ("Invalid regular expression: " +:+ pattern))
        end
      else Throw (Error ("Invalid regular expression: " +:+ pattern))
  | "" => Throw (Error "Invalid regular expression: ")
  end.

(** *** Requests *)

(** A [Headers] object as its methods show it: the value under each
    name, in lower case.  (Iterating gives these entries by name.) *)
Abbreviation Headers := (gmap string string).

Definition Headers_has (h : Headers) (name : string) : bool :=
  bool_decide (is_Some (h !! asciiLowerCase name)).

(** HTTP whitespace: tab, line feed, carriage return and space. *)
Definition isHttpWhitespace (c : ascii) : bool :=
  bool_decide (nat_of_ascii c ∈ [9; 10; 13; 32]).

Fixpoint dropHttpWhitespace (s : string) : string :=
  match s with
  | String c s' => if isHttpWhitespace c then dropHttpWhitespace s' else s
  | "" => ""
  end.

(** The value without its leading and trailing HTTP whitespace. *)
Definition normalizeHeaderValue (v : string) : string :=
  String.rev (dropHttpWhitespace (String.rev (dropHttpWhitespace v))).

Definition isTokenChar (c : ascii) : bool :=
  isUpper c || isLower c || isDigit c
  || bool_decide (c ∈ ["!"; "#"; "$"; "%"; "&"; "'"; "*"; "+"; "-"; ".";
                       "^"; "_"; "`"; "|"; "~"]%char).

Definition isHeaderName (name : string) : bool :=
  negb (String.eqb name "") && allChars isTokenChar name.

(** A normalised value is a header value when it has no NUL, line feed
    or carriage return. *)
Definition isHeaderValue (v : string) : bool :=
  allChars (λ c, negb (bool_decide (nat_of_ascii c ∈ [0; 10; 13]))) v.

(** [h.set(name, v)]: both arguments are converted to byte strings,
    which fails on a code unit above U+00FF; the value is normalised, name
    and value are validated, and the entry is written. *)
Definition Headers_set (h : Headers) (name v : string) : result Headers :=
  match latin1 name, latin1 v with
  | Some _, Some _ =>
      let v := normalizeHeaderValue v in
      if negb (isHeaderName name)
      then Throw (TypeError ("Headers.set: " +:+ name
                             +:+ " is an invalid header name."))
      else if negb (isHeaderValue v)
      then Throw (TypeError ("Headers.set: " +:+ v
                             +:+ " is an invalid header value."))
      else Ok (<[asciiLowerCase name := v]> h)
  | _, _ => Throw (TypeError "Cannot convert argument to a ByteString")
  end.

Record URL := {
  origin : string;
  pathname : string;
  search : string;
}.

Record Request := {
  url : URL;
  method : string;
  headers : Headers;
  body : option string;
}.

(** [new Request(request, { headers })]. *)
Definition withHeaders (request : Request) (h : Headers) : Request :=
  {| url := url request; method := method request; headers := h;
     body := body request |}.

(** *** Client configuration and closure state *)

Record BasicAuth := {
  username : string;
  password : option string;
}.

Inductive AuthStrategy := basic | oauth2 | auto.

(** Whether the globals [btoa] and [Buffer] exist; when they do, they
    are the standard ones. *)
Record Host := {
  hasBtoa : bool;
  hasBuffer : bool;
}.

Record OperationMapping := {
  mappingPath : string;
  mappingMethod : string;
}.

(** What [createTrustapClientCore] closes over.  [getAccessToken] gives
    the outcome of awaiting the supplier, by the number of earlier
    invocations. *)
Record Client := {
  basicAuth : option BasicAuth;
  getAccessToken : option (nat → result string);
  authOverrides : option (gmap string AuthStrategy);
  basePath : string;
  compiledSecurityMap : CompiledSecurityMap;
  operationIdToPath : gmap string OperationMapping;
  host : Host;
}.

(** The mutable part: the [cached] variable of [resolveBasicToken],
    with the inputs handed to the encoding routine so far and the number
    of supplier invocations. *)
Record ClientState := {
  cached : option string;
  encoded : list string;
  supplierCalls : nat;
}.

Definition initialState : ClientState :=
  {| cached := None; encoded := []; supplierCalls := 0 |}.

(** The inner closure of [resolveBasicToken]: what the call returns or
    raises, and the closure state after it.  When [btoa] raises, the
    assignment to [cached] does not happen. *)
Definition resolveBasicToken (h : Host) (auth : BasicAuth) (st : ClientState)
  : result string * ClientState :=
  match cached st with
  | Some token => (Ok token, st)
  | None =>
      let user := username auth in
      let pass := default "" (password auth) in
      let input := user +:+ ":" +:+ pass in
      if negb (hasBtoa h) then
        if hasBuffer h then
          let token := Buffer_base64 input in
          (Ok token, {| cached := Some token; encoded := encoded st ++ [input];
                        supplierCalls := supplierCalls st |})
        else
          (Ok "", {| cached := Some ""; encoded := encoded st;
                     supplierCalls := supplierCalls st |})
      else
        match btoa input with
        | Ok token =>
            (Ok token, {| cached := Some token;
                          encoded := encoded st ++ [input];
                          supplierCalls := supplierCalls st |})
        | Throw e =>
            (Throw e, {| cached := None; encoded := encoded st ++ [input];
                         supplierCalls := supplierCalls st |})
        end
  end.

(** *** Authentication middleware *)

Definition lookupOverride (c : Client) (pathname fullPathname : string)
  : option AuthStrategy :=
  match authOverrides c with
  | Some overrides =>
      match overrides !! pathname with
      | Some o => Some o
      | None => overrides !! fullPathname
      end
  | None => None
  end.

(** The value of [shouldUseBasic] after the override test. *)
Definition shouldUseBasic (c : Client) (override : option AuthStrategy)
    (pathname method : string) : bool :=
  match override with
  | Some basic => true
  | Some oauth2 => false
  | _ =>
      let declaredSchemes :=
        resolveSecuritySchemes (compiledSecurityMap c) pathname method in
      let allowsApiKey := includes declaredSchemes "APIKey" in
      let isChargeEndpoint :=
        endsWith pathname "/charge" || endsWith pathname "/p2p/charge" in
      let isGuestUsersEndpoint := endsWith pathname "/guest_users" in
      (if allowsApiKey then true else false)
      || isChargeEndpoint || isGuestUsersEndpoint
  end.

Definition onRequest (c : Client) (st : ClientState) (request : Request)
  : result Request * ClientState :=
  let hs := headers request in
  if negb (Headers_has hs "Authorization") then
    let fullPathname := pathname (url request) in
    let pathname := stripBasePath fullPathname (basePath c) in
    let method := toUpperCase (method request) in
    let override := lookupOverride c pathname fullPathname in
    match shouldUseBasic c override pathname method, basicAuth c with
    | true, Some auth =>
        match resolveBasicToken (host c) auth st with
        | (Ok token, st') =>
            if negb (String.eqb token "")
            then (withHeaders request
                    <$> Headers_set hs "Authorization" ("Basic " +:+ token),
                  st')
            else (Ok (withHeaders request hs), st')
        | (Throw e, st') => (Throw e, st')
        end
    | _, _ =>
        match getAccessToken c with
        | Some supplier =>
            let st' := {| cached := cached st; encoded := encoded st;
                          supplierCalls := S (supplierCalls st) |} in
            match supplier (supplierCalls st) with
            | Ok token =>
                if negb (String.eqb token "")
                then (withHeaders request
                        <$> Headers_set hs "Authorization"
                              ("Bearer " +:+ token), st')
                else (Ok (withHeaders request hs), st')
            | Throw e => (Throw e, st')
            end
        | None => (Ok (withHeaders request hs), st)
        end
    end
  else (Ok (withHeaders request hs), st).

(** [authHeaderMiddleware] exists only with some credential source;
    the transport runs a request through it when it does. *)
Definition authHeaderMiddleware (c : Client)
  : option (ClientState → Request → result Request * ClientState) :=
  match basicAuth c, getAccessToken c with
  | None, None => None
  | _, _ => Some (onRequest c)
  end.

Definition throughMiddleware (c : Client) (st : ClientState)
    (request : Request) : result Request * ClientState :=
  match authHeaderMiddleware c with
  | Some hook => hook st request
  | None => (Ok request, st)
  end.

(** *** Operation dispatcher *)

Record Handler := {
  handlerOpId : string;
  handlerMethod : string;
  handlerUpper : string;
  handlerApplyParams : value → result string;
}.

(** A call handed to the transport: [client.VERB(finalPath, options)]. *)
Record TransportCall := {
  callVerb : HttpMethod;
  callPath : string;
  callOptions : value;
}.

(** The [switch (upper)] of the handler. *)
Definition switchVerb (upper : string) : option HttpMethod :=
  if String.eqb upper "GET" then Some GET
  else if String.eqb upper "POST" then Some POST
  else if String.eqb upper "PUT" then Some PUT
  else if String.eqb upper "PATCH" then Some PATCH
  else if String.eqb upper "DELETE" then Some DELETE
  else if String.eqb upper "HEAD" then Some HEAD
  else if String.eqb upper "OPTIONS" then Some OPTIONS
  else None.

(** Calling a handler: the transport call it makes or the value it
    throws, and the warnings logged on the way. *)
Definition invoke (h : Handler) (requestOptions : value)
  : result TransportCall * list string :=
  let '(optionsToSend, warnings) := normalizeRequestOptions requestOptions in
  let params := getParams optionsToSend in
  let pathParams :=
    match params with
    | Some p => getProp p "path"
    | None => VUndefined
    end in
  (finalPath ← handlerApplyParams h pathParams;
   match switchVerb (handlerUpper h) with
   | Some verb =>
       Ok {| callVerb := verb; callPath := finalPath;
             callOptions := optionsToSend |}
   | None =>
       Throw (Error ("Unsupported method " +:+ handlerMethod h
                     +:+ " for " +:+ handlerOpId h))
   end,
   warnings).

(** What a property of the merged client object can hold. *)
Inductive Member :=
| MUndefined
| MHandler (h : Handler)
| MInherited (name : string)
| MForeign (name : string).

Inductive PropertyKey :=
| PString (s : string)
| PSymbol (description : string).

(** The string-keyed members of [Object.prototype], which the proxy
    target [{}] inherits. *)
Definition objectPrototypeKeys : list string :=
  [ "constructor"; "hasOwnProperty"; "isPrototypeOf";
    "propertyIsEnumerable"; "toLocaleString"; "toString"; "valueOf";
    "__defineGetter__"; "__defineSetter__"; "__lookupGetter__";
    "__lookupSetter__"; "__proto__" ].

Definition Reflect_has (target : gmap string Member) (prop : string) : bool :=
  bool_decide (is_Some (target !! prop)) || includes objectPrototypeKeys prop.

Definition Reflect_get (target : gmap string Member) (prop : string) : Member :=
  match target !! prop with
  | Some m => m
  | None =>
      if includes objectPrototypeKeys prop then MInherited prop
      else MUndefined
  end.

Definition buildHandler (c : Client) (opId : string)
    (mapping : OperationMapping) : Handler :=
  let path := mappingPath mapping in
  let method := mappingMethod mapping in
  let upper := toUpperCase method in
  let templatePath := joinPaths (basePath c) path in
  let applyParams := compilePathTemplate templatePath in
  {| handlerOpId := opId; handlerMethod := method; handlerUpper := upper;
     handlerApplyParams := applyParams |}.

(** The [get] trap of [byOperationId]: the value read, or the error
    raised by the read, and the target afterwards. *)
Definition get (c : Client) (target : gmap string Member)
    (prop : PropertyKey) : result Member * gmap string Member :=
  match prop with
  | PSymbol _ => (Ok MUndefined, target)
  | PString opId =>
      if String.eqb opId "then" then (Ok MUndefined, target)
      else if Reflect_has target opId
      then (Ok (Reflect_get target opId), target)
      else
        match operationIdToPath c !! opId with
        | None => (Ok MUndefined, target)
        | Some mapping =>
            let handler := buildHandler c opId mapping in
            (Ok (MHandler handler), <[opId := MHandler handler]> target)
        end
  end.

(** The target once [Object.assign] has copied the path-based client's
    keys and [raw] onto the proxy. *)
Definition mergedTarget (pathClient : gmap string Member)
  : gmap string Member :=
  <["raw" := MForeign "raw"]> pathClient.

(** *** Base configuration *)

(** What [new URL(apiUrl)] gives when it does not throw. *)
Record ParsedURL := {
  protocol : string;
  urlHost : string;
  urlPathname : string;
}.

Record BaseConfig := {
  baseUrl : string;
  inferredBasePath : string;
}.

(** [inferBaseConfig], over the URL parser of the host: [None] is the
    [catch] branch. *)
Definition inferBaseConfig (parseURL : string → option ParsedURL)
    (apiUrl : string) (providedBasePath : option string) : BaseConfig :=
  let '(inferredPath, baseUrl) :=
    match parseURL apiUrl with
    | Some parsed =>
        (if negb (String.eqb (urlPathname parsed) "")
            && negb (String.eqb (urlPathname parsed) "/")
         then Some (removeTrailingSlash (urlPathname parsed))
         else None,
         protocol parsed +:+ "//" +:+ urlHost parsed)
    | None => (None, removeTrailingSlash apiUrl)
    end in
  let basePath :=
    normalizeBasePath
      (match providedBasePath with
       | Some p => Some p
       | None =>
           match inferredPath with
           | Some p => Some p
           | None => Some "/api/v4"
           end
       end) in
  {| baseUrl := removeTrailingSlash baseUrl; inferredBasePath := basePath |}.

End Core.

(** ** [client.ts]: the header helpers of the thin client *)

Module ApiClient.
Import JS.

Inductive TrustapAuth :=
| apiKey (apiKey : string)
| oauth (accessToken : string).

Definition BASE64_ALPHABET : string :=
  "ABCDEFGHIJKLMNOPQRSTUVWXYZabcdefghijklmnopqrstuvwxyz0123456789+/".

(** [BASE64_ALPHABET[k]] appended to a string. *)
Definition alphabetAt (k : Z) : string :=
  match String.get (Z.to_nat k) BASE64_ALPHABET with
  | Some c => String c ""
  | None => "undefined"
  end.

(** [new TextEncoder().encode(input)]: the UTF-8 octets of the text. *)
Definition encodeUtf8 (input : string) : list Z :=
  Z.of_nat <$> octets (toWellFormed input).

(** The [for (let i = 0; i < bytes.length; i += 3)] loop from index [i]
    on; [fuel] bounds the number of turns, the length of [bytes] is
    always enough.  The triplet stays below 2^24, far from the 32-bit
    wrap-around of the shifts. *)
Fixpoint encodeLoop (fuel : nat) (bytes : list Z) (i : nat) (output : string)
  : string :=
  match fuel with
  | 0 => output
  | S fuel =>
      if (i <? length bytes)%nat then
        let b1 := nth i bytes 0%Z in
        let b2 := nth (i + 1) bytes 0%Z in
        let b3 := nth (i + 2) bytes 0%Z in
        let hasB2 := (i + 1 <? length bytes)%nat in
        let hasB3 := (i + 2 <? length bytes)%nat in
        let triplet := Z.lor (Z.lor (Z.shiftl b1 16) (Z.shiftl b2 8)) b3 in
        let output := output +:+ alphabetAt (Z.land (Z.shiftr triplet 18) 63) in
        let output := output +:+ alphabetAt (Z.land (Z.shiftr triplet 12) 63) in
        let output :=
          output +:+ (if hasB2 then alphabetAt (Z.land (Z.shiftr triplet 6) 63)
                      else "=") in
        let output :=
          output +:+ (if hasB3 then alphabetAt (Z.land triplet 63) else "=") in
        encodeLoop fuel bytes (i + 3) output
      else output
  end.

(** [encodeBase64]; [hasBtoa] says whether [globalThis.btoa] is a
    function. *)
Definition encodeBase64 (hasBtoa : bool) (input : string) : result string :=
  if hasBtoa then btoa input
  else
    let bytes := encodeUtf8 input in
    Ok (encodeLoop (length bytes) bytes 0 "").

Definition createApiKeyAuthHeader (hasBtoa : bool) (key : string)
  : result string :=
  token ← encodeBase64 hasBtoa (key +:+ ":");
  Ok ("Basic " +:+ token).

Definition createBearerAuthHeader (accessToken : string) : string :=
  "Bearer " +:+ accessToken.

Definition resolveAuthHeader (hasBtoa : bool) (auth : option TrustapAuth)
  : result (option string) :=
  match auth with
  | None => Ok None
  | Some (apiKey key) => Some <$> createApiKeyAuthHeader hasBtoa key
  | Some (oauth accessToken) => Ok (Some (createBearerAuthHeader accessToken))
  end.

End ApiClient.

(** ** Reference definitions

    The notions the properties below are stated with, and the concrete
    clients and maps they are checked on. *)

Module Reference.
Import JS Core.

(** A pattern settles the lookup when its expression accepts the path
    and it declares the method, were it with an empty list. *)
Definition settles (pathname method : string) (p : PathPattern) : bool :=
  regex p pathname && bool_decide (is_Some (methods p !! method)).

(** The security map of the lookup-precedence example: an exact entry
    for [/charge] and an entry for the template [/{any}]. *)
Definition chargeAndAnyMap : list (string * gmap string (list string)) :=
  [ ("/charge", {[ "GET" := ["APIKey"] ]});
    ("/{any}", {[ "POST" := ["OAuth2"] ]}) ].

(** What [compileSecurityMap] makes of it. *)
Definition chargeAndAny : CompiledSecurityMap :=
  {| exact := {[ "/charge" := {[ "GET" := ["APIKey"] ]} ]};
     patterns :=
       [ {| regex := segmentsMatch [Some "/"%char; None];
            methods := {[ "POST" := ["OAuth2"] ]} |} ] |}.

(** A client with one well-formed operation and one whose verb is not
    an HTTP verb of the transport. *)
Definition traceClient : Client :=
  {| basicAuth := Some {| username := "key"; password := None |};
     getAccessToken := None;
     authOverrides := None;
     basePath := "/api/v4";
     compiledSecurityMap := chargeAndAny;
     operationIdToPath :=
       {[ "basic.getCharge" :=
            {| mappingPath := "/charge"; mappingMethod := "get" |};
          "debug.trace" :=
            {| mappingPath := "/debug"; mappingMethod := "TRACE" |} ]};
     host := {| hasBtoa := true; hasBuffer := false |} |}.

(** A request to [path] under the API root, with the given header
    entries. *)
Definition requestTo (verb path : string) (hs : list (string * string))
  : Request :=
  {| url := {| origin := "https://api.example"; pathname := path;
               search := "" |};
     method := verb; headers := list_to_map hs; body := None |}.

(** The three suffix tests and the declared-scheme test of the default
    resolution. *)
Definition basicByDefault (c : Client) (pathname method : string) : Prop :=
  "APIKey" ∈ resolveSecuritySchemes (compiledSecurityMap c) pathname method
  ∨ endsWith pathname "/charge" = true
  ∨ endsWith pathname "/p2p/charge" = true
  ∨ endsWith pathname "/guest_users" = true.

(** No override in effect: none declared for the path, or ["auto"]. *)
Definition noOverride (o : option AuthStrategy) : Prop :=
  o = None ∨ o = Some auto.

(** [params.query] as the caller set it: [undefined] unless [params]
    is an object that has it. *)
Definition callerParamsQuery (options : value) : value :=
  match getProp options "params" with
  | VObject _ params => default VUndefined (assoc params "query")
  | _ => VUndefined
  end.

(** The text handed to the encoder: [`${user}:${pass}`]. *)
Definition credentials (auth : BasicAuth) : string :=
  username auth +:+ ":" +:+ default "" (password auth).

(** The host's encoder rejects the credentials: it is [btoa], and a
    character of [username:password] is above U+00FF. *)
Definition encoderRejects (h : Host) (auth : BasicAuth) : Prop :=
  hasBtoa h = true ∧ latin1 (credentials auth) = None.

(** [n] successive calls of the token resolver: what each returned or
    raised, and the closure state at the end. *)
Fixpoint resolveTimes (h : Host) (auth : BasicAuth) (n : nat)
    (st : ClientState) : list (result string) * ClientState :=
  match n with
  | 0 => ([], st)
  | S n' =>
      let '(token, st1) := resolveBasicToken h auth st in
      let '(tokens, st2) := resolveTimes h auth n' st1 in
      (token :: tokens, st2)
  end.

(** The closure state after the middleware has seen [requests] in turn. *)
Fixpoint runRequests (c : Client) (st : ClientState)
    (requests : list Request) : ClientState :=
  match requests with
  | [] => st
  | request :: rest => runRequests c (onRequest c st request).2 rest
  end.

(** The encoding routine has run at most once, and not at all while
    nothing is cached. *)
Definition encodedOnce (st : ClientState) : Prop :=
  (cached st = None → encoded st = [])
  ∧ (length (encoded st) ≤ 1)%nat.

(** Legacy options: a top-level [query] next to a body. *)
Definition legacyOptions : list (string * value) :=
  [ ("query", VObject None [("a", VNumber 1)]); ("body", VString "b") ].

(** The value the caller supplies for a placeholder name, when it is
    defined and not null. *)
Definition suppliedValue (pathParams : value) (name : string)
  : option value :=
  if truthy pathParams && hasOwnProperty pathParams name then
    match getProp pathParams name with
    | VUndefined | VNull => None
    | v => Some v
    end
  else None.

(** The string form of a parameter value: numbers, strings, booleans
    and bigints stringify directly, a date is its timestamp string, an
    object with a [toString] of its own uses it. *)
Definition stringForm (v : value) : option string :=
  match v with
  | VNumber x => Some (Number_toString x)
  | VBigInt n => Some (pretty n)
  | VString s => Some s
  | VBool b => Some (if b then "true" else "false")
  | VDate iso => iso
  | VObject custom _ => custom
  | _ => None
  end.

(** A supplied value can be written into a path: it has a string form,
    and that form has no surrogate outside a pair. *)
Definition encodable (v : value) : bool :=
  match stringForm v with
  | Some form => negb (hasLoneSurrogate form)
  | None => false
  end.




(** What stands in a placeholder slot. *)
Definition slotText (pathParams : value) (name : string) : string :=
  match suppliedValue pathParams name with
  | Some v => percentEncode (default "" (stringForm v))
  | None => "{" +:+ name +:+ "}"
  end.

(** U+D800 on its own. *)
Definition loneSurrogate : string := ofOctets [237; 160; 128].

(** Literal segments with one slot text between each two. *)
Fixpoint interleave (literals slots : list string) : string :=
  match literals with
  | [] => ""
  | literal :: literals' =>
      match slots with
      | [] => literal
      | slot :: slots' => literal +:+ slot +:+ interleave literals' slots'
      end
  end.

Definition userPostTemplate : string := "/users/{userId}/posts/{postId}".

(** A chain of states, each step of which the table allows. *)
Fixpoint chain {A : Type} (valid : A → A → bool) (l : list A) : bool :=
  match l with
  | a :: rest =>
      match rest with
      | b :: _ => valid a b && chain valid rest
      | [] => true
      end
  | [] => true
  end.

(** How far a state is from the start of the online lifecycle. *)
Definition onlineRank (s : WebhooksState.TrustapOnlineTransactionState)
  : nat :=
  match s with
  | WebhooksState.created | WebhooksState.rejected => 0
  | WebhooksState.joined => 1
  | WebhooksState.cancelled | WebhooksState.paid => 2
  | WebhooksState.tracked | WebhooksState.cancelled_with_payment => 3
  | WebhooksState.delivered => 4
  | WebhooksState.complained | WebhooksState.complaint_period_ended => 5
  | WebhooksState.payment_refunded | WebhooksState.funds_released => 6
  end.

Definition f2fRank (s : F2FState.TrustapF2FTransactionState) : nat :=
  match s with
  | F2FState.created => 0
  | F2FState.joined | F2FState.rejected => 1
  | F2FState.cancelled | F2FState.deposit_paid => 2
  | F2FState.deposit_accepted => 3
  | F2FState.remainder_skipped | F2FState.cancelled_with_deposit => 4
  | F2FState.deposit_refunded | F2FState.buyer_handover_confirmed
  | F2FState.seller_handover_confirmed => 5
  | F2FState.complained | F2FState.complaint_period_ended => 6
  | F2FState.funds_released => 7
  end.

(** [k] slashes. *)
Fixpoint slashes (k : nat) : string :=
  match k with
  | 0 => ""
  | S k => String "/" (slashes k)
  end.

(** Whether the text has two slashes in a row. *)
Fixpoint hasDoubleSlash (s : string) : bool :=
  match s with
  | "" => false
  | String c s' => (Ascii.eqb c "/" && startsWith s' "/") || hasDoubleSlash s'
  end.

(** Whether the last character is a slash. *)
Fixpoint lastIsSlash (s : string) : bool :=
  match s with
  | "" => false
  | String c "" => Ascii.eqb c "/"
  | String _ s' => lastIsSlash s'
  end.

(** Clients for the branches of the middleware: one that overrides
    [/charge] to OAuth2, one without Basic credentials, one on a host
    without any Base64 encoder. *)
Definition overrideClient : Client :=
  {| basicAuth := Some {| username := "key"; password := None |};
     getAccessToken := Some (λ _, Ok "tok");
     authOverrides := Some {[ "/charge" := oauth2 ]};
     basePath := "/api/v4";
     compiledSecurityMap := chargeAndAny;
     operationIdToPath := ∅;
     host := {| hasBtoa := true; hasBuffer := false |} |}.

Definition bearerClient : Client :=
  {| basicAuth := None;
     getAccessToken := Some (λ _, Ok "tok");
     authOverrides := None;
     basePath := "/api/v4";
     compiledSecurityMap := chargeAndAny;
     operationIdToPath := ∅;
     host := {| hasBtoa := true; hasBuffer := false |} |}.

Definition bareHostClient : Client :=
  {| basicAuth := Some {| username := "key"; password := None |};
     getAccessToken := Some (λ _, Ok "tok");
     authOverrides := None;
     basePath := "/api/v4";
     compiledSecurityMap := chargeAndAny;
     operationIdToPath := ∅;
     host := {| hasBtoa := false; hasBuffer := false |} |}.

(** Whether a path of the security map is a template. *)
Definition templated (path : string) : bool :=
  bool_decide (is_Some (String.index 0 "{" path)).

(** Base64 decoding, to read back what the encoders write. *)
Fixpoint indexOfChar (c : ascii) (s : string) : option nat :=
  match s with
  | "" => None
  | String d s' => if Ascii.eqb c d then Some 0 else S <$> indexOfChar c s'
  end.

Definition sextetOf (c : ascii) : option nat :=
  indexOfChar c ApiClient.BASE64_ALPHABET.

Fixpoint decodeBase64 (s : string) : option (list nat) :=
  match s with
  | "" => Some []
  | String c1 (String c2 (String c3 (String c4 rest))) =>
      s1 ← sextetOf c1;
      s2 ← sextetOf c2;
      if Ascii.eqb c3 "=" then
        if Ascii.eqb c4 "=" && String.eqb rest ""
        then Some [s1 * 4 + s2 / 16] else None
      else
        s3 ← sextetOf c3;
        if Ascii.eqb c4 "=" then
          if String.eqb rest ""
          then Some [s1 * 4 + s2 / 16; (s2 mod 16) * 16 + s3 / 4] else None
        else
          s4 ← sextetOf c4;
          octets ← decodeBase64 rest;
          Some ((s1 * 4 + s2 / 16) :: ((s2 mod 16) * 16 + s3 / 4)
                :: ((s3 mod 4) * 64 + s4) :: octets)
  | _ => None
  end.

(** The octets of a text. *)
Definition octetsOf (s : string) : list nat := octets s.

(** A header value that [Headers.set] accepts: no code unit above U+00FF
    and, once normalised, no NUL, line feed or carriage return. *)
Definition acceptedHeaderValue (v : string) : bool :=
  bool_decide (is_Some (latin1 v)) && isHeaderValue (normalizeHeaderValue v).

(** A client on a host with [btoa] whose key is not Latin-1. *)
Definition cyrillicKeyClient : Client :=
  {| basicAuth := Some {| username := "ключ"; password := None |};
     getAccessToken := None;
     authOverrides := None;
     basePath := "/api/v4";
     compiledSecurityMap := chargeAndAny;
     operationIdToPath := ∅;
     host := {| hasBtoa := true; hasBuffer := true |} |}.

(** A client whose catalogue gives the unsupported verb to names that
    the client object already answers to. *)
Definition shadowedClient : Client :=
  {| basicAuth := None;
     getAccessToken := None;
     authOverrides := None;
     basePath := "/api/v4";
     compiledSecurityMap := chargeAndAny;
     operationIdToPath :=
       {[ "then" := {| mappingPath := "/then"; mappingMethod := "TRACE" |};
          "raw" := {| mappingPath := "/raw"; mappingMethod := "TRACE" |} ]};
     host := {| hasBtoa := true; hasBuffer := false |} |}.

(** A token with a line feed inside. *)
Definition twoLineToken : string := "a" +:+ String (ascii_of_nat 10) "b".

Definition twoLineTokenClient : Client :=
  {| basicAuth := None;
     getAccessToken := Some (λ _, Ok twoLineToken);
     authOverrides := None;
     basePath := "/api/v4";
     compiledSecurityMap := chargeAndAny;
     operationIdToPath := ∅;
     host := {| hasBtoa := true; hasBuffer := false |} |}.

(** A client that overrides [/ping] to Basic. *)
Definition basicOverrideClient : Client :=
  {| basicAuth := Some {| username := "key"; password := None |};
     getAccessToken := Some (λ _, Ok "tok");
     authOverrides := Some {[ "/ping" := basic ]};
     basePath := "/api/v4";
     compiledSecurityMap := chargeAndAny;
     operationIdToPath := ∅;
     host := {| hasBtoa := true; hasBuffer := false |} |}.

(** The number of slashes in a text. *)
Fixpoint countSlashes (s : string) : nat :=
  match s with
  | "" => 0
  | String c s' => (if Ascii.eqb c "/" then 1 else 0) + countSlashes s'
  end.

(** A parser that knows one URL. *)
Definition parseExample (apiUrl : string) : option ParsedURL :=
  if String.eqb apiUrl "https://dev.stage.trustap.com/api/v1/"
  then Some {| protocol := "https:"; urlHost := "dev.stage.trustap.com";
               urlPathname := "/api/v1/" |}
  else None.

End Reference.

(** * Properties *)

Import JS Core Reference.

(** ** The embedding on concrete inputs *)

Example joinPaths_examples :
  joinPaths "/api/v4" "/charge" = "/api/v4/charge"
  ∧ joinPaths "" "charge" = "/charge"
  ∧ joinPaths "/api/v4/" "//a//b" = "/api/v4/a/b"
  ∧ joinPaths "api" "" = "/api".
Proof. by vm_compute. Qed.

Example stripBasePath_examples :
  stripBasePath "/api/v4/charge" "/api/v4" = "/charge"
  ∧ stripBasePath "/API/V12/x" "/base" = "/x"
  ∧ stripBasePath "/api/v4" "/api/v4" = "/"
  ∧ stripBasePath "/api/v/x" "" = "/api/v/x".
Proof. by vm_compute. Qed.

Example template_passes :
  matchAllParams "/a/{}/{{x}}/{y" = ["x"]
  ∧ splitParams "/a/{}/{{x}}/{y" = ["/a/{}/{"; "}/{y"]
  ∧ matchAllParams "{a}{b}" = ["a"; "b"]
  ∧ splitParams "{a}{b}" = [""; ""; ""].
Proof. by vm_compute. Qed.

Example applyParams_examples :
  compilePathTemplate userPostTemplate
    (VObject None [("userId", VString "1 2/3"); ("postId", VNumber 45)])
  = Ok "/users/1%202%2F3/posts/45"
  ∧ compilePathTemplate userPostTemplate VUndefined = Ok userPostTemplate
  ∧ compilePathTemplate userPostTemplate
      (VObject None [("userId", VNull); ("postId", VObject None [])])
    = Throw (TypeError ("Unsupported path parameter " +:+ quoted "postId"
                        +:+ " of type object")).
Proof. by vm_compute. Qed.

Example host_functions :
  Number_toString (Finite false 1 21) = "1e+21"
  ∧ Number_toString (Finite true 15 (-1)) = "-1.5"
  ∧ Number_toString (Finite false 1 (-7)) = "1e-7"
  ∧ Number_toString 1200%Z = "1200"
  ∧ toUpperCase "poſt" = "POST"
  ∧ toUpperCase "straße" = "STRASSE"
  ∧ trim (" /v1" +:+ ofOctets [194; 160]) = "/v1"
  ∧ encodeURIComponent "é /" = Ok "%C3%A9%20%2F"
  ∧ encodeURIComponent loneSurrogate = Throw (URIError "URI malformed")
  ∧ btoa "é:" = Ok "6To="
  ∧ Buffer_base64 "é:" = "w6k6"
  ∧ btoa "€" = Throw (DOMException "InvalidCharacterError").
Proof. by vm_compute. Qed.

Example applyParams_number_forms :
  compilePathTemplate "/t/{n}" (VObject None [("n", VNumber (Finite false 1 21))])
  = Ok "/t/1e%2B21"
  ∧ compilePathTemplate "/t/{n}" (VObject None [("n", VNumber NaN)])
    = Ok "/t/NaN"
  ∧ compilePathTemplate "/t/{n}" (VObject None [("n", VBigInt (10 ^ 21))])
    = Ok "/t/1000000000000000000000".
Proof. by vm_compute. Qed.

Example Headers_set_examples :
  Headers_set ∅ "Authorization" "Bearer  "
  = Ok {[ "authorization" := "Bearer" ]}
  ∧ Headers_set {[ "accept" := "*/*" ]} "Authorization" "Bearer tok"
    = Ok {[ "accept" := "*/*"; "authorization" := "Bearer tok" ]}
  ∧ (∃ message,
       Headers_set ∅ "Authorization" ("Bearer " +:+ twoLineToken)
       = Throw (TypeError message))
  ∧ (∃ message,
       Headers_set ∅ "Authorization" "Bearer €" = Throw (TypeError message)).
Proof.
  split; [by vm_compute|]. split; [by vm_compute|].
  split; eexists; by vm_compute.
Qed.

Example security_lookup_precedence :
  resolveSecuritySchemes chargeAndAny "/charge" "GET" = ["APIKey"]
  ∧ resolveSecuritySchemes chargeAndAny "/other" "POST" = ["OAuth2"]
  ∧ resolveSecuritySchemes chargeAndAny "/other" "GET" = []
  ∧ resolveSecuritySchemes chargeAndAny "/a/b" "POST" = [].
Proof. by vm_compute. Qed.

Example basic_header_on_charge :
  onRequest traceClient initialState (requestTo "get" "/api/v4/charge" [])
  = (Ok (requestTo "get" "/api/v4/charge"
           [("authorization", "Basic a2V5Og==")]),
     {| cached := Some "a2V5Og=="; encoded := ["key:"]; supplierCalls := 0 |}).
Proof. by vm_compute. Qed.

Example handler_call :
  ∃ h target',
    get traceClient (mergedTarget ∅) (PString "basic.getCharge")
    = (Ok (MHandler h), target')
    ∧ (invoke h (VObject None legacyOptions)).1
      = Ok {| callVerb := GET; callPath := "/api/v4/charge";
              callOptions :=
                VObject None
                  [ ("body", VString "b");
                    ("params",
                     VObject None [("query", VObject None [("a", VNumber 1)])]) ]
           |}.
Proof. eexists _, _. split; by vm_compute. Qed.

(** ** Webhook state tables *)

Lemma includes_true_iff (xs : list string) (x : string) :
  JS.includes xs x = true ↔ x ∈ xs.
Proof.
  unfold JS.includes. rewrite existsb_exists. split.
  - intros (y & Hy & Heq). apply String.eqb_eq in Heq. subst y.
    by apply list_elem_of_In.
  - intros Hin. exists x. split; [by apply list_elem_of_In|apply String.eqb_refl].
Qed.

Lemma includes_false_iff (xs : list string) (x : string) :
  JS.includes xs x = false ↔ x ∉ xs.
Proof.
  rewrite <- includes_true_iff. destruct (JS.includes xs x); naive_solver.
Qed.

(** Splits membership in a literal list into one goal per element. *)
Ltac each_member H :=
  repeat (apply elem_of_cons in H as [-> | H]);
  [ .. | by apply elem_of_nil in H ].

(** ** Strings *)

Lemma app_cons (c : ascii) (s t : string) :
  String c s +:+ t = String c (s +:+ t).
Proof. reflexivity. Qed.

Lemma allChars_app (p : ascii → bool) (s t : string) :
  allChars p (s +:+ t) = allChars p s && allChars p t.
Proof.
  induction s as [|c s IH]; [done|]. rewrite app_cons. cbn [allChars].
  by rewrite IH, andb_assoc.
Qed.

(** ** Method names *)

Lemma upperChar_not_lower (c : ascii) : isLower (upperChar c) = false.
Proof. destruct c as [[] [] [] [] [] [] [] []]; reflexivity. Qed.

(** No entry of the case table writes a lower-case ASCII letter. *)
Lemma upperAt_no_lower (s k v : string) :
  upperAt s = Some (k, v) → allChars (λ c, negb (isLower c)) v = true.
Proof.
  unfold upperAt. intros Hfind.
  assert (forallb (λ kv : string * string,
                     allChars (λ c, negb (isLower c)) kv.2)
            upperCaseTable = true) as Hall by (by vm_compute).
  rewrite forallb_forall in Hall.
  apply find_some in Hfind as [Hin _]. exact (Hall _ Hin).
Qed.

Lemma upperFrom_no_lower (s : string) (skip : nat) :
  allChars (λ c, negb (isLower c)) (upperFrom skip s) = true.
Proof.
  revert skip. induction s as [|c s IH]; intros skip; [done|].
  cbn [upperFrom]. destruct skip as [|skip]; [|apply IH].
  destruct (isAsciiChar c) eqn:Hascii.
  - cbn [allChars]. by rewrite upperChar_not_lower, IH.
  - destruct (upperAt (String c s)) as [[k v]|] eqn:Hat.
    + rewrite allChars_app, IH, andb_true_r. by apply upperAt_no_lower in Hat.
    + cbn [allChars]. rewrite IH, andb_true_r.
      unfold isAsciiChar in Hascii. unfold isLower.
      apply Nat.ltb_ge in Hascii.
      rewrite (proj2 (Nat.leb_gt (nat_of_ascii c) 122)) by lia.
      by rewrite andb_false_r.
Qed.

Lemma toUpperCase_no_lower (s : string) :
  allChars (λ c, negb (isLower c)) (toUpperCase s) = true.
Proof. apply upperFrom_no_lower. Qed.

(** An upper-cased method name is not the name of a member of
    [Object.prototype]: reading [methods[method]] finds own entries only. *)
Lemma toUpperCase_not_inherited (method : string) :
  includes objectPrototypeKeys (toUpperCase method) = false.
Proof.
  apply includes_false_iff. intros Hin.
  pose proof (toUpperCase_no_lower method) as Hupper.
  remember (toUpperCase method) as upper eqn:Hupper_eq. clear Hupper_eq.
  each_member Hin; by vm_compute in Hupper.
Qed.

(** C9. [mapWebhookToOnlineState] is total over strings: a code of the fixed
    known set is mapped to a concrete (non-null) lifecycle state, and every
    other string is mapped to null; there is no default state. *)
Theorem mapWebhookToOnlineState_total (code : string) :
  ((code ∈ WebhooksState.onlineWebhookEventCodes)
   ∧ is_Some (WebhooksState.mapWebhookToOnlineState code))
  ∨ ((code ∉ WebhooksState.onlineWebhookEventCodes)
     ∧ WebhooksState.mapWebhookToOnlineState code = None).
Proof.
  unfold WebhooksState.mapWebhookToOnlineState.
  destruct (JS.includes WebhooksState.onlineWebhookEventCodes code) eqn:Hinc.
  - apply includes_true_iff in Hinc. left. split; [done|].
    cbn [negb]. pose proof Hinc as Hmem.
    each_member Hmem; eexists; vm_compute; reflexivity.
  - apply includes_false_iff in Hinc. right. done.
Qed.

(** C10. The two independently written online mappers agree on every
    input string: same known-code set, same code-to-state table. *)
Theorem mapWebhookToTrustapState_eq_online (s : string) :
  StateMachine.state_name <$> StateMachine.mapWebhookToTrustapState s
  = WebhooksState.state_name <$> WebhooksState.mapWebhookToOnlineState s.
Proof.
  unfold StateMachine.mapWebhookToTrustapState,
    WebhooksState.mapWebhookToOnlineState.
  change StateMachine.trustapWebhookEventCodes
    with WebhooksState.onlineWebhookEventCodes.
  destruct (JS.includes WebhooksState.onlineWebhookEventCodes s) eqn:Hinc;
    [|done].
  apply includes_true_iff in Hinc. cbn [negb].
  each_member Hinc; vm_compute; reflexivity.
Qed.

(** ** Security-scheme lookup *)

Lemma scanPatterns_find (ps : list Core.PathPattern) (pathname method : string) :
  Core.scanPatterns ps pathname method
  = default [] (find (Reference.settles pathname method) ps
                  ≫= λ p, Core.methods p !! method).
Proof.
  induction ps as [|p ps IH]; [done|].
  cbn [Core.scanPatterns find]. unfold Reference.settles at 1.
  destruct (Core.regex p pathname); cbn [andb]; [|exact IH].
  destruct (Core.methods p !! method) as [schemes|] eqn:Hm.
  - rewrite bool_decide_eq_true_2 by eauto. cbn. by rewrite Hm.
  - rewrite bool_decide_eq_false_2 by (intros [? ?]; done). exact IH.
Qed.


(** C2, as stated, fails: on an exact-path hit whose entry lacks the
    method, the lookup does not answer with the empty list but goes on to
    the patterns.  In the map compiled from an exact entry for [/charge]
    (GET only) and the template [/{any}], a POST lookup on [/charge]
    returns the schemes of the pattern [^/[^/]+$]. *)
Lemma resolveSecuritySchemes_exact_hit_method_absent :
  compileSecurityMap segmentRegExp (Some chargeAndAnyMap) = Ok chargeAndAny
  ∧ (∃ exactMethods,
        exact chargeAndAny !! "/charge" = Some exactMethods
        ∧ exactMethods !! "POST" = None)
  ∧ resolveSecuritySchemes chargeAndAny "/charge" "POST" = ["OAuth2"]
  ∧ resolveSecuritySchemes chargeAndAny "/charge" "POST" ≠ [].
Proof.
  split; [by vm_compute|].
  split; [|split; [by vm_compute|by vm_compute]].
  exists {[ "GET" := ["APIKey"] ]}. split; by vm_compute.
Qed.

(** C2, amended.  [resolveSecuritySchemes] answers with the exact entry's
    scheme list when the path has an exact entry that declares the method.
    In every other case (no exact entry, or one without the method) it
    answers with the method's list in the first pattern, in declaration
    order, whose expression accepts the path and which declares the method
    (an empty list included), and with the empty list when there is no
    such pattern. *)
Theorem resolveSecuritySchemes_exact_then_first_pattern
    (compiled : Core.CompiledSecurityMap) (pathname method : string) :
  Core.resolveSecuritySchemes compiled pathname method
  = match Core.exact compiled !! pathname ≫= (.!! method) with
    | Some schemes => schemes
    | None =>
        default [] (find (Reference.settles pathname method) (Core.patterns compiled)
                      ≫= λ p, Core.methods p !! method)
    end.
Proof.
  unfold Core.resolveSecuritySchemes. rewrite <- scanPatterns_find.
  destruct (Core.exact compiled !! pathname) as [exactMethods|]; cbn; [|done].
  by destruct (exactMethods !! method).
Qed.

(** ** Authentication middleware *)

Lemma withHeaders_same (request : Request) :
  withHeaders request (headers request) = request.
Proof. by destruct request. Qed.

(** C3. A request that already carries an [Authorization] header leaves
    the middleware as it entered it, and so does the closure state:
    neither overrides, nor the security map, nor the configured
    credentials are consulted.  A header is attached only on the other
    branch, when none is present. *)
Theorem onRequest_keeps_caller_authorization
    (c : Client) (st : ClientState) (request : Request) :
  Headers_has (headers request) "Authorization" = true →
  onRequest c st request = (Ok request, st)
  ∧ throughMiddleware c st request = (Ok request, st).
Proof.
  intros Hhas.
  assert (onRequest c st request = (Ok request, st)) as Hon.
  { unfold onRequest. rewrite Hhas. cbn [negb]. by rewrite withHeaders_same. }
  split; [done|].
  unfold throughMiddleware, authHeaderMiddleware.
  by destruct (basicAuth c), (getAccessToken c).
Qed.

Lemma onRequest_keeps_caller_authorization_witness :
  Headers_has (list_to_map [("authorization", "Custom token")])
    "Authorization" = true
  ∧ onRequest traceClient initialState
      (requestTo "GET" "/api/v4/charge" [("authorization", "Custom token")])
    = (Ok (requestTo "GET" "/api/v4/charge"
             [("authorization", "Custom token")]), initialState).
Proof.
  split; [reflexivity|].
  apply (onRequest_keeps_caller_authorization traceClient initialState
           (requestTo "GET" "/api/v4/charge"
              [("authorization", "Custom token")])).
  reflexivity.
Defined.

Lemma resolveBasicToken_cached (h : Host) (auth : BasicAuth)
    (st : ClientState) (token : string) :
  cached st = Some token → resolveBasicToken h auth st = (Ok token, st).
Proof. intros Hc. unfold resolveBasicToken. by rewrite Hc. Qed.

(** A call that returns has cached what it returns. *)
Lemma resolveBasicToken_caches (h : Host) (auth : BasicAuth)
    (st st' : ClientState) (token : string) :
  resolveBasicToken h auth st = (Ok token, st') → cached st' = Some token.
Proof.
  unfold resolveBasicToken. destruct (cached st) as [t|] eqn:Hc.
  { by intros [= <- <-]. }
  destruct (hasBtoa h), (hasBuffer h); cbn [negb];
    try (by intros [= <- <-]);
    destruct (btoa _); by intros [= <- <-].
Qed.

(** A call raises only when there is nothing cached and [btoa] rejects
    the credentials, and it caches nothing. *)
Lemma resolveBasicToken_raises (h : Host) (auth : BasicAuth)
    (st st' : ClientState) (e : exn) :
  resolveBasicToken h auth st = (Throw e, st') →
  encoderRejects h auth ∧ cached st = None ∧ cached st' = None
  ∧ e = DOMException "InvalidCharacterError".
Proof.
  unfold resolveBasicToken, encoderRejects.
  destruct (cached st) as [t|] eqn:Hc; [done|].
  destruct (hasBtoa h), (hasBuffer h); cbn [negb]; try done;
    fold (credentials auth); unfold btoa;
    destruct (latin1 (credentials auth)); try done;
    by intros [= <- <-].
Qed.

Lemma resolveBasicToken_supplierCalls (h : Host) (auth : BasicAuth)
    (st : ClientState) :
  supplierCalls (resolveBasicToken h auth st).2 = supplierCalls st.
Proof.
  unfold resolveBasicToken. destruct (cached st); [done|].
  destruct (hasBtoa h), (hasBuffer h); cbn [negb]; try done;
    by destruct (btoa _).
Qed.

(** The closure state after a request that takes the Basic branch is
    the state after one call of the token resolver. *)
Lemma onRequest_basic_branch (c : Client) (st : ClientState)
    (request : Request) (auth : BasicAuth) :
  let fullPathname := pathname (url request) in
  let path := stripBasePath fullPathname (basePath c) in
  Headers_has (headers request) "Authorization" = false →
  shouldUseBasic c (lookupOverride c path fullPathname) path
    (toUpperCase (method request)) = true →
  basicAuth c = Some auth →
  (onRequest c st request).2 = (resolveBasicToken (host c) auth st).2.
Proof.
  intros fullPathname path Hhas Hchoice Hauth. unfold onRequest.
  rewrite Hhas. cbn [negb]. fold fullPathname. fold path.
  rewrite Hchoice, Hauth.
  destruct (resolveBasicToken (host c) auth st) as [[token|e] st1]; [|done].
  by destruct (negb (String.eqb token "")).
Qed.

(** On the other branch the token cache is not touched. *)
Lemma onRequest_other_branch (c : Client) (st : ClientState)
    (request : Request) :
  let fullPathname := pathname (url request) in
  let path := stripBasePath fullPathname (basePath c) in
  Headers_has (headers request) "Authorization" = false →
  shouldUseBasic c (lookupOverride c path fullPathname) path
    (toUpperCase (method request)) = false →
  cached (onRequest c st request).2 = cached st
  ∧ encoded (onRequest c st request).2 = encoded st.
Proof.
  intros fullPathname path Hhas Hchoice. unfold onRequest.
  rewrite Hhas. cbn [negb]. fold fullPathname. fold path. rewrite Hchoice.
  destruct (getAccessToken c) as [supplier|]; [|done].
  cbn zeta. destruct (supplier (supplierCalls st)) as [token|e]; [|done].
  by destruct (negb (String.eqb token "")).
Qed.

(** C6. With no override in effect for the path, the middleware chooses
    Basic auth exactly when the schemes declared for the normalised path
    and the upper-cased method include ["APIKey"], or the path ends with
    [/charge] or [/p2p/charge], or it ends with [/guest_users].  The
    choice is what the request then goes through: when it holds and Basic
    credentials are configured, the token resolver is called, once, and
    the access-token supplier is left alone; when it fails, the token
    cache is left alone. *)
Theorem shouldUseBasic_default_resolution
    (c : Client) (st : ClientState) (request : Request) :
  let fullPathname := pathname (url request) in
  let path := stripBasePath fullPathname (basePath c) in
  let verb := toUpperCase (method request) in
  noOverride (lookupOverride c path fullPathname) →
  (shouldUseBasic c (lookupOverride c path fullPathname) path verb = true
   ↔ basicByDefault c path verb)
  ∧ (Headers_has (headers request) "Authorization" = false →
     let st' := (onRequest c st request).2 in
     (basicByDefault c path verb →
      ∀ auth, basicAuth c = Some auth →
        st' = (resolveBasicToken (host c) auth st).2
        ∧ supplierCalls st' = supplierCalls st)
     ∧ (¬ basicByDefault c path verb →
        cached st' = cached st ∧ encoded st' = encoded st)).
Proof.
  intros fullPathname path verb Hno.
  assert (shouldUseBasic c (lookupOverride c path fullPathname) path verb = true
          ↔ basicByDefault c path verb) as Hiff.
  { unfold shouldUseBasic, basicByDefault.
    set (schemes := resolveSecuritySchemes (compiledSecurityMap c) path verb).
    assert (includes schemes "APIKey" = true ↔ "APIKey" ∈ schemes) as Hinc
      by apply includes_true_iff.
    destruct Hno as [-> | ->]; cbn match;
      rewrite <- Hinc, !orb_true_iff;
      destruct (includes schemes "APIKey"); tauto. }
  split; [exact Hiff|].
  intros Hhas st'. subst st'. split.
  - intros Hyes%Hiff auth Hauth.
    rewrite (onRequest_basic_branch c st request auth Hhas Hyes Hauth).
    split; [done|apply resolveBasicToken_supplierCalls].
  - intros Hnot. apply onRequest_other_branch; [done|].
    destruct (shouldUseBasic c _ path verb) eqn:Hchoice; [|done].
    exfalso. by apply Hnot, Hiff.
Qed.

Lemma shouldUseBasic_default_resolution_witness :
  ((shouldUseBasic traceClient
      (lookupOverride traceClient "/charge" "/api/v4/charge")
      "/charge" "GET" = true
    ↔ basicByDefault traceClient "/charge" "GET")
   ∧ (onRequest traceClient initialState
        (requestTo "get" "/api/v4/charge" [])).2
     = {| cached := Some "a2V5Og=="; encoded := ["key:"];
          supplierCalls := 0 |})
  ∧ cached (onRequest traceClient initialState
              (requestTo "get" "/api/v4/users" [])).2 = None
  ∧ encoded (onRequest traceClient initialState
               (requestTo "get" "/api/v4/users" [])).2 = [].
Proof.
  split.
  - destruct (shouldUseBasic_default_resolution traceClient initialState
                (requestTo "get" "/api/v4/charge" []) (or_introl eq_refl))
      as [Hiff Hrun].
    split; [exact Hiff|].
    refine (proj1 (proj1 (Hrun eq_refl) (proj1 Hiff eq_refl)
                     {| username := "key"; password := None |} eq_refl)).
  - refine (proj2 (proj2 (shouldUseBasic_default_resolution traceClient
                            initialState (requestTo "get" "/api/v4/users" [])
                            (or_introl eq_refl)) eq_refl) _).
    intros [Hin | [Hend | [Hend | Hend]]]; try done.
    vm_compute in Hin. by apply elem_of_nil in Hin.
Defined.

(** ** Operation dispatcher *)

Lemma get_never_throws (c : Client) (target : gmap string Member)
    (prop : PropertyKey) :
  ∃ m target', get c target prop = (Ok m, target').
Proof.
  unfold get. destruct prop as [opId|]; [|eauto].
  destruct (String.eqb opId "then"); [eauto|].
  destruct (Reflect_has target opId); [eauto|].
  destruct (operationIdToPath c !! opId); eauto.
Qed.

(** C7. Reading a string property that is neither a known operation id
    nor populated on the merged client object (own or inherited) yields
    [undefined], raises nothing and leaves the object as it was; and no
    property read at all raises. *)
Theorem get_unknown_operation_undefined
    (c : Client) (target : gmap string Member) (opId : string) :
  operationIdToPath c !! opId = None →
  Reflect_has target opId = false →
  get c target (PString opId) = (Ok MUndefined, target)
  ∧ ∀ prop, ∃ m target', get c target prop = (Ok m, target').
Proof.
  intros Hunknown Hfresh. split; [|apply get_never_throws].
  unfold get. rewrite Hfresh, Hunknown. by destruct (String.eqb opId "then").
Qed.

Lemma get_unknown_operation_undefined_witness :
  get traceClient (mergedTarget ∅) (PString "no.such.op")
  = (Ok MUndefined, mergedTarget ∅).
Proof.
  apply (get_unknown_operation_undefined traceClient (mergedTarget ∅)
           "no.such.op"); by vm_compute.
Defined.

(** C1, as stated, fails: the unsupported verb is met by the [switch]
    inside the handler, so reading the property builds and returns the
    handler without raising, and it is the call of the handler that
    raises. *)
Lemma unsupported_verb_raised_at_call :
  switchVerb (toUpperCase "TRACE") = None
  ∧ ∃ h target',
      get traceClient (mergedTarget ∅) (PString "debug.trace")
      = (Ok (MHandler h), target')
      ∧ (invoke h VUndefined).1
        = Throw (Error "Unsupported method TRACE for debug.trace").
Proof.
  split; [reflexivity|].
  eexists _, _. split; [by vm_compute|]. by vm_compute.
Qed.

(** C1, amended.  Take an operation id whose mapping carries a verb
    that, in upper case, is outside GET/POST/PUT/PATCH/DELETE/HEAD/OPTIONS.
    Reading the property never raises.  When the id is [then], or names a
    property that the client object already has, its own ([raw], a key of
    the path-based client) or an inherited one ([constructor]), the read
    returns [undefined], respectively that property, and builds no
    handler: nothing ever raises for that mapping.  Otherwise the first
    read builds the handler, stores it and returns it, and a later read
    returns the stored handler; every call of that handler raises and
    hands nothing to the transport: the error names the verb as the
    mapping writes it and the operation id, unless substituting the path
    parameters has raised before the verb is looked at. *)
Theorem unsupported_verb_raised_by_handler
    (c : Client) (target : gmap string Member) (opId : string)
    (mapping : OperationMapping) :
  operationIdToPath c !! opId = Some mapping →
  switchVerb (toUpperCase (mappingMethod mapping)) = None →
  (opId = "then" → get c target (PString opId) = (Ok MUndefined, target))
  ∧ (opId ≠ "then" → Reflect_has target opId = true →
     get c target (PString opId) = (Ok (Reflect_get target opId), target))
  ∧ (opId ≠ "then" → Reflect_has target opId = false →
     ∃ h,
       get c target (PString opId)
       = (Ok (MHandler h), <[opId := MHandler h]> target)
       ∧ get c (<[opId := MHandler h]> target) (PString opId)
         = (Ok (MHandler h), <[opId := MHandler h]> target)
       ∧ ∀ options,
           (invoke h options).1
           = Throw (Error ("Unsupported method " +:+ mappingMethod mapping
                           +:+ " for " +:+ opId))
           ∨ ∃ e pathParams,
               handlerApplyParams h pathParams = Throw e
               ∧ (invoke h options).1 = Throw e).
Proof.
  intros Hmap Hverb. split; [|split].
  - intros ->. reflexivity.
  - intros Hthen%String.eqb_neq Hhas. unfold get. by rewrite Hthen, Hhas.
  - intros Hthen%String.eqb_neq Hfresh.
    exists (buildHandler c opId mapping). split; [|split].
    + unfold get. by rewrite Hthen, Hfresh, Hmap.
    + unfold get, Reflect_has, Reflect_get. rewrite Hthen, lookup_insert_eq.
      by rewrite bool_decide_eq_true_2 by eauto.
    + intros options. unfold invoke.
      destruct (normalizeRequestOptions options) as [optionsToSend warnings].
      cbn [fst].
      set (pathParams := match getParams optionsToSend with
                         | Some p => getProp p "path"
                         | None => VUndefined
                         end).
      destruct (handlerApplyParams (buildHandler c opId mapping) pathParams)
        as [finalPath|e] eqn:Happly.
      * left. cbn. by rewrite Hverb.
      * right. exists e, pathParams. by rewrite Happly.
Qed.

Lemma unsupported_verb_raised_by_handler_witness :
  (∃ h,
     get traceClient (mergedTarget ∅) (PString "debug.trace")
     = (Ok (MHandler h), <["debug.trace" := MHandler h]> (mergedTarget ∅))
     ∧ get traceClient (<["debug.trace" := MHandler h]> (mergedTarget ∅))
         (PString "debug.trace")
       = (Ok (MHandler h), <["debug.trace" := MHandler h]> (mergedTarget ∅))
     ∧ ∀ options,
         (invoke h options).1
         = Throw (Error ("Unsupported method " +:+ "TRACE"
                         +:+ " for " +:+ "debug.trace"))
         ∨ ∃ e pathParams,
             handlerApplyParams h pathParams = Throw e
             ∧ (invoke h options).1 = Throw e)
  ∧ get shadowedClient (mergedTarget ∅) (PString "then")
    = (Ok MUndefined, mergedTarget ∅)
  ∧ get shadowedClient (mergedTarget ∅) (PString "raw")
    = (Ok (MForeign "raw"), mergedTarget ∅).
Proof.
  split; [|split].
  - refine (proj2 (proj2 (unsupported_verb_raised_by_handler traceClient
                            (mergedTarget ∅) "debug.trace"
                            {| mappingPath := "/debug";
                               mappingMethod := "TRACE" |} _ _)) _ _);
      by vm_compute.
  - refine (proj1 (unsupported_verb_raised_by_handler shadowedClient
                     (mergedTarget ∅) "then"
                     {| mappingPath := "/then"; mappingMethod := "TRACE" |}
                     _ _) _);
      by vm_compute.
  - refine (proj1 (proj2 (unsupported_verb_raised_by_handler shadowedClient
                            (mergedTarget ∅) "raw"
                            {| mappingPath := "/raw"; mappingMethod := "TRACE" |}
                            _ _)) _ _);
      by vm_compute.
Defined.

(** ** Request options *)

Lemma assoc_assign_eq (props : list (string * value)) (key : string)
    (v : value) :
  assoc (assign props key v) key = Some v.
Proof.
  induction props as [|[k w] props IH]; cbn.
  - by rewrite String.eqb_refl.
  - destruct (String.eqb k key) eqn:Hk; cbn; rewrite Hk; [done|exact IH].
Qed.

Lemma assoc_assign_ne (props : list (string * value)) (key key' : string)
    (v : value) :
  key ≠ key' → assoc (assign props key v) key' = assoc props key'.
Proof.
  intros Hne. induction props as [|[k w] props IH]; cbn.
  - apply String.eqb_neq in Hne. by rewrite Hne.
  - destruct (String.eqb k key) eqn:Hk; cbn.
    + apply String.eqb_eq in Hk. subst k.
      apply String.eqb_neq in Hne. by rewrite Hne.
    + by rewrite IH.
Qed.

Lemma assoc_without_eq (props : list (string * value)) (key : string) :
  assoc (without key props) key = None.
Proof.
  unfold without. induction props as [|[k w] props IH]; [done|].
  rewrite filter_cons. cbn [fst]. case_decide as Hk; [|exact IH].
  cbn. apply String.eqb_neq in Hk. by rewrite Hk.
Qed.

(** C4. When the options object has an own [query] property, the
    normalised object has no top-level [query], and its [params.query] is
    the caller's [params.query] if that was already set, the legacy value
    otherwise. *)
Theorem normalizeRequestOptions_folds_legacy_query
    (custom : option string) (props : list (string * value)) :
  let options := VObject custom props in
  let out := (normalizeRequestOptions options).1 in
  hasOwnProperty options "query" = true →
  hasOwnProperty out "query" = false
  ∧ getProp (getProp out "params") "query"
    = if isUndefined (callerParamsQuery options)
      then getProp options "query"
      else callerParamsQuery options.
Proof.
  intros options out Hquery. subst out. unfold normalizeRequestOptions.
  change (truthy options) with true. change (typeof options) with "object".
  cbn [negb orb String.eqb Ascii.eqb Bool.eqb]. rewrite Hquery. cbn [fst].
  set (params := if truthy (getProp options "params")
                      && String.eqb (typeof (getProp options "params")) "object"
                 then Some (spread (getProp options "params")) else None).
  set (existing := default VUndefined (assoc (default [] params) "query")).
  assert (existing = callerParamsQuery options) as Hexisting.
  { subst existing params. unfold callerParamsQuery.
    destruct (getProp options "params"); cbn; rewrite ?andb_false_r; done. }
  split.
  - unfold hasOwnProperty. apply bool_decide_eq_false_2. cbn [ownProps].
    rewrite assoc_assign_ne by done. change (spread options) with props.
    rewrite assoc_without_eq. by intros [? ?].
  - unfold getProp at 2. cbn [ownProps]. rewrite assoc_assign_eq.
    unfold getProp at 1. rewrite <- Hexisting.
    destruct (isUndefined existing) eqn:Hundef.
    + cbn [from_option id ownProps]. by rewrite assoc_assign_eq.
    + reflexivity.
Qed.

Lemma normalizeRequestOptions_folds_legacy_query_witness :
  hasOwnProperty (VObject None legacyOptions) "query" = true
  ∧ hasOwnProperty (normalizeRequestOptions (VObject None legacyOptions)).1
      "query" = false
  ∧ getProp (getProp (normalizeRequestOptions (VObject None legacyOptions)).1
               "params") "query"
    = VObject None [("a", VNumber 1)].
Proof.
  split; [reflexivity|].
  apply (normalizeRequestOptions_folds_legacy_query None legacyOptions).
  reflexivity.
Defined.

(** ** Basic-token memoisation *)

Lemma resolveTimes_cached (h : Host) (auth : BasicAuth) (n : nat)
    (st : ClientState) (token : string) :
  cached st = Some token →
  resolveTimes h auth n st = (replicate n (Ok token), st).
Proof.
  intros Hc. induction n as [|n IH]; [done|].
  cbn [resolveTimes replicate].
  by rewrite (resolveBasicToken_cached h auth st token Hc), IH.
Qed.

(** While [btoa] rejects the credentials every call runs the encoder
    again. *)
Lemma resolveTimes_rejected (h : Host) (auth : BasicAuth) (n : nat)
    (st : ClientState) :
  encoderRejects h auth →
  cached st = None →
  resolveTimes h auth n st
  = (replicate n (Throw (DOMException "InvalidCharacterError")),
     {| cached := None;
        encoded := encoded st ++ replicate n (credentials auth);
        supplierCalls := supplierCalls st |}).
Proof.
  intros [Hbtoa Hlatin]. revert st.
  induction n as [|n IH]; intros st Hc.
  - cbn. rewrite app_nil_r. destruct st. cbn in Hc. by subst.
  - cbn [resolveTimes replicate]. unfold resolveBasicToken.
    rewrite Hc, Hbtoa. cbn [negb]. fold (credentials auth).
    unfold btoa. rewrite Hlatin. rewrite IH by done.
    cbn [encoded supplierCalls]. by rewrite <- app_assoc.
Qed.

Lemma resolveBasicToken_encodedOnce (h : Host) (auth : BasicAuth)
    (st : ClientState) :
  ¬ encoderRejects h auth →
  encodedOnce st → encodedOnce (resolveBasicToken h auth st).2.
Proof.
  intros Haccepts [Hnone Hlen]. unfold resolveBasicToken.
  destruct (cached st) as [token|] eqn:Hc.
  - split; cbn [snd]; [congruence|done].
  - specialize (Hnone eq_refl). fold (credentials auth).
    destruct (hasBtoa h) eqn:Hbtoa, (hasBuffer h); cbn [negb];
      try (split; cbn [snd cached encoded]; [done|]; rewrite Hnone; cbn; lia);
      unfold btoa;
      (destruct (latin1 (credentials auth)) eqn:Hlatin;
       [|exfalso; by apply Haccepts]);
      (split; cbn [snd cached encoded]; [done|]); rewrite Hnone; cbn; lia.
Qed.

Lemma onRequest_encodedOnce (c : Client) (st : ClientState)
    (request : Request) :
  (∀ auth, basicAuth c = Some auth → ¬ encoderRejects (host c) auth) →
  encodedOnce st → encodedOnce (onRequest c st request).2.
Proof.
  intros Haccepts Hst.
  destruct (Headers_has (headers request) "Authorization") eqn:Hhas.
  { unfold onRequest. by rewrite Hhas. }
  set (fullPathname := pathname (url request)).
  set (path := stripBasePath fullPathname (basePath c)).
  destruct (shouldUseBasic c (lookupOverride c path fullPathname) path
              (toUpperCase (method request))) eqn:Hchoice.
  - destruct (basicAuth c) as [auth|] eqn:Hauth.
    + rewrite (onRequest_basic_branch c st request auth Hhas Hchoice Hauth).
      apply resolveBasicToken_encodedOnce; [by apply Haccepts|done].
    + unfold onRequest. rewrite Hhas. cbn [negb].
      fold fullPathname. fold path. rewrite Hchoice, Hauth.
      destruct (getAccessToken c) as [supplier|]; [|done].
      cbn zeta. destruct (supplier (supplierCalls st)) as [token|e]; [|done].
      by destruct (negb (String.eqb token "")).
  - destruct (onRequest_other_branch c st request Hhas Hchoice) as [Hc He].
    destruct Hst as [Hnone Hlen]. split; rewrite ?Hc, ?He; done.
Qed.

Lemma runRequests_encodedOnce (c : Client) (requests : list Request)
    (st : ClientState) :
  (∀ auth, basicAuth c = Some auth → ¬ encoderRejects (host c) auth) →
  encodedOnce st → encodedOnce (runRequests c st requests).
Proof.
  intros Haccepts. revert st.
  induction requests as [|request rest IH]; intros st Hst; [done|].
  cbn [runRequests]. apply IH. by apply onRequest_encodedOnce.
Qed.

(** C8, as stated, fails: when [btoa] raises on the credentials, the
    assignment to [cached] is not reached, so the next call of the
    resolver runs the encoder again.  With the key [ключ] on a host with
    [btoa], two calls, and two requests to [/charge], run it twice, and
    no call returns a token. *)
Lemma resolveBasicToken_reencodes_after_failure :
  basicAuth cyrillicKeyClient
  = Some {| username := "ключ"; password := None |}
  ∧ resolveTimes (host cyrillicKeyClient)
      {| username := "ключ"; password := None |} 2 initialState
    = ([ Throw (DOMException "InvalidCharacterError");
         Throw (DOMException "InvalidCharacterError") ],
       {| cached := None; encoded := ["ключ:"; "ключ:"];
          supplierCalls := 0 |})
  ∧ encoded (runRequests cyrillicKeyClient initialState
               [ requestTo "get" "/api/v4/charge" [];
                 requestTo "post" "/api/v4/charge" [] ])
    = ["ключ:"; "ключ:"].
Proof. by vm_compute. Qed.

(** C8, amended.  When the host's encoder accepts [username:password]
    (an absent password read as empty), the first call of the token
    resolver computes the token, with one run of the encoding routine at
    most; every later call returns that same string and leaves the closure
    state, the record of encoding runs included, as it is; and whatever
    requests the middleware has seen, on whatever paths, the encoding
    routine has run at most once.  The token is what [btoa] gives when
    the host has it, else what [Buffer] gives, else the empty string.
    When the host has [btoa] and a character of the credentials is above
    U+00FF, every call of the resolver runs the encoder, raises, and
    caches nothing. *)
Theorem resolveBasicToken_computed_once
    (c : Client) (auth : BasicAuth) (n : nat) (requests : list Request) :
  basicAuth c = Some auth →
  let first := resolveBasicToken (host c) auth initialState in
  (¬ encoderRejects (host c) auth →
   ∃ token,
     first.1 = Ok token
     ∧ resolveTimes (host c) auth n first.2 = (replicate n (Ok token), first.2)
     ∧ (if hasBtoa (host c) then btoa (credentials auth) = Ok token
        else if hasBuffer (host c)
        then token = Buffer_base64 (credentials auth)
        else token = "")
     ∧ (length (encoded first.2) ≤ 1)%nat
     ∧ (length (encoded (runRequests c initialState requests)) ≤ 1)%nat)
  ∧ (encoderRejects (host c) auth →
     resolveTimes (host c) auth n initialState
     = (replicate n (Throw (DOMException "InvalidCharacterError")),
        {| cached := None; encoded := replicate n (credentials auth);
           supplierCalls := 0 |})).
Proof.
  intros Hauth first.
  assert (encodedOnce initialState) as Hinit by (split; [done|cbn; lia]).
  split.
  - intros Haccepts.
    assert (∀ auth', basicAuth c = Some auth' →
                     ¬ encoderRejects (host c) auth') as Hall
      by (intros auth' Hauth'; congruence).
    destruct first as [[token|e] st1] eqn:Hfirst; subst first.
    2:{ by apply resolveBasicToken_raises in Hfirst as [? _]. }
    exists token. cbn [fst snd]. split; [done|].
    split; [by eapply resolveTimes_cached, resolveBasicToken_caches|].
    split; [|split].
    + revert Hfirst. unfold resolveBasicToken. cbn [cached initialState].
      fold (credentials auth).
      destruct (hasBtoa (host c)), (hasBuffer (host c)); cbn [negb];
        try (by intros [= <- _]);
        destruct (btoa (credentials auth)); by intros [= <- _].
    + pose proof (resolveBasicToken_encodedOnce (host c) auth initialState
                    Haccepts Hinit) as [_ Hlen].
      by rewrite Hfirst in Hlen.
    + by apply (runRequests_encodedOnce c requests _ Hall) in Hinit as [_ ?].
  - intros Hrejects.
    by rewrite (resolveTimes_rejected _ _ n initialState Hrejects).
Qed.

Lemma resolveBasicToken_computed_once_witness :
  (∃ token,
     (resolveBasicToken (host traceClient)
        {| username := "key"; password := None |} initialState).1 = Ok token
     ∧ resolveTimes (host traceClient)
         {| username := "key"; password := None |}
         3 (resolveBasicToken (host traceClient)
              {| username := "key"; password := None |} initialState).2
       = (replicate 3 (Ok token),
          (resolveBasicToken (host traceClient)
             {| username := "key"; password := None |} initialState).2)
     ∧ btoa "key:" = Ok token
     ∧ (length (encoded (resolveBasicToken (host traceClient)
                           {| username := "key"; password := None |}
                           initialState).2) ≤ 1)%nat
     ∧ (length (encoded (runRequests traceClient initialState
                           [ requestTo "get" "/api/v4/charge" [];
                             requestTo "get" "/api/v4/p2p/charge" [] ]))
        ≤ 1)%nat)
  ∧ resolveTimes (host cyrillicKeyClient)
      {| username := "ключ"; password := None |} 3 initialState
    = (replicate 3 (Throw (DOMException "InvalidCharacterError")),
       {| cached := None; encoded := replicate 3 "ключ:";
          supplierCalls := 0 |}).
Proof.
  split.
  - apply (resolveBasicToken_computed_once traceClient
             {| username := "key"; password := None |} 3
             [ requestTo "get" "/api/v4/charge" [];
               requestTo "get" "/api/v4/p2p/charge" [] ] eq_refl).
    by intros [_ ?].
  - apply (resolveBasicToken_computed_once cyrillicKeyClient
             {| username := "ключ"; password := None |} 3 [] eq_refl).
    by split.
Defined.

(** ** Path templates *)

Lemma app_empty_r (s : string) : s +:+ "" = s.
Proof. induction s as [|c s IH]; [done|]. by rewrite app_cons, IH. Qed.

Lemma app_assoc' (s t u : string) : (s +:+ t) +:+ u = s +:+ t +:+ u.
Proof. induction s as [|c s IH]; [done|]. by rewrite !app_cons, IH. Qed.

Lemma length_app (s t : string) :
  String.length (s +:+ t) = (String.length s + String.length t)%nat.
Proof. induction s as [|c s IH]; [done|]. rewrite app_cons. cbn. by rewrite IH. Qed.

Lemma spanName_app (s name rest : string) :
  spanName s = (name, rest) → s = name +:+ rest.
Proof.
  revert name rest. induction s as [|c s IH]; intros name rest; cbn.
  - by intros [= <- <-].
  - destruct (isBrace c); [by intros [= <- <-]|].
    destruct (spanName s) as [name' rest']. intros [= <- <-].
    rewrite app_cons. f_equal. by apply IH.
Qed.

(** A match at the head of [s] is [{name}] with a non-empty name. *)
Lemma matchParamAt_Some (s name rest : string) :
  matchParamAt s = Some (name, rest) →
  s = "{" +:+ name +:+ "}" +:+ rest ∧ name ≠ "".
Proof.
  unfold matchParamAt. destruct s as [|c s]; [done|].
  destruct (Ascii.eqb c "{") eqn:Hc; [|done].
  apply Ascii.eqb_eq in Hc. subst c.
  destruct (spanName s) as [[|n name'] [|d rest']] eqn:Hspan; try done.
  destruct (Ascii.eqb d "}") eqn:Hd; [|done].
  apply Ascii.eqb_eq in Hd. subst d. intros [= <- <-].
  split; [|done]. apply spanName_app in Hspan. by rewrite Hspan.
Qed.

Lemma matchParamAt_shorter (s name rest : string) :
  matchParamAt s = Some (name, rest) →
  (String.length rest < String.length s)%nat.
Proof.
  intros [-> _]%matchParamAt_Some. rewrite !length_app. cbn. lia.
Qed.

Lemma matchAllFrom_nonempty (fuel : nat) (s name : string) :
  name ∈ matchAllFrom fuel s → name ≠ "".
Proof.
  revert s. induction fuel as [|fuel IH]; intros s; [by intros ?%elem_of_nil|].
  destruct s as [|c s]; [by intros ?%elem_of_nil|].
  cbn [matchAllFrom].
  destruct (matchParamAt (String c s)) as [[name' rest]|] eqn:Hm; [|apply IH].
  intros [-> | Hin]%elem_of_cons; [|by apply (IH rest)].
  by apply matchParamAt_Some in Hm as [_ ?].
Qed.

(** Splitting and matching take the same steps: one more part than
    names. *)
Lemma length_splitFrom (fuel : nat) (s lit : string) :
  length (splitFrom fuel s lit) = S (length (matchAllFrom fuel s)).
Proof.
  revert s lit. induction fuel as [|fuel IH]; intros s lit; [by destruct s|].
  destruct s as [|c s]; [done|]. cbn [splitFrom matchAllFrom].
  destruct (matchParamAt (String c s)) as [[name rest]|]; [|apply IH].
  cbn [length]. by rewrite IH.
Qed.

(** Putting the placeholders back between the parts gives the text that
    was split. *)
Lemma interleave_placeholders (fuel : nat) (s lit : string) :
  (String.length s ≤ fuel)%nat →
  interleave (splitFrom fuel s lit) (placeholder <$> matchAllFrom fuel s)
  = lit +:+ s.
Proof.
  revert s lit. induction fuel as [|fuel IH]; intros s lit Hlen.
  - destruct s; [done|cbn in Hlen; lia].
  - destruct s as [|c s]; [done|]. cbn [splitFrom matchAllFrom].
    destruct (matchParamAt (String c s)) as [[name rest]|] eqn:Hm.
    + pose proof (matchParamAt_shorter _ _ _ Hm) as Hshort.
      apply matchParamAt_Some in Hm as [Hs _].
      cbn [fmap list_fmap interleave]. fold (@fmap list _ _ _ placeholder).
      rewrite IH by lia. rewrite Hs. unfold placeholder.
      by rewrite !app_assoc'.
    + cbn in Hlen. rewrite IH by lia. by rewrite app_assoc'.
Qed.

Lemma interleave_templates (path : string) :
  interleave (splitParams path) (placeholder <$> matchAllParams path) = path.
Proof. unfold splitParams, matchAllParams. by rewrite interleave_placeholders. Qed.

Lemma toPathParamSegment_stringForm (key : string) (v : value)
    (str : string) :
  stringForm v = Some str → toPathParamSegment key v = Ok str.
Proof.
  destruct v as [| |b|n|n|s'|d|[iso|]|[custom|] props]; cbn;
    try done; by intros [= <-].
Qed.

Lemma toPathParamSegment_no_form (key : string) (v : value) :
  stringForm v = None → ∃ e, toPathParamSegment key v = Throw e.
Proof.
  destruct v as [| |b|n|n|s'|d|[iso|]|[custom|] props]; cbn;
    try done; by eauto.
Qed.

(** An encodable value is written as the percent-encoding of its string
    form; any other supplied value makes the slot raise. *)
Lemma encodable_segment (key : string) (v : value) :
  encodable v = true →
  toPathParamSegment key v ≫= encodeURIComponent
  = Ok (percentEncode (default "" (stringForm v))).
Proof.
  unfold encodable. destruct (stringForm v) as [form|] eqn:Hform; [|done].
  intros Hwell%negb_true_iff.
  rewrite (toPathParamSegment_stringForm key v form Hform).
  cbn. unfold encodeURIComponent. by rewrite Hwell.
Qed.

Lemma not_encodable_segment (key : string) (v : value) :
  encodable v = false →
  ∃ e, toPathParamSegment key v ≫= encodeURIComponent = Throw e.
Proof.
  unfold encodable. destruct (stringForm v) as [form|] eqn:Hform.
  - intros Hlone%negb_false_iff.
    rewrite (toPathParamSegment_stringForm key v form Hform).
    cbn. unfold encodeURIComponent. rewrite Hlone. by eauto.
  - intros _. destruct (toPathParamSegment_no_form key v Hform) as [e ->].
    by eauto.
Qed.

(** The segment computed for one key, in terms of what is supplied. *)
Lemma slot_outcome (pathParams : value) (key : string) :
  truthy pathParams = true →
  key ≠ "" →
  (if negb (String.eqb key "") && hasOwnProperty pathParams key then
     let rawValue := getProp pathParams key in
     if negb (isUndefined rawValue) && negb (isNull rawValue)
     then toPathParamSegment key rawValue ≫= encodeURIComponent
     else Ok (placeholder key)
   else Ok (placeholder key))
  = match suppliedValue pathParams key with
    | Some v => toPathParamSegment key v ≫= encodeURIComponent
    | None => Ok (placeholder key)
    end.
Proof.
  intros Htruthy Hkey. apply String.eqb_neq in Hkey. rewrite Hkey.
  unfold suppliedValue. rewrite Htruthy. cbn [negb andb].
  destruct (hasOwnProperty pathParams key); [|done].
  by destruct (getProp pathParams key).
Qed.

(** One turn of the loop appends the slot text of its key. *)
Lemma applyParamsLoop_step (parts : list string) (pathParams : value)
    (i : nat) (key : string) (keys : list string) (acc : string) :
  truthy pathParams = true →
  key ≠ "" →
  (∀ v, suppliedValue pathParams key = Some v → encodable v = true) →
  applyParamsLoop parts pathParams i (key :: keys) acc
  = applyParamsLoop parts pathParams (S i) keys
      (acc +:+ slotText pathParams key +:+ nth (S i) parts "").
Proof.
  intros Htruthy Hkey Hform. cbn [applyParamsLoop].
  pose proof (slot_outcome pathParams key Htruthy Hkey) as Hslot.
  cbn zeta in Hslot. rewrite Hslot. unfold slotText.
  destruct (suppliedValue pathParams key) as [v|]; [|done].
  by rewrite (encodable_segment key v (Hform v eq_refl)).
Qed.

Lemma applyParamsLoop_interleave (parts : list string) (pathParams : value)
    (keys : list string) (i : nat) (pre : string) :
  truthy pathParams = true →
  (i + length keys < length parts)%nat →
  (∀ key, key ∈ keys → key ≠ "") →
  (∀ key v, key ∈ keys → suppliedValue pathParams key = Some v →
            encodable v = true) →
  applyParamsLoop parts pathParams i keys (pre +:+ nth i parts "")
  = Ok (pre +:+ interleave (drop i parts) (slotText pathParams <$> keys)).
Proof.
  intros Htruthy. revert i pre.
  induction keys as [|key keys IH]; intros i pre Hlen Hne Hform.
  - cbn [length] in Hlen.
    destruct (lookup_lt_is_Some_2 parts i) as [part Hpart]; [lia|].
    rewrite (drop_S _ _ _ Hpart), nth_lookup, Hpart. done.
  - cbn [length] in Hlen.
    destruct (lookup_lt_is_Some_2 parts i) as [part Hpart]; [lia|].
    rewrite applyParamsLoop_step;
      [|done|apply Hne; by left|intros v; apply Hform; by left].
    rewrite <- (app_assoc' (pre +:+ nth i parts "")).
    rewrite IH; [|lia|intros; apply Hne; by right
                 |intros k v ?; apply Hform; by right].
    rewrite (drop_S _ _ _ Hpart), nth_lookup, Hpart.
    cbn [fmap list_fmap interleave default from_option id].
    by rewrite !app_assoc'.
Qed.

(** The first key, from the left, whose supplied value is not encodable
    ends the loop with what that slot raises. *)
Lemma applyParamsLoop_first_failure (parts : list string) (pathParams : value)
    (before after : list string) (key : string) (v : value) (e : exn)
    (i : nat) (acc : string) :
  truthy pathParams = true →
  (∀ k, k ∈ before → k ≠ "") →
  key ≠ "" →
  (∀ k w, k ∈ before → suppliedValue pathParams k = Some w →
          encodable w = true) →
  suppliedValue pathParams key = Some v →
  toPathParamSegment key v ≫= encodeURIComponent = Throw e →
  applyParamsLoop parts pathParams i (before ++ key :: after) acc = Throw e.
Proof.
  intros Htruthy Hne Hkey Hform Hsupplied Hthrow. revert i acc.
  induction before as [|k before IH]; intros i acc.
  - cbn [app applyParamsLoop].
    pose proof (slot_outcome pathParams key Htruthy Hkey) as Hslot.
    cbn zeta in Hslot. by rewrite Hslot, Hsupplied, Hthrow.
  - cbn [app]. rewrite applyParamsLoop_step;
      [|done|apply Hne; by left|intros w; apply Hform; by left].
    apply IH; [intros; apply Hne; by right
              |intros k' w ?; apply Hform; by right].
Qed.


(** *** Percent-encoding read back *)





(** What it raises when the slot of [key] is the first that cannot. *)
Lemma compilePathTemplate_raises (path : string) (pathParams : value)
    (before after : list string) (key : string) (v : value) :
  matchAllParams path = before ++ key :: after →
  (∀ k w, k ∈ before → suppliedValue pathParams k = Some w →
          encodable w = true) →
  suppliedValue pathParams key = Some v →
  encodable v = false →
  ∃ e, toPathParamSegment key v ≫= encodeURIComponent = Throw e
       ∧ compilePathTemplate path pathParams = Throw e.
Proof.
  intros Hkeys Hform Hsupplied Hnone.
  destruct (not_encodable_segment key v Hnone) as [e He].
  exists e. split; [done|].
  assert (truthy pathParams = true) as Htruthy.
  { unfold suppliedValue in Hsupplied. by destruct (truthy pathParams). }
  assert (∀ k, k ∈ before ++ key :: after → k ≠ "") as Hne.
  { intros k Hk. rewrite <- Hkeys in Hk. by apply matchAllFrom_nonempty in Hk. }
  unfold compilePathTemplate. rewrite Hkeys.
  destruct (before ++ key :: after) as [|k0 ks] eqn:Hlist; [by destruct before|].
  cbn [length Nat.eqb]. rewrite Htruthy. cbn [negb]. rewrite <- Hlist in *.
  apply (applyParamsLoop_first_failure _ _ _ _ _ v); try done.
  - intros k Hk. apply Hne. apply elem_of_app. by left.
  - apply Hne. apply elem_of_app. right. by left.
Qed.




(** * Further properties *)

(** ** Transition tables *)

Section Chains.
Context {A : Type} (valid : A → A → bool) (rank : A → nat) (top : nat).
Hypothesis valid_rank : ∀ a b, valid a b = true → (rank a < rank b)%nat.
Hypothesis rank_top : ∀ a, (rank a ≤ top)%nat.

(** Along a chain the rank grows, so no state comes back and the chain
    ends before the ranks are used up. *)
Lemma chain_ranked (a : A) (l : list A) :
  chain valid (a :: l) = true →
  Forall (λ x, (rank a < rank x)%nat) l
  ∧ NoDup (a :: l)
  ∧ (length (a :: l) + rank a ≤ S top)%nat.
Proof.
  revert a. induction l as [|b l IH]; intros a Hchain.
  - split; [constructor|]. split; [apply NoDup_singleton|].
    cbn. pose proof (rank_top a). lia.
  - cbn [chain] in Hchain. apply andb_true_iff in Hchain as [Hab Hrest].
    apply valid_rank in Hab.
    destruct (IH b Hrest) as (Hall & Hnodup & Hlen).
    assert (Forall (λ x, (rank a < rank x)%nat) (b :: l)) as Hall'.
    { constructor; [done|].
      eapply Forall_impl; [exact Hall|]. cbn. intros x ?. lia. }
    split; [done|]. split.
    + constructor; [|done]. intros Hin.
      rewrite Forall_forall in Hall'. specialize (Hall' _ Hin). lia.
    + cbn [length] in *. lia.
Qed.

Lemma chain_no_revisit (l : list A) :
  chain valid l = true → NoDup l ∧ (length l ≤ S top)%nat.
Proof.
  destruct l as [|a l]; [intros _; split; [constructor|cbn; lia]|].
  intros (_ & ? & ?)%chain_ranked. split; [done|lia].
Qed.
End Chains.

Lemma isValidOnlineTransition_rank
    (a b : WebhooksState.TrustapOnlineTransactionState) :
  WebhooksState.isValidOnlineTransition a b = true →
  (onlineRank a < onlineRank b)%nat.
Proof. destruct a, b; vm_compute; (discriminate || lia). Qed.

Lemma isValidF2FTransition_rank (a b : F2FState.TrustapF2FTransactionState) :
  F2FState.isValidF2FTransition a b = true → (f2fRank a < f2fRank b)%nat.
Proof. destruct a, b; vm_compute; (discriminate || lia). Qed.

(** X1. The online transition table has no cycle: a sequence of states
    in which every step is a valid transition never visits a state twice,
    and has at most seven states. *)
Theorem online_transitions_never_revisit
    (l : list WebhooksState.TrustapOnlineTransactionState) :
  chain WebhooksState.isValidOnlineTransition l = true →
  NoDup l ∧ (length l ≤ 7)%nat.
Proof.
  apply (chain_no_revisit _ onlineRank 6 isValidOnlineTransition_rank).
  intros a. destruct a; cbn; lia.
Qed.

Lemma online_transitions_never_revisit_witness :
  NoDup [ WebhooksState.created; WebhooksState.joined; WebhooksState.paid;
          WebhooksState.tracked; WebhooksState.delivered;
          WebhooksState.complained; WebhooksState.funds_released ].
Proof.
  refine (proj1 (online_transitions_never_revisit
                   [ WebhooksState.created; WebhooksState.joined;
                     WebhooksState.paid; WebhooksState.tracked;
                     WebhooksState.delivered; WebhooksState.complained;
                     WebhooksState.funds_released ] _)).
  reflexivity.
Defined.

(** X2. The face-to-face transition table has no cycle either: a chain
    of valid transitions never visits a state twice and has at most eight
    states. *)
Theorem f2f_transitions_never_revisit
    (l : list F2FState.TrustapF2FTransactionState) :
  chain F2FState.isValidF2FTransition l = true →
  NoDup l ∧ (length l ≤ 8)%nat.
Proof.
  apply (chain_no_revisit _ f2fRank 7 isValidF2FTransition_rank).
  intros a. destruct a; cbn; lia.
Qed.

Lemma f2f_transitions_never_revisit_witness :
  NoDup [ F2FState.created; F2FState.joined; F2FState.deposit_paid;
          F2FState.deposit_accepted; F2FState.remainder_skipped;
          F2FState.buyer_handover_confirmed; F2FState.complained;
          F2FState.funds_released ].
Proof.
  refine (proj1 (f2f_transitions_never_revisit
                   [ F2FState.created; F2FState.joined; F2FState.deposit_paid;
                     F2FState.deposit_accepted; F2FState.remainder_skipped;
                     F2FState.buyer_handover_confirmed; F2FState.complained;
                     F2FState.funds_released ] _)).
  reflexivity.
Defined.

(** ** Webhook mappers and schemas *)

(** X3. [mapWebhookToF2FState] maps each of the twenty known
    face-to-face codes to a state and every other string to null. *)
Theorem mapWebhookToF2FState_total (code : string) :
  ((code ∈ F2FState.f2fWebhookEventCodes)
   ∧ is_Some (F2FState.mapWebhookToF2FState code))
  ∨ ((code ∉ F2FState.f2fWebhookEventCodes)
     ∧ F2FState.mapWebhookToF2FState code = None).
Proof.
  unfold F2FState.mapWebhookToF2FState.
  destruct (includes F2FState.f2fWebhookEventCodes code) eqn:Hinc.
  - apply includes_true_iff in Hinc. left. split; [done|].
    cbn [negb]. pose proof Hinc as Hmem.
    each_member Hmem; eexists; vm_compute; reflexivity.
  - apply includes_false_iff in Hinc. right. done.
Qed.

(** X4. No event code is mapped by both mappers: whatever the string,
    the online mapper or the face-to-face mapper answers null. *)
Theorem webhook_mappers_disjoint (code : string) :
  WebhooksState.mapWebhookToOnlineState code = None
  ∨ F2FState.mapWebhookToF2FState code = None.
Proof.
  unfold WebhooksState.mapWebhookToOnlineState.
  destruct (includes WebhooksState.onlineWebhookEventCodes code) eqn:Hinc;
    [|by left].
  right. apply includes_true_iff in Hinc.
  each_member Hinc; by vm_compute.
Qed.

Lemma mapWebhookToTrustapState_known (code : string) :
  is_Some (StateMachine.mapWebhookToTrustapState code)
  ↔ code ∈ StateMachine.trustapWebhookEventCodes.
Proof.
  unfold StateMachine.mapWebhookToTrustapState.
  destruct (includes StateMachine.trustapWebhookEventCodes code) eqn:Hinc;
    cbn [negb].
  - apply includes_true_iff in Hinc. split; [done|]. intros _.
    pose proof Hinc as Hmem.
    each_member Hmem; eexists; vm_compute; reflexivity.
  - apply includes_false_iff in Hinc. split; [by intros [? ?]|done].
Qed.

Lemma find_by_code (eventCode : string)
    (schemas : list WebhookSchemas.EventSchema) :
  is_Some (find (λ schema, String.eqb (WebhookSchemas.code schema) eventCode)
             schemas)
  ↔ eventCode ∈ WebhookSchemas.code <$> schemas.
Proof.
  induction schemas as [|schema schemas IH]; cbn [find fmap list_fmap].
  - split; [by intros [? ?]|by intros ?%elem_of_nil].
  - rewrite elem_of_cons.
    destruct (String.eqb (WebhookSchemas.code schema) eventCode) eqn:Heq.
    + apply String.eqb_eq in Heq. split; [by left|by eauto].
    + apply String.eqb_neq in Heq. rewrite IH.
      split; [by right|by intros [?|?]].
Qed.

(** X5. The validator and the state machine know the same events: the
    discriminated union has a member for a code exactly when
    [mapWebhookToTrustapState] maps that code to a state, and no two
    members share a code. *)
Theorem schema_codes_are_mapped_codes (eventCode : string) :
  (is_Some (WebhookSchemas.schemaFor eventCode)
   ↔ is_Some (StateMachine.mapWebhookToTrustapState eventCode))
  ∧ NoDup (WebhookSchemas.code <$> WebhookSchemas.trustapWebhookEventSchema).
Proof.
  split.
  - unfold WebhookSchemas.schemaFor.
    by rewrite find_by_code, mapWebhookToTrustapState_known.
  - apply (bool_decide_unpack _). by vm_compute.
Qed.

(** ** Strings *)

Lemma substring_0_0 (s : string) : String.substring 0 0 s = "".
Proof. by destruct s. Qed.

Lemma substring_all (s : string) : String.substring 0 (String.length s) s = s.
Proof. induction s as [|c s IH]; [done|]. cbn. by rewrite IH. Qed.

Lemma substring_split (s : string) (e : nat) :
  (e ≤ String.length s)%nat →
  s = String.substring 0 e s +:+ String.substring e (String.length s - e) s.
Proof.
  revert e. induction s as [|c s IH]; intros e He.
  - cbn in He. by replace e with 0 by lia.
  - destruct e as [|e].
    + cbn [String.substring]. replace (String.length (String c s) - 0)%nat
        with (S (String.length s)) by (cbn; lia).
      cbn [String.substring]. by rewrite substring_all.
    + cbn in He. cbn [String.substring String.length Nat.sub].
      rewrite app_cons. f_equal. apply IH. lia.
Qed.

Lemma length_substring_0 (s : string) (e : nat) :
  (e ≤ String.length s)%nat → String.length (String.substring 0 e s) = e.
Proof.
  revert e. induction s as [|c s IH]; intros e He.
  - cbn in He. by replace e with 0 by lia.
  - destruct e as [|e]; [done|]. cbn in *. rewrite IH; lia.
Qed.

Lemma substring_app_l (s t : string) :
  String.substring 0 (String.length s) (s +:+ t) = s.
Proof.
  induction s as [|c s IH]; [apply substring_0_0|].
  rewrite app_cons. cbn [String.length String.substring]. by rewrite IH.
Qed.

Lemma substring_app_r (s t : string) :
  String.substring (String.length s) (String.length t) (s +:+ t) = t.
Proof. induction s as [|c s IH]; [apply substring_all|]. exact IH. Qed.

Lemma prefix_app (s t : string) : String.prefix s (s +:+ t) = true.
Proof.
  induction s as [|c s IH]; [by destruct t|].
  rewrite app_cons. cbn [String.prefix].
  destruct (ascii_dec c c); [exact IH|done].
Qed.

Lemma startsWith_slash (s : string) :
  startsWith s "/" = true ↔ ∃ s', s = String "/" s'.
Proof.
  unfold startsWith. destruct s as [|c s]; cbn [String.prefix].
  - split; [done|by intros [? ?]].
  - destruct (ascii_dec "/" c) as [<-|Hne].
    + split; [by eauto|]. intros _. by destruct s.
    + split; [done|]. intros [s' [= -> _]]. done.
Qed.

Lemma sliceFrom_cons (c : ascii) (s : string) : sliceFrom (String c s) 1 = s.
Proof.
  unfold sliceFrom. cbn [String.length Nat.sub String.substring].
  rewrite Nat.sub_0_r. apply substring_all.
Qed.

Lemma endsWith_lastIsSlash (s : string) : endsWith s "/" = lastIsSlash s.
Proof.
  unfold endsWith, sliceFrom. induction s as [|c s IH]; [done|].
  destruct s as [|d s].
  - cbn. by destruct (Ascii.eqb c "/").
  - change (lastIsSlash (String c (String d s)))
      with (lastIsSlash (String d s)).
    rewrite <- IH. cbn [String.length Nat.leb].
    replace (S (S (String.length s)) - 1)%nat with (S (String.length s))
      by lia.
    replace (S (S (String.length s)) - S (String.length s))%nat with 1%nat
      by lia.
    replace (S (String.length s) - 1)%nat with (String.length s) by lia.
    replace (S (String.length s) - String.length s)%nat with 1%nat by lia.
    reflexivity.
Qed.

Lemma lastIsSlash_app_slashes (r : string) (k : nat) :
  lastIsSlash (r +:+ slashes (S k)) = true.
Proof.
  induction r as [|c r IH].
  - induction k as [|k IHk]; [done|]. exact IHk.
  - rewrite app_cons. cbn [lastIsSlash].
    destruct (r +:+ slashes (S k)) eqn:E; [|exact IH].
    by destruct r.
Qed.

(** ** Base paths *)

Lemma get_lt (s : string) (n : nat) :
  (n < String.length s)%nat → ∃ c, String.get n s = Some c.
Proof.
  revert n. induction s as [|c s IH]; intros n Hn; [cbn in Hn; lia|].
  destruct n as [|n]; [by eauto|]. cbn in *. apply IH. lia.
Qed.

Lemma substring_snoc (s : string) (n : nat) (c : ascii) :
  String.get n s = Some c →
  String.substring 0 (S n) s = String.substring 0 n s +:+ String c "".
Proof.
  revert n. induction s as [|d s IH]; intros n; [done|].
  destruct n as [|n].
  - cbn. intros [= ->]. by rewrite substring_0_0.
  - cbn [String.get]. intros Hget.
    change (String.substring 0 (S (S n)) (String d s))
      with (String d (String.substring 0 (S n) s)).
    change (String.substring 0 (S n) (String d s))
      with (String d (String.substring 0 n s)).
    by rewrite (IH _ Hget), app_cons.
Qed.

Lemma slashes_snoc (k : nat) : slashes k +:+ "/" = slashes (S k).
Proof. induction k as [|k IH]; [done|]. cbn [slashes]. by rewrite app_cons, IH. Qed.

Lemma lastIsSlash_snoc (r : string) (c : ascii) :
  lastIsSlash (r +:+ String c "") = Ascii.eqb c "/".
Proof.
  induction r as [|d r IH]; [done|]. rewrite app_cons. cbn [lastIsSlash].
  destruct (r +:+ String c "") eqn:E; [by destruct r|exact IH].
Qed.

(** What the loop of [removeTrailingSlash] leaves: the end of the text
    before its trailing run of slashes. *)
Lemma trailingSlashEnd_spec (value : string) (n : nat) :
  (n ≤ String.length value)%nat →
  ∃ k, (trailingSlashEnd value n + k = n)%nat
       ∧ String.substring 0 n value
         = String.substring 0 (trailingSlashEnd value n) value +:+ slashes k
       ∧ lastIsSlash (String.substring 0 (trailingSlashEnd value n) value)
         = false.
Proof.
  induction n as [|n IH]; intros Hn.
  - exists 0. cbn. by rewrite substring_0_0.
  - cbn [trailingSlashEnd]. case_bool_decide as Hget.
    + destruct IH as (k & Hk & Hsub & Hlast); [lia|].
      exists (S k). split; [lia|]. split; [|done].
      by rewrite (substring_snoc _ _ _ Hget), Hsub, app_assoc', slashes_snoc.
    + exists 0. split; [lia|]. split; [by rewrite app_empty_r|].
      destruct (get_lt value n) as [c Hc]; [lia|].
      rewrite (substring_snoc _ _ _ Hc), lastIsSlash_snoc.
      apply Ascii.eqb_neq. intros ->. done.
Qed.

Lemma removeTrailingSlash_run (value : string) :
  ∃ k, value = removeTrailingSlash value +:+ slashes k
       ∧ lastIsSlash (removeTrailingSlash value) = false.
Proof.
  destruct (trailingSlashEnd_spec value (String.length value))
    as (k & Hk & Hsub & Hlast); [done|].
  unfold removeTrailingSlash, sliceTo.
  rewrite Nat.min_l by lia. exists k.
  split; [|done]. by rewrite <- Hsub, substring_all.
Qed.

(** X6. [removeTrailingSlash] removes the trailing run of slashes and
    nothing else: the text is the result followed by slashes only, and
    the result does not end with a slash. *)
Theorem removeTrailingSlash_strips_the_run (value : string) :
  ∃ k, value = removeTrailingSlash value +:+ slashes k
       ∧ endsWith (removeTrailingSlash value) "/" = false.
Proof.
  destruct (removeTrailingSlash_run value) as (k & Hk & Hlast).
  exists k. by rewrite endsWith_lastIsSlash.
Qed.

Lemma startsWith_cons (c : ascii) (s : string) :
  startsWith (String c s) "/" = Ascii.eqb c "/".
Proof.
  unfold startsWith. cbn [String.prefix].
  destruct (ascii_dec "/" c) as [<-|Hne]; [by destruct s|].
  symmetry. apply Ascii.eqb_neq. congruence.
Qed.

Lemma normalizeBasePath_form (basePath : option string) :
  normalizeBasePath basePath = ""
  ∨ (startsWith (normalizeBasePath basePath) "/" = true
     ∧ lastIsSlash (normalizeBasePath basePath) = false).
Proof.
  unfold normalizeBasePath. destruct basePath as [basePath|]; [|by left].
  destruct (String.eqb basePath ""); [by left|].
  destruct (String.eqb (trim basePath) "" || String.eqb (trim basePath) "/");
    [by left|].
  set (w := if startsWith (trim basePath) "/" then trim basePath
            else "/" +:+ trim basePath).
  assert (startsWith w "/" = true) as Hw.
  { subst w. destruct (startsWith (trim basePath) "/") eqn:E; [done|].
    by rewrite app_cons, startsWith_cons. }
  destruct (removeTrailingSlash_run w) as (k & Hk & Hlast).
  destruct (removeTrailingSlash w) as [|c r] eqn:Hr; [by left|].
  right. split; [|done]. rewrite Hk, app_cons, startsWith_cons in Hw.
  by rewrite startsWith_cons.
Qed.

(** X7. A normalised base path is either empty or begins with a slash
    and does not end with one. *)
Theorem normalizeBasePath_shape (basePath : option string) :
  normalizeBasePath basePath = ""
  ∨ (startsWith (normalizeBasePath basePath) "/" = true
     ∧ endsWith (normalizeBasePath basePath) "/" = false).
Proof. rewrite endsWith_lastIsSlash. apply normalizeBasePath_form. Qed.

(** ** Joining and stripping *)

Lemma collapseSlashes_head (s : string) :
  startsWith (collapseSlashes s) "/" = startsWith s "/".
Proof.
  induction s as [|c s IH]; [done|]. cbn [collapseSlashes].
  destruct (Ascii.eqb c "/" && startsWith s "/") eqn:E.
  - apply andb_true_iff in E as [Hc Hs].
    by rewrite IH, startsWith_cons, Hs, Hc.
  - by rewrite !startsWith_cons.
Qed.

Lemma collapseSlashes_single (s : string) :
  hasDoubleSlash (collapseSlashes s) = false.
Proof.
  induction s as [|c s IH]; [done|]. cbn [collapseSlashes].
  destruct (Ascii.eqb c "/" && startsWith s "/") eqn:E; [done|].
  cbn [hasDoubleSlash]. by rewrite collapseSlashes_head, E, IH.
Qed.

Lemma collapseSlashes_id (s : string) :
  hasDoubleSlash s = false → collapseSlashes s = s.
Proof.
  induction s as [|c s IH]; [done|]. cbn [hasDoubleSlash collapseSlashes].
  intros [E Hs]%orb_false_iff. rewrite E. by rewrite IH.
Qed.

Lemma hasDoubleSlash_app (a b : string) :
  hasDoubleSlash a = false → hasDoubleSlash b = false →
  lastIsSlash a = false → hasDoubleSlash (a +:+ b) = false.
Proof.
  intros Ha Hb. induction a as [|c a IH]; [done|]. intros Hlast.
  rewrite app_cons. cbn [hasDoubleSlash] in *.
  apply orb_false_iff in Ha as [Hhead Ha].
  destruct a as [|d a].
  - cbn [lastIsSlash] in Hlast. rewrite Hlast. cbn. exact Hb.
  - rewrite IH by done. rewrite app_cons, startsWith_cons.
    rewrite startsWith_cons in Hhead. by rewrite Hhead.
Qed.

Lemma joinPaths_head (basePath path : string) :
  startsWith (joinPaths basePath path) "/" = true.
Proof.
  unfold joinPaths. cbv zeta.
  destruct (normalizeBasePath_form (Some basePath)) as [-> | [Hhead _]].
  - cbn [String.eqb]. destruct (startsWith path "/") eqn:E; [done|].
    by rewrite app_cons, startsWith_cons.
  - destruct (String.eqb (normalizeBasePath (Some basePath)) "") eqn:Hempty.
    { apply String.eqb_eq in Hempty. by rewrite Hempty in Hhead. }
    destruct (String.eqb (if startsWith path "/" then sliceFrom path 1
                          else path) ""); [done|].
    rewrite collapseSlashes_head.
    apply startsWith_slash in Hhead as [b ->].
    by rewrite app_cons, startsWith_cons.
Qed.

(** X8. [joinPaths] always gives a path that begins with a slash. *)
Theorem joinPaths_leading_slash (basePath path : string) :
  startsWith (joinPaths basePath path) "/" = true.
Proof. apply joinPaths_head. Qed.

(** X9. With a non-empty base path and a path beyond the root,
    [joinPaths] leaves no two slashes in a row, whatever runs of slashes
    the base or the path had. *)
Theorem joinPaths_no_double_slash (basePath path : string) :
  normalizeBasePath (Some basePath) ≠ "" →
  path ≠ "" → path ≠ "/" →
  hasDoubleSlash (joinPaths basePath path) = false.
Proof.
  intros Hbase Hpath Hroot. unfold joinPaths.
  apply String.eqb_neq in Hbase. rewrite Hbase.
  assert ((if startsWith path "/" then sliceFrom path 1 else path) ≠ "")
    as Hrel.
  { destruct (startsWith path "/") eqn:E; [|done].
    apply startsWith_slash in E as [p ->]. rewrite sliceFrom_cons.
    intros ->. done. }
  apply String.eqb_neq in Hrel. rewrite Hrel.
  apply collapseSlashes_single.
Qed.

Lemma joinPaths_no_double_slash_witness :
  hasDoubleSlash (joinPaths "/api/v4/" "//a//b") = false.
Proof.
  apply (joinPaths_no_double_slash "/api/v4/" "//a//b");
    by vm_compute.
Defined.

(** X10. [stripBasePath] always gives a path that begins with a slash,
    so the security lookup and the suffix tests never see an empty or a
    relative path. *)
Theorem stripBasePath_leading_slash (pathname basePath : string) :
  startsWith (stripBasePath pathname basePath) "/" = true.
Proof.
  unfold stripBasePath. cbv zeta.
  generalize (if negb (String.eqb basePath "") && startsWith pathname basePath
              then orSlash (sliceFrom pathname (String.length basePath))
              else match apiVersionPrefix pathname with
                   | Some rest => orSlash rest
                   | None => pathname
                   end) as n.
  intros n. destruct (startsWith n "/") eqn:E; cbn [negb].
  - apply startsWith_slash in E as [n' ->]. cbn [String.eqb].
    by rewrite startsWith_cons.
  - rewrite app_cons. cbn [String.eqb]. by rewrite startsWith_cons.
Qed.

Lemma stripBasePath_app (basePath rest : string) :
  basePath ≠ "" →
  startsWith (orSlash rest) "/" = true →
  stripBasePath (basePath +:+ rest) basePath = orSlash rest.
Proof.
  intros Hne Hhead. unfold stripBasePath.
  assert (startsWith (basePath +:+ rest) basePath = true) as ->
    by apply prefix_app.
  assert (sliceFrom (basePath +:+ rest) (String.length basePath) = rest) as ->.
  { unfold sliceFrom. rewrite length_app, Nat.add_comm, Nat.add_sub.
    apply substring_app_r. }
  apply String.eqb_neq in Hne. rewrite Hne. cbn [negb andb]. rewrite Hhead.
  cbn [negb]. apply startsWith_slash in Hhead as [n ->]. done.
Qed.

(** X11. What the handler joins, the middleware strips: for a
    normalised, non-empty base path and an operation path that begins
    with a slash, both without doubled slashes, stripping the base path
    from the joined path gives the operation path back. *)
Theorem stripBasePath_joinPaths (basePath path : string) :
  basePath ≠ "" →
  normalizeBasePath (Some basePath) = basePath →
  hasDoubleSlash basePath = false →
  startsWith path "/" = true →
  hasDoubleSlash path = false →
  stripBasePath (joinPaths basePath path) basePath = path.
Proof.
  intros Hne Hnorm Hbase Hhead Hpath.
  destruct (normalizeBasePath_form (Some basePath)) as [Hempty | [_ Hlast]];
    [congruence|]. rewrite Hnorm in Hlast.
  apply startsWith_slash in Hhead as [relative ->].
  assert (joinPaths basePath (String "/" relative)
          = if String.eqb relative "" then basePath
            else basePath +:+ String "/" relative) as ->.
  { unfold joinPaths. rewrite Hnorm, startsWith_cons, sliceFrom_cons.
    apply String.eqb_neq in Hne. rewrite Hne. cbn [Ascii.eqb Bool.eqb].
    destruct (String.eqb relative ""); [done|].
    apply collapseSlashes_id, hasDoubleSlash_app; done. }
  destruct (String.eqb relative "") eqn:Hrel.
  - apply String.eqb_eq in Hrel. subst relative.
    replace (stripBasePath basePath basePath)
      with (stripBasePath (basePath +:+ "") basePath)
      by (by rewrite app_empty_r).
    by rewrite stripBasePath_app.
  - rewrite stripBasePath_app; [done|done|].
    unfold orSlash. cbn [String.eqb]. by rewrite startsWith_cons.
Qed.

Lemma stripBasePath_joinPaths_witness :
  stripBasePath (joinPaths "/api/v4" "/transactions/{id}") "/api/v4"
  = "/transactions/{id}".
Proof.
  apply (stripBasePath_joinPaths "/api/v4" "/transactions/{id}");
    by vm_compute.
Defined.

(** ** Request options, continued *)

Lemma assoc_without_ne (props : list (string * value)) (key key' : string) :
  key ≠ key' → assoc (without key props) key' = assoc props key'.
Proof.
  intros Hne. unfold without.
  induction props as [|[k w] props IH]; [done|].
  rewrite filter_cons. cbn [fst]. case_decide as Hk; cbn [assoc].
  - by rewrite IH.
  - assert (k = key) as -> by (by destruct (decide (k = key))).
    apply String.eqb_neq in Hne. by rewrite Hne.
Qed.

Lemma assign_same (props : list (string * value)) (key : string) (v : value) :
  assoc props key = Some v → assign props key v = props.
Proof.
  induction props as [|[k w] props IH]; [done|]. cbn [assoc assign].
  destruct (String.eqb k key); [by intros [= ->]|].
  intros H. by rewrite IH.
Qed.

Lemma assign_absent (props : list (string * value)) (key : string) (v : value) :
  assoc props key = None → assign props key v = props ++ [(key, v)].
Proof.
  induction props as [|[k w] props IH]; [done|]. cbn [assoc assign].
  destruct (String.eqb k key); [done|]. intros H. by rewrite IH.
Qed.

(** An object whose [params] is already a plain copy and which has no
    top-level [query] is its own normal form. *)
Lemma normalizeRequestOptions_normal (custom : option string)
    (props params : list (string * value)) :
  assoc props "params" = Some (VObject None params) →
  assoc props "query" = None →
  normalizeRequestOptions (VObject custom props) = (VObject None props, []).
Proof.
  intros Hparams Hquery. unfold normalizeRequestOptions.
  change (truthy (VObject custom props)) with true.
  change (typeof (VObject custom props)) with "object".
  cbn [negb orb String.eqb Ascii.eqb Bool.eqb].
  unfold hasOwnProperty, getProp. cbn [ownProps]. rewrite Hparams, Hquery.
  rewrite bool_decide_eq_false_2 by (by intros [? ?]).
  cbn. by rewrite (assign_same _ _ _ Hparams).
Qed.

(** X12. Normalising is idempotent, and what has been normalised never
    triggers the deprecation warning again. *)
Theorem normalizeRequestOptions_idempotent (options : value) :
  normalizeRequestOptions (normalizeRequestOptions options).1
  = ((normalizeRequestOptions options).1, []).
Proof.
  unfold normalizeRequestOptions at 2 3.
  destruct (negb (truthy options)
            || negb (String.eqb (typeof options) "object")) eqn:Hobj.
  { cbn [fst]. unfold normalizeRequestOptions. by rewrite Hobj. }
  set (copy := if truthy (getProp options "params")
                    && String.eqb (typeof (getProp options "params")) "object"
               then Some (spread (getProp options "params")) else None).
  destruct (hasOwnProperty options "query") eqn:Hquery; cbn [fst].
  - eapply normalizeRequestOptions_normal.
    + apply assoc_assign_eq.
    + rewrite assoc_assign_ne by done. apply assoc_without_eq.
  - destruct copy as [params|] eqn:Hcopy; cbn [fst].
    + eapply normalizeRequestOptions_normal.
      * apply assoc_assign_eq.
      * rewrite assoc_assign_ne by done.
        unfold hasOwnProperty in Hquery.
        apply bool_decide_eq_false_1 in Hquery.
        destruct options; cbn in Hobj; rewrite ?orb_true_r in Hobj;
          try done.
        cbn [spread ownProps] in *.
        destruct (assoc props "query") eqn:E; [|done].
        exfalso. apply Hquery. by eexists.
    + unfold normalizeRequestOptions. rewrite Hobj, Hquery.
      fold copy. by rewrite Hcopy.
Qed.

(** The normaliser on an object, case by case. *)
Lemma normalizeRequestOptions_object (custom : option string)
    (props : list (string * value)) :
  normalizeRequestOptions (VObject custom props)
  = let copy :=
      match assoc props "params" with
      | Some (VObject _ params) => Some params
      | Some (VDate _) => Some []
      | _ => None
      end in
    match assoc props "query" with
    | Some query =>
        let nextParams := default [] copy in
        (VObject None
           (assign (without "query" props) "params"
              (VObject None
                 (if isUndefined (default VUndefined (assoc nextParams "query"))
                  then assign nextParams "query" query
                  else nextParams))),
         [deprecationWarning])
    | None =>
        match copy with
        | Some params =>
            (VObject None (assign props "params" (VObject None params)), [])
        | None => (VObject custom props, [])
        end
    end.
Proof.
  unfold normalizeRequestOptions.
  change (truthy (VObject custom props)) with true.
  change (typeof (VObject custom props)) with "object".
  cbn [negb orb String.eqb Ascii.eqb Bool.eqb].
  unfold hasOwnProperty, getProp. cbn [ownProps spread].
  assert ((if truthy (default VUndefined (assoc props "params"))
              && String.eqb (typeof (default VUndefined (assoc props "params")))
                   "object"
           then Some (spread (default VUndefined (assoc props "params")))
           else None)
          = match assoc props "params" with
            | Some (VObject _ params) => Some params
            | Some (VDate _) => Some []
            | _ => None
            end) as ->.
  { destruct (assoc props "params") as [p|]; [|done].
    destruct p; cbn; rewrite ?andb_false_r; done. }
  destruct (assoc props "query") as [query|].
  - by rewrite bool_decide_eq_true_2 by eauto.
  - by rewrite bool_decide_eq_false_2 by (by intros [? ?]).
Qed.

(** X13. Normalising touches [query] and [params] only: every other
    property of the options reads as before, and so does every property
    of an object-valued [params] other than its [query]. *)
Theorem normalizeRequestOptions_keeps_other_keys (options : value)
    (key : string) :
  let out := (normalizeRequestOptions options).1 in
  key ≠ "query" →
  (key ≠ "params" → getProp out key = getProp options key)
  ∧ (∀ custom params,
       getProp options "params" = VObject custom params →
       getProp (getProp out "params") key = default VUndefined (assoc params key)).
Proof.
  intros out Hkey. subst out.
  assert ((∃ custom props, options = VObject custom props)
          ∨ ¬ (∃ custom props, options = VObject custom props))
    as [(custom & props & ->)|Hother]
    by (destruct options; eauto; right; by intros (? & ? & ?)).
  2:{ assert (normalizeRequestOptions options = (options, [])) as ->.
      { unfold normalizeRequestOptions.
        destruct options; cbn; rewrite ?orb_true_r; try done.
        exfalso. apply Hother. eauto. }
      cbn [fst]. split; [done|]. intros c ps Hp. by rewrite Hp. }
  rewrite normalizeRequestOptions_object. unfold getProp. cbn [ownProps].
  destruct (assoc props "query") as [query|] eqn:Hquery; cbn [fst].
  - split.
    + intros Hparams. cbn [ownProps].
      by rewrite assoc_assign_ne, assoc_without_ne.
    + intros c ps Hp. cbn [ownProps]. rewrite assoc_assign_eq.
      cbn [default from_option id ownProps].
      destruct (assoc props "params") as [p|]; [|done]. cbn in Hp. subst p.
      cbn [default from_option id].
      destruct (isUndefined _); [|done]. by rewrite assoc_assign_ne.
  - destruct (assoc props "params") as [p|] eqn:Hparams;
      [|split; [done|]; by intros c ps [=]].
    destruct p; try (split; [done|]; by intros c ps [=]); cbn [fst].
    + split; [|by intros c ps [=]].
      intros Hk. cbn [ownProps]. by rewrite assoc_assign_ne.
    + split.
      * intros Hk. cbn [ownProps]. by rewrite assoc_assign_ne.
      * intros c ps [= -> ->]. cbn [ownProps]. by rewrite assoc_assign_eq.
Qed.

Lemma normalizeRequestOptions_keeps_other_keys_witness :
  getProp (normalizeRequestOptions (VObject None legacyOptions)).1 "body"
  = VString "b".
Proof.
  refine (proj1 (normalizeRequestOptions_keeps_other_keys
                   (VObject None legacyOptions) "body" _) _); done.
Defined.

(** X14. The legacy and the nested form are normalised to the same
    object: options with a top-level [query] and no [params] give what
    the same options give with the [query] moved under a [params] written
    last. *)
Theorem normalizeRequestOptions_legacy_as_nested (custom : option string)
    (props : list (string * value)) (query : value) :
  assoc props "query" = Some query →
  assoc props "params" = None →
  (normalizeRequestOptions (VObject custom props)).1
  = (normalizeRequestOptions
       (VObject custom
          (without "query" props
           ++ [("params", VObject None [("query", query)])]))).1.
Proof.
  intros Hquery Hparams.
  assert (assoc (without "query" props) "params" = None) as Hrest
    by (by rewrite assoc_without_ne).
  rewrite normalizeRequestOptions_object, Hquery, Hparams. cbn [fst].
  rewrite <- (assign_absent _ _ _ Hrest).
  erewrite normalizeRequestOptions_normal;
    [done|apply assoc_assign_eq|].
  rewrite assoc_assign_ne by done. apply assoc_without_eq.
Qed.

Lemma normalizeRequestOptions_legacy_as_nested_witness :
  (normalizeRequestOptions (VObject None legacyOptions)).1
  = (normalizeRequestOptions
       (VObject None
          [ ("body", VString "b");
            ("params", VObject None [("query", VObject None [("a", VNumber 1)])])
          ])).1.
Proof.
  apply (normalizeRequestOptions_legacy_as_nested None legacyOptions
           (VObject None [("a", VNumber 1)])); reflexivity.
Defined.

(** ** Operation dispatcher, continued *)

(** X15. Reads are stable: a second read of a property returns what the
    first returned and changes nothing, so a handler is built once; a
    read never alters a property that was already there, and adds no
    property other than the one read. *)
Theorem get_builds_once (c : Client) (target : gmap string Member)
    (prop : PropertyKey) :
  let first := get c target prop in
  get c first.2 prop = first
  ∧ (∀ key, is_Some (target !! key) → first.2 !! key = target !! key)
  ∧ (∀ key, prop ≠ PString key → first.2 !! key = target !! key).
Proof.
  intros first. subst first. unfold get.
  destruct prop as [opId|description]; [|done].
  destruct (String.eqb opId "then") eqn:Hthen; [done|].
  destruct (Reflect_has target opId) eqn:Hhas.
  { cbn [snd]. by rewrite Hhas. }
  destruct (operationIdToPath c !! opId) as [mapping|] eqn:Hmap.
  2:{ cbn [snd]. by rewrite Hhas. }
  cbn [snd]. split; [|split].
  - unfold Reflect_has, Reflect_get. rewrite lookup_insert_eq.
    by rewrite bool_decide_eq_true_2 by eauto.
  - intros key Hkey. apply lookup_insert_ne. intros ->.
    unfold Reflect_has in Hhas. apply orb_false_iff in Hhas as [Hown _].
    by apply bool_decide_eq_false_1 in Hown.
  - intros key Hkey. apply lookup_insert_ne. congruence.
Qed.

(** ** Authentication middleware, continued *)

(** [Headers.set] on the name [Authorization]: the entry written when
    the value is accepted, a [TypeError] when it is not. *)
Lemma Headers_set_accepted (hs : Headers) (v : string) :
  acceptedHeaderValue v = true →
  Headers_set hs "Authorization" v
  = Ok (<["authorization" := normalizeHeaderValue v]> hs).
Proof.
  unfold acceptedHeaderValue, Headers_set.
  intros [Hlatin Hvalue]%andb_true_iff.
  apply bool_decide_eq_true_1 in Hlatin as [bytes Hbytes].
  rewrite Hbytes, Hvalue. reflexivity.
Qed.

Lemma Headers_set_rejected (hs : Headers) (v : string) :
  acceptedHeaderValue v = false →
  ∃ message, Headers_set hs "Authorization" v = Throw (TypeError message).
Proof.
  unfold acceptedHeaderValue, Headers_set.
  destruct (latin1 v) as [bytes|] eqn:Hbytes.
  - rewrite bool_decide_eq_true_2 by eauto. cbn [andb]. intros ->.
    cbn. by eauto.
  - intros _. cbn. by eauto.
Qed.

Lemma Headers_set_Ok (hs hs' : Headers) (v : string) :
  Headers_set hs "Authorization" v = Ok hs' →
  acceptedHeaderValue v = true
  ∧ hs' = <["authorization" := normalizeHeaderValue v]> hs.
Proof.
  destruct (acceptedHeaderValue v) eqn:Hv.
  - rewrite (Headers_set_accepted hs v Hv). by intros [= <-].
  - destruct (Headers_set_rejected hs v Hv) as [message ->]. done.
Qed.

Lemma Headers_has_insert (hs : Headers) (v : string) :
  Headers_has (<["authorization" := v]> hs) "Authorization" = true.
Proof.
  unfold Headers_has. apply bool_decide_eq_true_2.
  change (asciiLowerCase "Authorization") with "authorization".
  rewrite lookup_insert_eq. by eauto.
Qed.

(** The shapes in which a request can leave the middleware. *)
Lemma onRequest_outcome (c : Client) (st st' : ClientState)
    (request request' : Request) :
  onRequest c st request = (Ok request', st') →
  request' = request
  ∨ ∃ token, token ≠ ""
      ∧ Headers_has (headers request) "Authorization" = false
      ∧ ((acceptedHeaderValue ("Basic " +:+ token) = true
          ∧ request'
            = withHeaders request
                (<["authorization" := normalizeHeaderValue ("Basic " +:+ token)]>
                   (headers request)))
         ∨ (acceptedHeaderValue ("Bearer " +:+ token) = true
            ∧ request'
              = withHeaders request
                  (<["authorization" :=
                       normalizeHeaderValue ("Bearer " +:+ token)]>
                     (headers request)))).
Proof.
  unfold onRequest.
  destruct (Headers_has (headers request) "Authorization") eqn:Hhas;
    cbn [negb].
  { intros [= <- _]. left. apply withHeaders_same. }
  assert (∀ scheme token st1,
            (if negb (String.eqb token "")
             then (withHeaders request
                     <$> Headers_set (headers request) "Authorization"
                           (scheme +:+ token), st1)
             else (Ok (withHeaders request (headers request)), st1))
            = (Ok request', st') →
            request' = request
            ∨ token ≠ ""
              ∧ acceptedHeaderValue (scheme +:+ token) = true
              ∧ request'
                = withHeaders request
                    (<["authorization" :=
                         normalizeHeaderValue (scheme +:+ token)]>
                       (headers request))) as Hset.
  { intros scheme token st1.
    destruct (String.eqb token "") eqn:Hempty; cbn [negb].
    - intros [= <- _]. left. apply withHeaders_same.
    - apply String.eqb_neq in Hempty.
      destruct (Headers_set (headers request) "Authorization"
                  (scheme +:+ token)) as [hs'|e] eqn:Hhs; [|done].
      apply Headers_set_Ok in Hhs as [Hv ->]. cbn.
      intros [= <- _]. by right. }
  assert (match getAccessToken c with
          | Some supplier =>
              let st1 := {| cached := cached st; encoded := encoded st;
                            supplierCalls := S (supplierCalls st) |} in
              match supplier (supplierCalls st) with
              | Ok token =>
                  if negb (String.eqb token "")
                  then (withHeaders request
                          <$> Headers_set (headers request) "Authorization"
                                ("Bearer " +:+ token), st1)
                  else (Ok (withHeaders request (headers request)), st1)
              | Throw e => (Throw e, st1)
              end
          | None => (Ok (withHeaders request (headers request)), st)
          end = (Ok request', st') →
          request' = request
          ∨ ∃ token, token ≠ "" ∧ false = false
              ∧ ((acceptedHeaderValue ("Basic " +:+ token) = true
                  ∧ request'
                    = withHeaders request
                        (<["authorization" :=
                             normalizeHeaderValue ("Basic " +:+ token)]>
                           (headers request)))
                 ∨ (acceptedHeaderValue ("Bearer " +:+ token) = true
                    ∧ request'
                      = withHeaders request
                          (<["authorization" :=
                               normalizeHeaderValue ("Bearer " +:+ token)]>
                             (headers request))))) as Hbearer.
  { destruct (getAccessToken c) as [supplier|].
    - cbn zeta. destruct (supplier (supplierCalls st)) as [token|e]; [|done].
      intros [-> | (Htoken & Hv & ->)]%Hset; [by left|].
      right. exists token. eauto 10.
    - intros [= <- _]. left. apply withHeaders_same. }
  destruct (shouldUseBasic c _ _ _); [|exact Hbearer].
  destruct (basicAuth c) as [auth|]; [|exact Hbearer].
  destruct (resolveBasicToken (host c) auth st) as [[token|e] st1]; [|done].
  intros [-> | (Htoken & Hv & ->)]%Hset; [by left|].
  right. exists token. eauto 10.
Qed.

(** X16. The middleware changes nothing but the [Authorization] header:
    URL, method and body leave as they entered, every header under
    another name reads as before, and the only possible change is an
    [authorization] entry written on a request that had none: the value
    [Basic] or [Bearer], a space and a non-empty token, as [Headers.set]
    normalises it (without leading or trailing whitespace), and only when
    [Headers.set] accepts it. *)
Theorem onRequest_only_adds_authorization (c : Client) (st st' : ClientState)
    (request request' : Request) :
  onRequest c st request = (Ok request', st') →
  url request' = url request
  ∧ method request' = method request
  ∧ body request' = body request
  ∧ (∀ name, name ≠ "authorization" →
             headers request' !! name = headers request !! name)
  ∧ (headers request' = headers request
     ∨ ∃ scheme token,
         (scheme = "Basic" ∨ scheme = "Bearer")
         ∧ token ≠ ""
         ∧ Headers_has (headers request) "Authorization" = false
         ∧ acceptedHeaderValue (scheme +:+ " " +:+ token) = true
         ∧ headers request'
           = <["authorization" :=
                 normalizeHeaderValue (scheme +:+ " " +:+ token)]>
               (headers request)).
Proof.
  intros [-> | (token & Htoken & Hhas & [[Hv ->] | [Hv ->]])]%onRequest_outcome;
    cbn [withHeaders url method body headers].
  - eauto 10.
  - do 3 (split; [done|]). split.
    + intros name Hname. by rewrite lookup_insert_ne.
    + right. exists "Basic", token. eauto 10.
  - do 3 (split; [done|]). split.
    + intros name Hname. by rewrite lookup_insert_ne.
    + right. exists "Bearer", token. eauto 10.
Qed.

Lemma onRequest_only_adds_authorization_witness :
  onRequest traceClient initialState
    (requestTo "get" "/api/v4/charge" [("accept", "*/*")])
  = (Ok (requestTo "get" "/api/v4/charge"
           [("accept", "*/*"); ("authorization", "Basic a2V5Og==")]),
     {| cached := Some "a2V5Og=="; encoded := ["key:"]; supplierCalls := 0 |})
  ∧ headers (requestTo "get" "/api/v4/charge"
               [("accept", "*/*"); ("authorization", "Basic a2V5Og==")])
    !! "accept"
    = headers (requestTo "get" "/api/v4/charge" [("accept", "*/*")])
      !! "accept".
Proof.
  split; [reflexivity|].
  refine (proj1 (proj2 (proj2 (proj2
    (onRequest_only_adds_authorization traceClient initialState
       {| cached := Some "a2V5Og=="; encoded := ["key:"]; supplierCalls := 0 |}
       (requestTo "get" "/api/v4/charge" [("accept", "*/*")])
       (requestTo "get" "/api/v4/charge"
          [("accept", "*/*"); ("authorization", "Basic a2V5Og==")]) _))))
    "accept" _); [reflexivity|done].
Defined.

(** X17. The middleware never stacks headers: a request that it has
    given a header passes through it unchanged from then on, whatever the
    closure state. *)
Theorem onRequest_second_pass (c : Client) (st st' st2 : ClientState)
    (request request' : Request) :
  onRequest c st request = (Ok request', st') →
  headers request' ≠ headers request →
  onRequest c st2 request' = (Ok request', st2).
Proof.
  intros [-> | (token & _ & _ & [[_ ->] | [_ ->]])]%onRequest_outcome Hchanged;
    [done| |];
    unfold onRequest at 1; cbn [withHeaders headers];
    by rewrite Headers_has_insert.
Qed.

Lemma onRequest_second_pass_witness :
  onRequest traceClient initialState
    (requestTo "get" "/api/v4/charge" [("authorization", "Basic a2V5Og==")])
  = (Ok (requestTo "get" "/api/v4/charge"
           [("authorization", "Basic a2V5Og==")]), initialState).
Proof.
  apply (onRequest_second_pass traceClient initialState
           {| cached := Some "a2V5Og=="; encoded := ["key:"];
              supplierCalls := 0 |}
           initialState (requestTo "get" "/api/v4/charge" [])
           (requestTo "get" "/api/v4/charge"
              [("authorization", "Basic a2V5Og==")]));
    [reflexivity|done].
Defined.

(** X18. An override decides alone.  Under ["oauth2"] the token resolver
    is not called, were the path [/charge] or declared for the API key:
    the token cache and the record of encoding runs stay as they are.
    Under ["basic"], with Basic credentials configured, the token resolver
    is called, once, and the access-token supplier is not consulted: the
    closure state after the request is the state after that call. *)
Theorem override_forces_strategy (c : Client) (st : ClientState)
    (request : Request) :
  let fullPathname := pathname (url request) in
  let path := stripBasePath fullPathname (basePath c) in
  let st' := (onRequest c st request).2 in
  Headers_has (headers request) "Authorization" = false →
  (lookupOverride c path fullPathname = Some oauth2 →
   cached st' = cached st ∧ encoded st' = encoded st)
  ∧ (lookupOverride c path fullPathname = Some basic →
     ∀ auth, basicAuth c = Some auth →
       st' = (resolveBasicToken (host c) auth st).2
       ∧ supplierCalls st' = supplierCalls st).
Proof.
  intros fullPathname path st' Hhas. subst st'. split.
  - intros Hoverride. apply onRequest_other_branch; [done|].
    fold fullPathname. fold path. by rewrite Hoverride.
  - intros Hoverride auth Hauth.
    rewrite (onRequest_basic_branch c st request auth Hhas);
      [|fold fullPathname; fold path; by rewrite Hoverride|done].
    split; [done|apply resolveBasicToken_supplierCalls].
Qed.

Lemma override_forces_strategy_witness :
  (cached (onRequest overrideClient initialState
             (requestTo "get" "/api/v4/charge" [])).2 = None
   ∧ encoded (onRequest overrideClient initialState
                (requestTo "get" "/api/v4/charge" [])).2 = [])
  ∧ (onRequest basicOverrideClient initialState
       (requestTo "get" "/api/v4/ping" [])).2
    = {| cached := Some "a2V5Og=="; encoded := ["key:"];
         supplierCalls := 0 |}.
Proof.
  split.
  - refine (proj1 (override_forces_strategy overrideClient initialState
                     (requestTo "get" "/api/v4/charge" []) _) _);
      reflexivity.
  - refine (proj1 (proj2 (override_forces_strategy basicOverrideClient
                            initialState
                            (requestTo "get" "/api/v4/ping" []) _) _
                     {| username := "key"; password := None |} _));
      reflexivity.
Defined.

(** X19. A client without Basic credentials sends the bearer token to
    every endpoint: whatever the path, the method, the security map and
    the overrides say, the supplier is asked once for a request without
    [Authorization], and the request leaves with [Bearer] and the token
    it gave, as [Headers.set] normalises the value; when [Headers.set]
    does not accept the value (a code unit above U+00FF, a NUL, a line
    feed or a carriage return inside), the middleware raises its
    [TypeError]. *)
Theorem bearer_when_no_basic_credentials (c : Client) (st : ClientState)
    (request : Request) (supplier : nat → result string) (token : string) :
  basicAuth c = None →
  getAccessToken c = Some supplier →
  supplier (supplierCalls st) = Ok token →
  token ≠ "" →
  Headers_has (headers request) "Authorization" = false →
  let st' := {| cached := cached st; encoded := encoded st;
                supplierCalls := S (supplierCalls st) |} in
  (acceptedHeaderValue ("Bearer " +:+ token) = true →
   onRequest c st request
   = (Ok (withHeaders request
            (<["authorization" := normalizeHeaderValue ("Bearer " +:+ token)]>
               (headers request))), st'))
  ∧ (acceptedHeaderValue ("Bearer " +:+ token) = false →
     ∃ message, onRequest c st request = (Throw (TypeError message), st')).
Proof.
  intros Hbasic Hsupplier Htoken Hne Hhas st'.
  assert (onRequest c st request
          = (withHeaders request
               <$> Headers_set (headers request) "Authorization"
                     ("Bearer " +:+ token), st')) as ->.
  { unfold onRequest. rewrite Hhas, Hbasic, Hsupplier. cbn [negb]. cbn zeta.
    rewrite Htoken. apply String.eqb_neq in Hne. rewrite Hne. cbn [negb].
    by destruct (shouldUseBasic c _ _ _). }
  split.
  - intros Hv. by rewrite (Headers_set_accepted _ _ Hv).
  - intros Hv.
    destruct (Headers_set_rejected (headers request) _ Hv) as [message ->].
    by exists message.
Qed.

Lemma bearer_when_no_basic_credentials_witness :
  onRequest bearerClient initialState (requestTo "get" "/api/v4/charge" [])
  = (Ok (requestTo "get" "/api/v4/charge" [("authorization", "Bearer tok")]),
     {| cached := None; encoded := []; supplierCalls := 1 |})
  ∧ ∃ message,
      onRequest twoLineTokenClient initialState
        (requestTo "get" "/api/v4/charge" [])
      = (Throw (TypeError message),
         {| cached := None; encoded := []; supplierCalls := 1 |}).
Proof.
  split.
  - refine (proj1 (bearer_when_no_basic_credentials bearerClient initialState
                     (requestTo "get" "/api/v4/charge" []) (λ _, Ok "tok")
                     "tok" _ _ _ _ _) _);
      (reflexivity || done).
  - refine (proj2 (bearer_when_no_basic_credentials twoLineTokenClient
                     initialState (requestTo "get" "/api/v4/charge" [])
                     (λ _, Ok twoLineToken) twoLineToken _ _ _ _ _) _);
      (reflexivity || done).
Defined.

(** X20. On a host with neither [btoa] nor [Buffer] the Basic token is
    the empty string: a request for which Basic auth is chosen then
    leaves without any [Authorization] header, and the access-token
    supplier is not asked, configured or not. *)
Theorem no_encoder_no_header (c : Client) (st : ClientState)
    (request : Request) (auth : BasicAuth) :
  let fullPathname := pathname (url request) in
  let path := stripBasePath fullPathname (basePath c) in
  hasBtoa (host c) = false →
  hasBuffer (host c) = false →
  basicAuth c = Some auth →
  cached st = None →
  Headers_has (headers request) "Authorization" = false →
  shouldUseBasic c (lookupOverride c path fullPathname) path
    (toUpperCase (method request)) = true →
  onRequest c st request
  = (Ok request,
     {| cached := Some ""; encoded := encoded st;
        supplierCalls := supplierCalls st |}).
Proof.
  intros fullPathname path Hbtoa Hbuffer Hbasic Hcached Hhas Hchoice.
  unfold onRequest. rewrite Hhas. cbn [negb].
  fold fullPathname. fold path. rewrite Hchoice, Hbasic.
  unfold resolveBasicToken. rewrite Hcached, Hbtoa, Hbuffer.
  cbn. by rewrite withHeaders_same.
Qed.

Lemma no_encoder_no_header_witness :
  onRequest bareHostClient initialState (requestTo "get" "/api/v4/charge" [])
  = (Ok (requestTo "get" "/api/v4/charge" []),
     {| cached := Some ""; encoded := []; supplierCalls := 0 |}).
Proof.
  apply (no_encoder_no_header bareHostClient initialState
           (requestTo "get" "/api/v4/charge" [])
           {| username := "key"; password := None |});
    reflexivity.
Defined.

(** ** Compiling the security map *)

Lemma compileEntry_exact (f : string → result (string → bool))
    (acc acc' : CompiledSecurityMap) (path : string)
    (methods : gmap string (list string)) :
  compileEntry f acc (path, methods) = Ok acc' →
  if templated path
  then exact acc' = exact acc
       ∧ ∃ re, patterns acc'
               = patterns acc ++ [{| regex := re; methods := methods |}]
  else exact acc'
       = <[path := methods ∪ default ∅ (exact acc !! path)]> (exact acc)
       ∧ patterns acc' = patterns acc.
Proof.
  unfold compileEntry, templated.
  destruct (bool_decide (is_Some (String.index 0 "{" path))).
  - destruct (createSafePathRegex f _) as [re|e]; [|done].
    cbn. intros [= <-]. cbn. eauto.
  - by intros [= <-].
Qed.

Lemma compileEntries_cons (f : string → result (string → bool))
    (acc compiled : CompiledSecurityMap)
    (entry : string * gmap string (list string))
    (entries : list (string * gmap string (list string))) :
  compileEntries f acc (entry :: entries) = Ok compiled →
  ∃ acc', compileEntry f acc entry = Ok acc'
          ∧ compileEntries f acc' entries = Ok compiled.
Proof.
  cbn [compileEntries]. destruct (compileEntry f acc entry) as [acc'|e];
    [|done].
  cbn. eauto.
Qed.

Lemma compileEntries_other (f : string → result (string → bool))
    (entries : list (string * gmap string (list string)))
    (acc compiled : CompiledSecurityMap) (path : string) :
  compileEntries f acc entries = Ok compiled →
  path ∉ entries.*1 →
  exact compiled !! path = exact acc !! path.
Proof.
  revert acc. induction entries as [|[p m] entries IH]; intros acc.
  - by intros [= <-].
  - intros (acc' & Hentry & Hrest)%compileEntries_cons Hnotin.
    cbn [fmap list_fmap fst] in Hnotin.
    apply not_elem_of_cons in Hnotin as [Hne Hnotin].
    rewrite (IH _ Hrest Hnotin).
    apply compileEntry_exact in Hentry.
    destruct (templated p); destruct Hentry as [-> _]; [done|].
    by rewrite lookup_insert_ne.
Qed.

Lemma compileEntries_declared (f : string → result (string → bool))
    (entries : list (string * gmap string (list string)))
    (acc compiled : CompiledSecurityMap) (path : string)
    (methods : gmap string (list string)) :
  compileEntries f acc entries = Ok compiled →
  NoDup entries.*1 →
  (path, methods) ∈ entries →
  templated path = false →
  exact acc !! path = None →
  exact compiled !! path = Some methods.
Proof.
  revert acc. induction entries as [|[p m] entries IH]; intros acc.
  - by intros _ _ ?%elem_of_nil.
  - intros (acc' & Hentry & Hrest)%compileEntries_cons Hnodup Hin Hplain Hfresh.
    cbn [fmap list_fmap fst] in Hnodup.
    apply NoDup_cons in Hnodup as [Hhead Hnodup].
    apply compileEntry_exact in Hentry.
    apply elem_of_cons in Hin as [[= <- <-] | Hin].
    + rewrite (compileEntries_other _ _ _ _ _ Hrest Hhead).
      rewrite Hplain in Hentry. destruct Hentry as [-> _].
      rewrite lookup_insert_eq, Hfresh. cbn. by rewrite (right_id_L ∅ (∪)).
    + assert (p ≠ path) as Hne.
      { intros ->. apply Hhead. apply list_elem_of_fmap. by exists (path, methods). }
      apply (IH acc'); try done.
      destruct (templated p); destruct Hentry as [-> _]; [done|].
      by rewrite lookup_insert_ne.
Qed.

(** X21. What is declared for an exact path is what the lookup finds:
    after a successful compilation, whatever the [RegExp] constructor, a
    path without placeholder resolves, for each method it declares, to
    the schemes declared, before any pattern is looked at. *)
Theorem compiled_exact_path_resolves (f : string → result (string → bool))
    (entries : list (string * gmap string (list string)))
    (compiled : CompiledSecurityMap) (path method : string)
    (methods : gmap string (list string)) (schemes : list string) :
  NoDup entries.*1 →
  compileSecurityMap f (Some entries) = Ok compiled →
  (path, methods) ∈ entries →
  templated path = false →
  methods !! method = Some schemes →
  resolveSecuritySchemes compiled path method = schemes.
Proof.
  intros Hnodup Hcompile Hin Hplain Hmethod.
  unfold resolveSecuritySchemes.
  rewrite (compileEntries_declared f entries _ compiled path methods
             Hcompile Hnodup Hin Hplain (lookup_empty _)).
  by rewrite Hmethod.
Qed.

Lemma compiled_exact_path_resolves_witness :
  resolveSecuritySchemes chargeAndAny "/charge" "GET" = ["APIKey"].
Proof.
  apply (compiled_exact_path_resolves segmentRegExp chargeAndAnyMap
           chargeAndAny "/charge" "GET" {[ "GET" := ["APIKey"] ]});
    [apply (bool_decide_unpack _); by vm_compute
    |by vm_compute
    |by left
    |by vm_compute
    |by vm_compute].
Defined.

Lemma compileEntries_shape (f : string → result (string → bool))
    (entries : list (string * gmap string (list string)))
    (acc compiled : CompiledSecurityMap) :
  compileEntries f acc entries = Ok compiled →
  Core.methods <$> patterns compiled
  = (Core.methods <$> patterns acc)
    ++ (filter (λ entry, templated entry.1) entries).*2
  ∧ ∀ path, is_Some (exact compiled !! path) →
            is_Some (exact acc !! path) ∨ templated path = false.
Proof.
  revert acc. induction entries as [|[p m] entries IH]; intros acc.
  - intros [= <-]. rewrite app_nil_r. eauto.
  - intros (acc' & Hentry & Hrest)%compileEntries_cons.
    destruct (IH _ Hrest) as [Hpatterns Hexact].
    apply compileEntry_exact in Hentry. rewrite filter_cons. cbn [fst].
    destruct (templated p) eqn:Hp; destruct Hentry as [Hex Hpat].
    + destruct Hpat as [re Hpat]. rewrite decide_True by done. split.
      * rewrite Hpatterns, Hpat, fmap_app. cbn. by rewrite <- app_assoc.
      * intros path Hpath. rewrite <- Hex. by apply Hexact.
    + rewrite decide_False by (by intros []). split.
      * by rewrite Hpatterns, Hpat.
      * intros path Hpath. destruct (Hexact _ Hpath) as [Hacc|]; [|by right].
        rewrite Hex in Hacc. destruct (decide (p = path)) as [<-|Hne];
          [by right|].
        rewrite lookup_insert_ne in Hacc by done. by left.
Qed.

(** X22. Compilation sorts the map in two: the templated paths become
    the patterns, in declaration order and each with its own method
    table, and only paths without placeholder enter the exact index. *)
Theorem compileSecurityMap_partition (f : string → result (string → bool))
    (entries : list (string * gmap string (list string)))
    (compiled : CompiledSecurityMap) :
  compileSecurityMap f (Some entries) = Ok compiled →
  Core.methods <$> patterns compiled
  = (filter (λ entry, templated entry.1) entries).*2
  ∧ ∀ path, is_Some (exact compiled !! path) → templated path = false.
Proof.
  intros [Hpatterns Hexact]%compileEntries_shape. split; [done|].
  intros path Hpath. destruct (Hexact _ Hpath) as [[? Hempty]|]; [|done].
  cbn [exact] in Hempty. by rewrite lookup_empty in Hempty.
Qed.

Lemma compileSecurityMap_partition_witness :
  Core.methods <$> patterns chargeAndAny = [ {[ "POST" := ["OAuth2"] ]} ].
Proof.
  refine (proj1 (compileSecurityMap_partition segmentRegExp chargeAndAnyMap
                   chargeAndAny _)).
  by vm_compute.
Defined.

Lemma spanWord_app (s w rest : string) :
  spanWord s = (w, rest) →
  s = w +:+ rest ∧ allChars isSafePatternChar w = true.
Proof.
  revert w rest. induction s as [|c s IH]; intros w rest; cbn [spanWord].
  - by intros [= <- <-].
  - destruct (isWordChar c) eqn:Hc; [|by intros [= <- <-]].
    destruct (spanWord s) as [w' rest']. intros [= <- <-].
    destruct (IH _ _ eq_refl) as [-> Hsafe]. split; [done|].
    cbn [allChars]. unfold isSafePatternChar at 1. by rewrite Hc, Hsafe.
Qed.

(** A placeholder of the security map is made of safe characters. *)
Lemma matchIdentAt_Some (s rest : string) :
  matchIdentAt s = Some rest →
  ∃ ident, s = ident +:+ rest ∧ allChars isSafePatternChar ident = true.
Proof.
  unfold matchIdentAt. destruct s as [|c [|i s]]; try done.
  destruct (Ascii.eqb c "{") eqn:Hc; [|done].
  apply Ascii.eqb_eq in Hc. subst c.
  destruct (isUpper i || isLower i || Ascii.eqb i "_") eqn:Hi; [|done].
  cbn [andb].
  destruct (spanWord s) as [w [|d rest']] eqn:Hspan; [done|].
  destruct (Ascii.eqb d "}") eqn:Hd; [|done].
  apply Ascii.eqb_eq in Hd. subst d. intros [= <-].
  apply spanWord_app in Hspan as [-> Hw].
  exists (String "{" (String i (w +:+ "}"))). split.
  - by rewrite !app_cons, app_assoc'.
  - cbn [allChars]. rewrite allChars_app, Hw.
    assert (isSafePatternChar i = true) as ->; [|done].
    unfold isSafePatternChar, isWordChar.
    destruct (isUpper i), (isLower i), (Ascii.eqb i "_"); try done;
      by rewrite ?orb_true_r.
Qed.

Lemma rewriteParams_safe (fuel : nat) (path : string) :
  allChars isSafePatternChar (rewriteParams fuel path)
  = allChars isSafePatternChar path.
Proof.
  revert path. induction fuel as [|fuel IH]; intros path; [done|].
  destruct path as [|c path]; [done|]. cbn [rewriteParams].
  destruct (matchIdentAt (String c path)) as [rest|] eqn:Hmatch.
  - apply matchIdentAt_Some in Hmatch as (ident & -> & Hident).
    by rewrite !allChars_app, IH, Hident.
  - cbn [allChars]. by rewrite IH.
Qed.

Lemma compileEntries_app (f : string → result (string → bool))
    (before after : list (string * gmap string (list string)))
    (acc : CompiledSecurityMap) :
  compileEntries f acc (before ++ after)
  = acc' ← compileEntries f acc before; compileEntries f acc' after.
Proof.
  revert acc. induction before as [|entry before IH]; intros acc; [done|].
  cbn [app compileEntries]. destruct (compileEntry f acc entry); [|done].
  cbn. apply IH.
Qed.

(** X23. A templated path with a character outside the safe set stops
    the compilation: the entries before it may compile, those after it
    are not looked at, and whatever the [RegExp] constructor would do,
    the error names the pattern built from the path. *)
Theorem compileSecurityMap_unsafe_template
    (f : string → result (string → bool))
    (before after : list (string * gmap string (list string)))
    (acc : CompiledSecurityMap) (path : string)
    (methods : gmap string (list string)) :
  compileSecurityMap f (Some before) = Ok acc →
  templated path = true →
  allChars isSafePatternChar path = false →
  compileSecurityMap f (Some (before ++ (path, methods) :: after))
  = Throw (Error ("Invalid pattern for path regex: "
                  +:+ ("^" +:+ rewriteParams (String.length path) path
                       +:+ "$"))).
Proof.
  intros Hbefore Htemplated Hunsafe. unfold compileSecurityMap in *.
  rewrite compileEntries_app, Hbefore. cbn [mbind result_bind compileEntries].
  unfold compileEntry. unfold templated in Htemplated. rewrite Htemplated.
  unfold createSafePathRegex.
  assert (allChars isSafePatternChar
            ("^" +:+ rewriteParams (String.length path) path +:+ "$")
          = false) as ->; [|by rewrite andb_false_r].
  rewrite !allChars_app, rewriteParams_safe, Hunsafe.
  by rewrite andb_false_r.
Qed.

Lemma compileSecurityMap_unsafe_template_witness :
  compileSecurityMap segmentRegExp
    (Some (chargeAndAnyMap ++ [("/a b/{x}", ∅); ("/later", ∅)]))
  = Throw (Error "Invalid pattern for path regex: ^/a b/[^/]+$").
Proof.
  apply (compileSecurityMap_unsafe_template segmentRegExp chargeAndAnyMap
           [("/later", ∅)] chargeAndAny "/a b/{x}" ∅);
    by vm_compute.
Defined.

(** ** Base64 *)

Lemma lor_shiftl_low (a x k : Z) :
  (0 ≤ k)%Z → (0 ≤ x < 2 ^ k)%Z → Z.lor (Z.shiftl a k) x = (a * 2 ^ k + x)%Z.
Proof.
  intros Hk Hx. rewrite <- Z.shiftl_mul_pow2 by done.
  assert (Z.land (Z.shiftl a k) x = 0%Z) as Hland.
  { apply Z.bits_inj'. intros n Hn. rewrite Z.land_spec, Z.bits_0.
    destruct (Z.lt_ge_cases n k) as [Hlow|Hhigh].
    - by rewrite Z.shiftl_spec_low by done.
    - assert (Z.testbit x n = false) as ->; [|apply andb_false_r].
      apply Z.testbit_false; [done|]. rewrite Z.div_small; [done|].
      split; [lia|]. apply Z.lt_le_trans with (2 ^ k)%Z; [lia|].
      apply Z.pow_le_mono_r; lia. }
  rewrite Z.add_nocarry_lxor by done. by rewrite Z.lxor_lor.
Qed.

(** The four sextets of a triplet of octets. *)
Lemma triplet_sextets (a b c : nat) :
  (a < 256)%nat → (b < 256)%nat → (c < 256)%nat →
  let triplet :=
    Z.lor (Z.lor (Z.shiftl (Z.of_nat a) 16) (Z.shiftl (Z.of_nat b) 8))
      (Z.of_nat c) in
  Z.land (Z.shiftr triplet 18) 63 = Z.of_nat (a / 4)
  ∧ Z.land (Z.shiftr triplet 12) 63 = Z.of_nat ((a mod 4) * 16 + b / 16)
  ∧ Z.land (Z.shiftr triplet 6) 63 = Z.of_nat ((b mod 16) * 4 + c / 64)
  ∧ Z.land triplet 63 = Z.of_nat (c mod 64).
Proof.
  intros Ha Hb Hc triplet.
  assert (triplet = (Z.of_nat a * 65536 + Z.of_nat b * 256 + Z.of_nat c)%Z)
    as ->.
  { subst triplet.
    replace (Z.shiftl (Z.of_nat a) 16)
      with (Z.shiftl (Z.shiftl (Z.of_nat a) 8) 8)
      by (rewrite Z.shiftl_shiftl by lia; done).
    rewrite <- Z.shiftl_lor.
    rewrite (lor_shiftl_low (Z.of_nat a) (Z.of_nat b) 8) by lia.
    rewrite (lor_shiftl_low _ (Z.of_nat c) 8) by lia. lia. }
  change 63%Z with (Z.ones 6). rewrite !Z.land_ones, !Z.shiftr_div_pow2 by lia.
  change (2 ^ 18)%Z with 262144%Z. change (2 ^ 12)%Z with 4096%Z.
  change (2 ^ 6)%Z with 64%Z.
  rewrite !Nat2Z.inj_add, !Nat2Z.inj_mul, !Nat2Z.inj_div, !Nat2Z.inj_mod.
  change (Z.of_nat 4) with 4%Z. change (Z.of_nat 16) with 16%Z.
  change (Z.of_nat 64) with 64%Z.
  repeat split; Z.to_euclidean_division_equations; lia.
Qed.

Lemma list_ind3 {A : Type} (P : list A → Prop) :
  P [] → (∀ a, P [a]) → (∀ a b, P [a; b]) →
  (∀ a b c l, P l → P (a :: b :: c :: l)) →
  ∀ l, P l.
Proof.
  intros H0 H1 H2 H3 l.
  assert (P l ∧ (∀ a, P (a :: l)) ∧ (∀ a b, P (a :: b :: l))) as [? _];
    [|done].
  induction l as [|x l (IH0 & IH1 & IH2)]; [by auto|].
  split; [by auto|]. split; [by auto|]. intros a b. by apply H3.
Qed.

Lemma alphabetAt_sextet (n : nat) :
  (n < 64)%nat →
  ApiClient.alphabetAt (Z.of_nat n) = String (base64Char n) "".
Proof.
  intros Hn. unfold ApiClient.alphabetAt, base64Char. rewrite Nat2Z.id.
  change ApiClient.BASE64_ALPHABET with base64Alphabet.
  destruct (get_lt base64Alphabet n) as [c ->]; [by vm_compute; lia|done].
Qed.

Lemma sextet_bounds (a b : nat) :
  (a < 256)%nat → (b < 256)%nat →
  (a / 4 < 64)%nat ∧ ((a mod 4) * 16 + b / 16 < 64)%nat
  ∧ ((a mod 16) * 4 + b / 64 < 64)%nat ∧ (a mod 64 < 64)%nat.
Proof.
  intros Ha Hb.
  pose proof (Nat.mod_upper_bound a 4 ltac:(lia)).
  pose proof (Nat.mod_upper_bound a 16 ltac:(lia)).
  pose proof (Nat.mod_upper_bound a 64 ltac:(lia)).
  assert (a / 4 < 64)%nat by (apply Nat.Div0.div_lt_upper_bound; lia).
  assert (b / 16 < 16)%nat by (apply Nat.Div0.div_lt_upper_bound; lia).
  assert (b / 64 < 4)%nat by (apply Nat.Div0.div_lt_upper_bound; lia).
  lia.
Qed.

Lemma encodeLoop_done (fuel : nat) (bytes : list Z) (i : nat) (out : string) :
  (length bytes ≤ i)%nat → ApiClient.encodeLoop fuel bytes i out = out.
Proof.
  intros Hi. destruct fuel as [|fuel]; [done|]. cbn [ApiClient.encodeLoop].
  by rewrite (proj2 (Nat.ltb_ge i (length bytes))) by done.
Qed.

Lemma nth_octets (pre octets : list nat) (k : nat) :
  nth (length pre + k) (Z.of_nat <$> (pre ++ octets)) 0%Z
  = Z.of_nat (nth k octets 0).
Proof.
  change 0%Z with (Z.of_nat 0).
  change (Z.of_nat <$> (pre ++ octets)) with (map Z.of_nat (pre ++ octets)).
  by rewrite map_nth, app_nth2_plus.
Qed.

(** The loop of the fallback writes, quadruple by quadruple, the Base64
    text of the octets from its index on. *)
Lemma encodeLoop_octets (octets : list nat) :
  Forall (λ o, (o < 256)%nat) octets →
  ∀ (fuel : nat) (pre : list nat) (out : string),
    (length octets ≤ 3 * fuel)%nat →
    ApiClient.encodeLoop fuel (Z.of_nat <$> (pre ++ octets)) (length pre) out
    = out +:+ base64Octets octets.
Proof.
  induction octets as [|a|a b|a b c octets IH] using list_ind3;
    intros Hbound fuel pre out Hfuel.
  - rewrite encodeLoop_done, app_empty_r;
      [done|rewrite length_fmap, List.length_app; cbn; lia].
  - destruct fuel as [|fuel]; [cbn in Hfuel; lia|].
    apply Forall_cons in Hbound as [Ha _].
    destruct (triplet_sextets a 0 0) as (H1 & H2 & _); [lia..|].
    destruct (sextet_bounds a 0) as (B1 & B2 & _); [lia..|].
    change (0 / 16)%nat with 0%nat in *. rewrite Nat.add_0_r in *.
    cbn [ApiClient.encodeLoop].
    assert (length (Z.of_nat <$> (pre ++ [a])) = S (length pre)) as Hlen
      by (rewrite length_fmap, List.length_app; cbn; lia).
    rewrite Hlen.
    pose proof (nth_octets pre ([a]) 0) as Hnth. rewrite Nat.add_0_r in Hnth.
    rewrite Hnth, !nth_octets. cbn [nth].
    rewrite (proj2 (Nat.ltb_lt (length pre) (S (length pre)))) by lia.
    rewrite (proj2 (Nat.ltb_ge (length pre + 1) (S (length pre)))) by lia.
    rewrite (proj2 (Nat.ltb_ge (length pre + 2) (S (length pre)))) by lia.
    rewrite encodeLoop_done by (rewrite Hlen; lia).
    change (Z.of_nat 0) with 0%Z in *. rewrite H1, H2.
    rewrite !alphabetAt_sextet by done.
    cbn [base64Octets]. by rewrite !app_assoc'.
  - destruct fuel as [|fuel]; [cbn in Hfuel; lia|].
    apply Forall_cons in Hbound as [Ha Hbound].
    apply Forall_cons in Hbound as [Hb _].
    destruct (triplet_sextets a b 0) as (H1 & H2 & H3 & _); [lia..|].
    destruct (sextet_bounds a b) as (B1 & B2 & _); [lia..|].
    destruct (sextet_bounds b 0) as (_ & _ & B3 & _); [lia..|].
    change (0 / 64)%nat with 0%nat in *. rewrite Nat.add_0_r in *.
    cbn [ApiClient.encodeLoop].
    assert (length (Z.of_nat <$> (pre ++ [a; b])) = S (S (length pre))) as Hlen
      by (rewrite length_fmap, List.length_app; cbn; lia).
    rewrite Hlen.
    pose proof (nth_octets pre ([a; b]) 0) as Hnth. rewrite Nat.add_0_r in Hnth.
    rewrite Hnth, !nth_octets. cbn [nth].
    rewrite (proj2 (Nat.ltb_lt (length pre) (S (S (length pre))))) by lia.
    rewrite (proj2 (Nat.ltb_lt (length pre + 1) (S (S (length pre))))) by lia.
    rewrite (proj2 (Nat.ltb_ge (length pre + 2) (S (S (length pre))))) by lia.
    rewrite encodeLoop_done by (rewrite Hlen; lia).
    change (Z.of_nat 0) with 0%Z in *. rewrite H1, H2, H3.
    rewrite !alphabetAt_sextet by done.
    cbn [base64Octets]. by rewrite !app_assoc'.
  - destruct fuel as [|fuel]; [cbn in Hfuel; lia|].
    apply Forall_cons in Hbound as [Ha Hbound].
    apply Forall_cons in Hbound as [Hb Hbound].
    apply Forall_cons in Hbound as [Hc Hbound].
    destruct (triplet_sextets a b c) as (H1 & H2 & H3 & H4); [lia..|].
    destruct (sextet_bounds a b) as (B1 & B2 & _); [lia..|].
    destruct (sextet_bounds b c) as (_ & _ & B3 & _); [lia..|].
    destruct (sextet_bounds c 0) as (_ & _ & _ & B4); [lia..|].
    cbn [ApiClient.encodeLoop].
    assert (length (Z.of_nat <$> (pre ++ a :: b :: c :: octets))
            = S (S (S (length pre + length octets)))) as Hlen
      by (rewrite length_fmap, List.length_app; cbn; lia).
    rewrite Hlen.
    pose proof (nth_octets pre (a :: b :: c :: octets) 0) as Hnth. rewrite Nat.add_0_r in Hnth.
    rewrite Hnth, !nth_octets. cbn [nth].
    rewrite (proj2 (Nat.ltb_lt (length pre) _)) by lia.
    rewrite (proj2 (Nat.ltb_lt (length pre + 1) _)) by lia.
    rewrite (proj2 (Nat.ltb_lt (length pre + 2) _)) by lia.
    rewrite H1, H2, H3, H4.
    rewrite !alphabetAt_sextet by done.
    replace (pre ++ a :: b :: c :: octets) with ((pre ++ [a; b; c]) ++ octets)
      by (by rewrite <- app_assoc).
    replace (length pre + 3)%nat with (length (pre ++ [a; b; c]))
      by (rewrite List.length_app; cbn; lia).
    rewrite IH by (done || (cbn in Hfuel; lia)).
    cbn [base64Octets]. by rewrite !app_assoc'.
Qed.

Lemma octetsOf_bounded (input : string) :
  Forall (λ o, (o < 256)%nat) (octetsOf input).
Proof.
  unfold octetsOf. apply Forall_fmap, Forall_forall. intros c _.
  apply nat_ascii_bounded.
Qed.

Lemma encodeUtf8_octets (input : string) :
  ApiClient.encodeUtf8 input = Z.of_nat <$> octetsOf (toWellFormed input).
Proof. reflexivity. Qed.

(** The fallback of [encodeBase64] writes the Base64 text of the octets. *)
Lemma encodeBase64_fallback (input : string) :
  ApiClient.encodeBase64 false input
  = Ok (base64Octets (octetsOf (toWellFormed input))).
Proof.
  unfold ApiClient.encodeBase64. rewrite encodeUtf8_octets. f_equal.
  apply (encodeLoop_octets (octetsOf (toWellFormed input))
           (octetsOf_bounded _)
           (length (Z.of_nat <$> octetsOf (toWellFormed input))) [] "").
  rewrite length_fmap. lia.
Qed.

(** On ASCII text the three encoders see the same bytes. *)
Lemma toWellFormed_ascii (s : string) :
  allChars isAsciiChar s = true → toWellFormed s = s.
Proof.
  induction s as [|c s IH]; [done|]. cbn [allChars].
  intros [Hc Hs]%andb_true_iff.
  assert (∀ d, isSurrogateHead c d = false) as Hhead.
  { intros d. unfold isSurrogateHead. unfold isAsciiChar in Hc.
    apply Nat.ltb_lt in Hc.
    by rewrite (proj2 (Nat.eqb_neq (nat_of_ascii c) 237)) by lia. }
  specialize (IH Hs).
  destruct s as [|d [|e rest]]; cbn [toWellFormed] in *; rewrite ?Hhead;
    by rewrite ?IH.
Qed.

Lemma latin1_ascii (s : string) :
  allChars isAsciiChar s = true → latin1 s = Some (octets s).
Proof.
  induction s as [|c s IH]; [done|]. cbn [allChars latin1].
  intros [Hc Hs]%andb_true_iff. unfold isAsciiChar in Hc.
  by rewrite Hc, (IH Hs).
Qed.

Lemma btoa_ascii (s : string) :
  allChars isAsciiChar s = true → btoa s = Ok (base64Octets (octets s)).
Proof. intros Hs. unfold btoa. by rewrite (latin1_ascii s Hs). Qed.

Lemma Buffer_base64_ascii (s : string) :
  allChars isAsciiChar s = true → Buffer_base64 s = base64Octets (octets s).
Proof. intros Hs. unfold Buffer_base64. by rewrite (toWellFormed_ascii s Hs). Qed.

(** X24. On ASCII text the hand-written fallback of [encodeBase64]
    gives what [btoa] gives: the header does not depend on whether the
    host has [btoa]. *)
Theorem encodeBase64_fallback_agrees (input : string) :
  allChars isAsciiChar input = true →
  ApiClient.encodeBase64 false input = ApiClient.encodeBase64 true input.
Proof.
  intros Hascii. rewrite encodeBase64_fallback.
  unfold ApiClient.encodeBase64.
  by rewrite (btoa_ascii input Hascii), (toWellFormed_ascii input Hascii).
Qed.

Lemma encodeBase64_fallback_agrees_witness :
  ApiClient.encodeBase64 false "key:" = ApiClient.encodeBase64 true "key:".
Proof. apply (encodeBase64_fallback_agrees "key:"). reflexivity. Defined.

Lemma div_mul_add (x y k : nat) : (y < k)%nat → ((x * k + y) / k = x)%nat.
Proof.
  intros. rewrite Nat.div_add_l by lia. rewrite Nat.div_small by done. lia.
Qed.

Lemma mod_mul_add (x y k : nat) : (y < k)%nat → ((x * k + y) mod k = y)%nat.
Proof.
  intros. rewrite Nat.add_comm, Nat.Div0.mod_add. by apply Nat.mod_small.
Qed.

Lemma octets_of_sextets (a b c : nat) :
  (a < 256)%nat → (b < 256)%nat → (c < 256)%nat →
  ((a / 4) * 4 + ((a mod 4) * 16 + b / 16) / 16 = a)%nat
  ∧ ((((a mod 4) * 16 + b / 16) mod 16) * 16
     + ((b mod 16) * 4 + c / 64) / 4 = b)%nat
  ∧ ((((b mod 16) * 4 + c / 64) mod 4) * 64 + c mod 64 = c)%nat.
Proof.
  intros Ha Hb Hc.
  assert (b / 16 < 16)%nat by (apply Nat.Div0.div_lt_upper_bound; lia).
  assert (c / 64 < 4)%nat by (apply Nat.Div0.div_lt_upper_bound; lia).
  rewrite !div_mul_add, !mod_mul_add by done.
  pose proof (Nat.div_mod_eq a 4). pose proof (Nat.div_mod_eq b 16).
  pose proof (Nat.div_mod_eq c 64). lia.
Qed.

(** Every sextet has its own character, none of them the padding. *)
Lemma sextetOf_base64Char (n : nat) :
  (n < 64)%nat →
  sextetOf (base64Char n) = Some n ∧ Ascii.eqb (base64Char n) "=" = false.
Proof.
  intros Hn.
  assert (forallb (λ k, bool_decide (sextetOf (base64Char k) = Some k)
                        && negb (Ascii.eqb (base64Char k) "="))
            (seq 0 64) = true) as Hall by (by vm_compute).
  rewrite forallb_forall in Hall. specialize (Hall n).
  destruct (andb_prop _ _ (Hall ltac:(apply in_seq; lia))) as [H1 H2].
  split; [by apply bool_decide_eq_true_1 in H1|by apply negb_true_iff].
Qed.

Lemma decodeBase64_octets (octets : list nat) :
  Forall (λ o, (o < 256)%nat) octets →
  decodeBase64 (base64Octets octets) = Some octets.
Proof.
  induction octets as [|a|a b|a b c octets IH] using list_ind3; intros Hbound.
  - done.
  - apply Forall_cons in Hbound as [Ha _].
    destruct (sextet_bounds a 0) as (B1 & B2 & _); [lia..|].
    destruct (octets_of_sextets a 0 0) as (E1 & _); [lia..|].
    change (0 / 16)%nat with 0%nat in *. rewrite Nat.add_0_r in *.
    destruct (sextetOf_base64Char _ B1) as [S1 _].
    destruct (sextetOf_base64Char _ B2) as [S2 _].
    cbn [base64Octets decodeBase64]. rewrite S1, S2.
    cbn -[Nat.div Nat.modulo Nat.mul Nat.add]. by rewrite E1.
  - apply Forall_cons in Hbound as [Ha Hbound].
    apply Forall_cons in Hbound as [Hb _].
    destruct (sextet_bounds a b) as (B1 & B2 & _); [lia..|].
    destruct (sextet_bounds b 0) as (_ & _ & B3 & _); [lia..|].
    destruct (octets_of_sextets a b 0) as (E1 & E2 & _); [lia..|].
    change (0 / 64)%nat with 0%nat in *. rewrite Nat.add_0_r in *.
    destruct (sextetOf_base64Char _ B1) as [S1 _].
    destruct (sextetOf_base64Char _ B2) as [S2 _].
    destruct (sextetOf_base64Char _ B3) as [S3 P3].
    cbn [base64Octets decodeBase64]. rewrite S1, S2. cbn [mbind option_bind].
    rewrite P3, S3. cbn -[Nat.div Nat.modulo Nat.mul Nat.add].
    by rewrite E1, E2.
  - apply Forall_cons in Hbound as [Ha Hbound].
    apply Forall_cons in Hbound as [Hb Hbound].
    apply Forall_cons in Hbound as [Hc Hbound].
    destruct (sextet_bounds a b) as (B1 & B2 & _); [lia..|].
    destruct (sextet_bounds b c) as (_ & _ & B3 & _); [lia..|].
    destruct (sextet_bounds c 0) as (_ & _ & _ & B4); [lia..|].
    destruct (octets_of_sextets a b c) as (E1 & E2 & E3); [lia..|].
    destruct (sextetOf_base64Char _ B1) as [S1 _].
    destruct (sextetOf_base64Char _ B2) as [S2 _].
    destruct (sextetOf_base64Char _ B3) as [S3 P3].
    destruct (sextetOf_base64Char _ B4) as [S4 P4].
    cbn [base64Octets decodeBase64]. rewrite S1, S2. cbn [mbind option_bind].
    rewrite P3, S3. cbn [mbind option_bind]. rewrite P4, S4.
    cbn [mbind option_bind]. rewrite (IH Hbound). cbn [mbind option_bind].
    by rewrite E1, E2, E3.
Qed.

(** X25. What the fallback of [encodeBase64] writes decodes to the
    UTF-8 octets of the text it was given (a surrogate outside a pair
    counted as U+FFFD, as [TextEncoder] does). *)
Theorem encodeBase64_decodes (input : string) :
  decodeBase64 <$> ApiClient.encodeBase64 false input
  = Ok (Some (octetsOf (toWellFormed input))).
Proof.
  rewrite encodeBase64_fallback. cbn. f_equal.
  apply decodeBase64_octets, octetsOf_bounded.
Qed.

(** X26. The two clients agree on the API-key header: [Basic] followed by
    the token the core resolves for a user name without password is what
    [createApiKeyAuthHeader] builds for that key, with or without [btoa]
    on either side, as long as one encoder exists and the key is ASCII. *)
Theorem createApiKeyAuthHeader_is_core_header (h : Host) (hasBtoa' : bool)
    (key : string) :
  allChars isAsciiChar key = true →
  hasBtoa h || hasBuffer h = true →
  (λ token, "Basic " +:+ token)
    <$> (resolveBasicToken h {| username := key; password := None |}
           initialState).1
  = ApiClient.createApiKeyAuthHeader hasBtoa' key.
Proof.
  intros Hkey Hencoder.
  assert (allChars isAsciiChar (key +:+ ":") = true) as Hascii
    by (by rewrite allChars_app, Hkey).
  unfold ApiClient.createApiKeyAuthHeader.
  assert (ApiClient.encodeBase64 hasBtoa' (key +:+ ":")
          = Ok (base64Octets (octets (key +:+ ":")))) as ->.
  { destruct hasBtoa'; [by apply btoa_ascii|].
    by rewrite encodeBase64_fallback, (toWellFormed_ascii _ Hascii). }
  unfold resolveBasicToken.
  cbn [cached initialState username password default from_option id].
  rewrite app_empty_r.
  destruct (hasBtoa h), (hasBuffer h); try done; cbn [negb];
    by rewrite ?(btoa_ascii _ Hascii), ?(Buffer_base64_ascii _ Hascii).
Qed.

Lemma createApiKeyAuthHeader_is_core_header_witness :
  (λ token, "Basic " +:+ token)
    <$> (resolveBasicToken {| hasBtoa := true; hasBuffer := false |}
           {| username := "key"; password := None |} initialState).1
  = ApiClient.createApiKeyAuthHeader false "key".
Proof.
  apply (createApiKeyAuthHeader_is_core_header
           {| hasBtoa := true; hasBuffer := false |} false "key");
    reflexivity.
Defined.

(** ** Base configuration *)

(** X27. Whatever the URL parser answers, the base URL handed to the
    transport does not end with a slash and the base path is empty or
    begins with a slash and does not end with one.  A base path given
    explicitly wins, the empty one included; without it, an API URL that
    does not parse gets the default [/api/v4]. *)
Theorem inferBaseConfig_invariants (parseURL : string → option ParsedURL)
    (apiUrl : string) (providedBasePath : option string) :
  let config := inferBaseConfig parseURL apiUrl providedBasePath in
  endsWith (baseUrl config) "/" = false
  ∧ (inferredBasePath config = ""
     ∨ (startsWith (inferredBasePath config) "/" = true
        ∧ endsWith (inferredBasePath config) "/" = false))
  ∧ (∀ p, providedBasePath = Some p →
          inferredBasePath config = normalizeBasePath (Some p))
  ∧ (providedBasePath = None → parseURL apiUrl = None →
     inferredBasePath config = "/api/v4").
Proof.
  intros config. subst config. unfold inferBaseConfig.
  destruct (parseURL apiUrl) as [parsed|]; cbn [baseUrl inferredBasePath].
  all: split;
    [destruct (removeTrailingSlash_run (protocol parsed +:+ "//" +:+ urlHost parsed))
       as (k & _ & Hlast) || destruct (removeTrailingSlash_run (removeTrailingSlash apiUrl))
       as (k & _ & Hlast);
     by rewrite endsWith_lastIsSlash|].
  all: split; [rewrite endsWith_lastIsSlash; apply normalizeBasePath_form|].
  all: split; [by intros p ->|by intros ->].
Qed.

(** ** Path templates, continued *)

(** X28. The first placeholder, from the left, whose supplied value is
    not encodable (it has no string form, or its string form has a
    surrogate outside a pair) decides the failure: the compiled function
    raises what converting and encoding that value raises, whatever stands
    in the later slots. *)
Theorem compilePathTemplate_first_failure (path : string) (pathParams : value)
    (before after : list string) (key : string) (v : value) :
  matchAllParams path = before ++ key :: after →
  (∀ k w, k ∈ before → suppliedValue pathParams k = Some w →
          encodable w = true) →
  suppliedValue pathParams key = Some v →
  encodable v = false →
  ∃ e, toPathParamSegment key v ≫= encodeURIComponent = Throw e
       ∧ compilePathTemplate path pathParams = Throw e.
Proof. apply compilePathTemplate_raises. Qed.

Lemma compilePathTemplate_first_failure_witness :
  ∃ e, toPathParamSegment "postId" (VObject None []) ≫= encodeURIComponent
       = Throw e
       ∧ compilePathTemplate userPostTemplate
           (VObject None [("userId", VNumber 7); ("postId", VObject None [])])
         = Throw e.
Proof.
  apply (compilePathTemplate_first_failure userPostTemplate
           (VObject None [("userId", VNumber 7); ("postId", VObject None [])])
           ["userId"] [] "postId" (VObject None []));
    [reflexivity| |reflexivity|reflexivity].
  intros k w Hk. apply list_elem_of_singleton in Hk as ->.
  by intros [= <-].
Defined.

Lemma countSlashes_app (s t : string) :
  countSlashes (s +:+ t) = (countSlashes s + countSlashes t)%nat.
Proof.
  induction s as [|c s IH]; [done|].
  rewrite app_cons. cbn [countSlashes]. rewrite IH. lia.
Qed.

Lemma isUriUnreserved_not_slash (c : ascii) :
  isUriUnreserved c = true → Ascii.eqb c "/" = false.
Proof.
  intros Hc. destruct (Ascii.eqb_spec c "/") as [->|]; [|done].
  by vm_compute in Hc.
Qed.

Lemma hexDigit_not_slash (n : nat) :
  (n < 16)%nat → Ascii.eqb (hexDigit n) "/" = false.
Proof.
  intros Hn. do 16 (destruct n as [|n]; [reflexivity|]). lia.
Qed.

Lemma percentEncode_no_slash (s : string) :
  countSlashes (percentEncode s) = 0%nat.
Proof.
  induction s as [|c s IH]; [done|].
  cbn [percentEncode].
  destruct (isUriUnreserved c) eqn:Hc.
  - cbn [countSlashes]. by rewrite (isUriUnreserved_not_slash c Hc), IH.
  - pose proof (nat_ascii_bounded c) as Hb.
    cbn [countSlashes].
    rewrite !hexDigit_not_slash, IH; [done| |].
    + apply Nat.mod_upper_bound. lia.
    + apply Nat.Div0.div_lt_upper_bound. lia.
Qed.

(** Filling the slots never gives more slashes than leaving every
    placeholder as it stands. *)
Lemma applyParamsLoop_slashes (parts : list string) (pathParams : value)
    (keys : list string) (i : nat) (acc acc' r r' : string) :
  applyParamsLoop parts pathParams i keys acc = Ok r →
  applyParamsLoop parts (VObject None []) i keys acc' = Ok r' →
  (countSlashes acc ≤ countSlashes acc')%nat →
  (countSlashes r ≤ countSlashes r')%nat.
Proof.
  revert i acc acc'.
  induction keys as [|key keys IH]; intros i acc acc' Hrun Hrun' Hacc.
  - cbn in Hrun, Hrun'. by injection Hrun as <-; injection Hrun' as <-.
  - cbn [applyParamsLoop] in Hrun, Hrun'.
    assert (hasOwnProperty (VObject None []) key = false) as Hown
      by reflexivity.
    rewrite Hown, andb_false_r in Hrun'. cbn [mbind result_bind] in Hrun'.
    set (slot := if negb (String.eqb key "") && hasOwnProperty pathParams key
                 then _ else _) in Hrun.
    destruct slot as [segment|e] eqn:Hslot; [|done].
    cbn [mbind result_bind] in Hrun.
    apply (IH _ _ _ Hrun Hrun').
    rewrite !countSlashes_app.
    enough (countSlashes segment ≤ countSlashes (placeholder key))%nat by lia.
    subst slot.
    destruct (negb (String.eqb key "") && hasOwnProperty pathParams key);
      [|by injection Hslot as <-].
    destruct (negb (isUndefined (getProp pathParams key))
              && negb (isNull (getProp pathParams key)));
      [|by injection Hslot as <-].
    destruct (toPathParamSegment key (getProp pathParams key)) as [text|];
      [|done].
    cbn [mbind result_bind] in Hslot. unfold encodeURIComponent in Hslot.
    destruct (hasLoneSurrogate text); [done|].
    injection Hslot as <-. rewrite percentEncode_no_slash. lia.
Qed.

(** X29. Supplied values add no path separator: whatever the parameter
    object holds, a path the compiled function returns has at most as
    many slashes as the template. *)
Theorem compilePathTemplate_adds_no_slash (path : string) (pathParams : value)
    (finalPath : string) :
  compilePathTemplate path pathParams = Ok finalPath →
  (countSlashes finalPath ≤ countSlashes path)%nat.
Proof.
  unfold compilePathTemplate.
  destruct (matchAllParams path) as [|key keys] eqn:Hkeys.
  { cbn. by intros [= <-]. }
  cbn [length Nat.eqb].
  destruct (truthy pathParams); cbn [negb]; [|by intros [= <-]].
  intros Hrun.
  pose proof (length_splitFrom (String.length path) path "") as Hlen.
  fold (splitParams path) in Hlen. fold (matchAllParams path) in Hlen.
  rewrite Hkeys in Hlen.
  assert (applyParamsLoop (splitParams path) (VObject None []) 0 (key :: keys)
            (nth 0 (splitParams path) "") = Ok path) as Hbare.
  { etrans.
    - apply (applyParamsLoop_interleave (splitParams path) (VObject None [])
               (key :: keys) 0 "" eq_refl); [lia| |done].
      intros k Hk. rewrite <- Hkeys in Hk.
      by apply matchAllFrom_nonempty in Hk.
    - rewrite <- (interleave_templates path) at 2. by rewrite Hkeys. }
  by apply (applyParamsLoop_slashes _ _ _ _ _ _ _ _ Hrun Hbare).
Qed.

Lemma compilePathTemplate_adds_no_slash_witness :
  compilePathTemplate "/users/{id}" (VObject None [("id", VString "a/../b")])
  = Ok "/users/a%2F..%2Fb"
  ∧ (countSlashes "/users/a%2F..%2Fb" ≤ countSlashes "/users/{id}")%nat.
Proof.
  split; [reflexivity|].
  apply (compilePathTemplate_adds_no_slash "/users/{id}"
           (VObject None [("id", VString "a/../b")])).
  reflexivity.
Defined.

(** ** Operation handlers, continued *)


